(** * Gardner-Knopoff declustering of SeismoStats

    A shallow embedding of
    [seismostats/analysis/declustering/dec_gardner_knopoff.py] and
    [seismostats/analysis/declustering/distance_time_windows.py], with the
    NumPy and pandas primitives they call.

    Numbers.  [float64] values of the declustering engine are idealised as
    exact rationals [Q] (no rounding, no NaN, no infinities), so that the
    engine stays executable; the window formulas, which need [exp] and
    [10^x], are idealised over the real numbers [R]. *)

From stdpp Require Import list strings sorting gmap.
From Stdlib Require Import QArith Qabs Reals Lqa Lra Lia.
Close Scope Q_scope.

(** ** Outcomes of fallible Python code *)

Inductive exception :=
| ValueError (msg : string)
| IndexError
| KeyError
| FuelExhausted.

Inductive outcome (A : Type) :=
| Return (a : A)
| Raise (e : exception).
Arguments Return {A} a.
Arguments Raise {A} e.

#[global] Instance outcome_ret : MRet outcome := fun A a => Return a.
#[global] Instance outcome_bind : MBind outcome := fun A B f m =>
  match m with
  | Return a => f a
  | Raise e => Raise e
  end.
#[global] Instance outcome_fmap : FMap outcome := fun A B f m =>
  match m with
  | Return a => Return (f a)
  | Raise e => Raise e
  end.

(** [o] or raise [e] when [o] is [None]. *)
Definition or_raise {A} (e : exception) (o : option A) : outcome A :=
  match o with
  | Some a => Return a
  | None => Raise e
  end.

(** ** NumPy array primitives

    One-dimensional arrays are lists.  Operations that NumPy rejects on a
    shape or index mismatch either return an [outcome] or are only used by
    the engine on arrays whose lengths agree by construction. *)

Module np.

(** [np.arange(0, n, 1)] *)
Definition arange (n : nat) : list nat := seq 0 n.

(** [np.zeros(n, dtype=int)] *)
Definition zeros (n : nat) : list Z := replicate n 0%Z.

(** [np.flipud(a)] on a one-dimensional array. *)
Definition flipud {A} (a : list A) : list A := reverse a.

(** [a[i]] for an integer [i]: [IndexError] out of range. *)
Definition getitem {A} (a : list A) (i : nat) : outcome A :=
  or_raise IndexError (a !! i).

(** [a[idx]] for an integer index array [idx] (fancy indexing). *)
Definition take {A} (a : list A) (idx : list nat) : outcome (list A) :=
  or_raise IndexError (mapM (fun i => a !! i) idx).

(** [a[mask]] for a boolean [mask]. *)
Fixpoint compress {A} (mask : list bool) (a : list A) : list A :=
  match mask, a with
  | m :: mask, x :: a => if m then x :: compress mask a else compress mask a
  | _, _ => []
  end.

(** [a[mask] = x] for a scalar [x]. *)
Fixpoint set_mask {A} (a : list A) (mask : list bool) (x : A) : list A :=
  match a, mask with
  | y :: a, m :: mask => (if m then x else y) :: set_mask a mask x
  | _, _ => a
  end.

(** [a[mask] = vals] for an array [vals] with one value for each [True] of
    [mask], consumed in order. *)
Fixpoint place {A} (a : list A) (mask : list bool) (vals : list A) : list A :=
  match a, mask with
  | y :: a, m :: mask =>
      if m then
        match vals with
        | v :: vals => v :: place a mask vals
        | [] => y :: place a mask []
        end
      else y :: place a mask vals
  | _, _ => a
  end.

(** [np.logical_and(a, b)] *)
Definition logical_and (a b : list bool) : list bool := zip_with andb a b.

(** Python's builtin [any] on a boolean array. *)
Definition any (a : list bool) : bool := existsb (fun b : bool => b) a.

End np.

(** ** NumPy's heapsort ([numpy/_core/src/npysort/heapsort.cpp])

    [np.argsort(v, kind="heapsort")] fills an index array with [0 .. n-1] and
    runs [aheapsort_] on it.  The routine is generic in the element type and
    its comparison [Tag::less].  The C code works on [a = tosort - 1], so that
    [a[1] .. a[n]] are the elements: [rd] and [wr] read and write through that
    offset.  Each inner [for (i, j; j <= n;)] loop is [sift]; it runs at most
    [log2 n + 1] times, and [fuel] bounds its unfolding. *)

Module npysort.
Section aheapsort.
Context {type : Type} `{!Inhabited type}.
Context (less : type -> type -> bool) (v : list type).

(** [Tag::less(v[x], v[y])] *)
Definition vless (x y : nat) : bool := less (v !!! x) (v !!! y).

(** [a[k]] *)
Definition rd (tosort : list nat) (k : nat) : nat :=
  default 0%nat (tosort !! (k - 1)%nat).

(** [a[k] = x] *)
Definition wr (tosort : list nat) (k : nat) (x : nat) : list nat :=
  <[(k - 1)%nat := x]> tosort.

(** The loop
    [for (i, j; j <= n;) { if (j < n && less(v[a[j]], v[a[j+1]])) j += 1;
       if (less(v[tmp], v[a[j]])) { a[i] = a[j]; i = j; j += j; } else break; }]
    followed by [a[i] = tmp]. *)
Fixpoint sift (fuel : nat) (a : list nat) (tmp i j n : nat)
  : option (list nat) :=
  match fuel with
  | O => None
  | S fuel =>
      if (j <=? n)%nat then
        let j := if (j <? n)%nat && vless (rd a j) (rd a (j + 1)) then (j + 1)%nat else j in
        if vless tmp (rd a j)
        then sift fuel (wr a i (rd a j)) tmp j (j + j)%nat n
        else Some (wr a i tmp)
      else Some (wr a i tmp)
  end.

(** [for (l = n >> 1; l > 0; --l) { tmp = a[l]; sift from i = l, j = l << 1 }] *)
Fixpoint build_heap (fuel : nat) (l : nat) (a : list nat) (n : nat)
  : option (list nat) :=
  match l with
  | O => Some a
  | S l' =>
      a ← sift fuel a (rd a l) l (Nat.shiftl l 1) n;
      build_heap fuel l' a n
  end.

(** [for (; n > 1;) { tmp = a[n]; a[n] = a[1]; n -= 1; sift from i = 1, j = 2 }] *)
Fixpoint sort_heap (fuel : nat) (n : nat) (a : list nat) : option (list nat) :=
  match n with
  | S (S _ as n') =>
      let tmp := rd a n in
      let a := wr a n (rd a 1) in
      a ← sift fuel a tmp 1 2 n';
      sort_heap fuel n' a
  | _ => Some a
  end.

Definition aheapsort_ (tosort : list nat) (n : nat) : option (list nat) :=
  a ← build_heap n (Nat.shiftr n 1) tosort n;
  sort_heap n n a.

End aheapsort.
End npysort.

(** [np.argsort(v, kind="heapsort")]; [FuelExhausted] stands for a sift loop
    that did not finish within its bound, which [argsort_returns] excludes. *)
Definition argsort {type} `{!Inhabited type} (less : type -> type -> bool)
    (v : list type) : outcome (list nat) :=
  or_raise FuelExhausted
    (npysort.aheapsort_ less v (np.arange (length v)) (length v)).

(** [Tag::less] at [float64] (idealised) and at integer indices. *)
#[global] Instance Q_inhabited : Inhabited Q := populate 0%Q.
Definition Qltb (x y : Q) : bool := negb (Qle_bool y x).
Definition float_less : Q -> Q -> bool := Qltb.
Definition intp_less : nat -> nat -> bool := Nat.ltb.

(** ** pandas Series (the part the engine uses)

    A Series carries an index of labels next to its values.  On a Series with
    an integer index, [s[i]] and [s[idx]] look labels up, not positions; the
    result of [s[idx]] is indexed by [idx]. *)

Module pd.
Section series.
Context {A : Type}.

Record Series := { index : list nat; values : list A }.

(** A column of a DataFrame with the default [RangeIndex]. *)
Definition of_column (a : list A) : Series :=
  {| index := np.arange (length a); values := a |}.

(** [Index.get_loc(label)] *)
Definition get_loc (idx : list nat) (label : nat) : option nat :=
  fst <$> list_find (fun l => l = label) idx.

Definition lookup_label (s : Series) (label : nat) : option A :=
  p ← get_loc (index s) label; values s !! p.

(** [s[label]] for an integer [label]: [KeyError] when absent. *)
Definition getitem (s : Series) (label : nat) : outcome A :=
  or_raise KeyError (lookup_label s label).

(** [s[labels]] for an integer array [labels]. *)
Definition take (s : Series) (labels : list nat) : outcome Series :=
  vals ← or_raise KeyError (mapM (lookup_label s) labels);
  Return {| index := labels; values := vals |}.

End series.
Arguments Series A : clear implicits.
End pd.

(** ** The declustering engine ([dec_gardner_knopoff.py]) *)

(** What the engine reads of a timestamp: [.dt.year] and [.dt.dayofyear]. *)
Record Timestamp := { dt_year : Z; dt_dayofyear : Z }.

(** The catalogue, column by column, under the default [RangeIndex] (row
    labels are row numbers).  [magnitude], [longitude] and [latitude] are
    required; the time columns are optional.  The record carries no index.
    With year, month and day columns the engine turns every column into a
    NumPy array and never looks at the index, so nothing is lost; on the
    [time] path the decimal years stay a Series, and the model describes
    catalogues with the default index only: with other row labels
    [year_dec[id0]] and [year_dec[i]] look up labels that need not exist. *)
Record DataFrame := {
  magnitude : list Q;
  longitude : list Q;
  latitude : list Q;
  year : option (list Z);
  month : option (list Z);
  day : option (list Z);
  time : option (list Timestamp)
}.

(** Modelled from the spec: the window strategy as [decluster] calls it,
    [calc(magnitude, time_cutoff)], which the window classes at hand do not
    define.  It gives one (space radius, time duration) pair per magnitude,
    each computed from that magnitude and the cutoff alone. *)
Record TimeDistanceWindow := { window : Q -> option Q -> Q * Q }.

Definition calc (w : TimeDistanceWindow) (magnitude : list Q)
    (time_cutoff : option Q) : list Q * list Q :=
  (map (fun m => fst (window w m time_cutoff)) magnitude,
   map (fun m => snd (window w m time_cutoff)) magnitude).

Record GKConfig := {
  time_distance_window : TimeDistanceWindow;
  fs_time_prop : Q;
  time_cutoff : option Q
}.

(** [year_dec] is a NumPy array when it comes from [decimal_year] and a pandas
    Series when it comes from the [time] column. *)
Inductive year_array :=
| NdArray (a : list Q)
| PdSeries (s : pd.Series Q).

Definition ya_values (y : year_array) : list Q :=
  match y with
  | NdArray a => a
  | PdSeries s => pd.values s
  end.

(** [year_dec[id0]] *)
Definition ya_take (y : year_array) (idx : list nat) : outcome year_array :=
  match y with
  | NdArray a => NdArray <$> np.take a idx
  | PdSeries s => PdSeries <$> pd.take s idx
  end.

(** [year_dec[i]] *)
Definition ya_getitem (y : year_array) (i : nat) : outcome Q :=
  match y with
  | NdArray a => np.getitem a i
  | PdSeries s => pd.getitem s i
  end.

Record gk_state := {
  cluster_ids : list Z;
  shock_types : list Z;
  clust_index : Z
}.

Section decluster.
(** [seismostats.analysis.declustering.utils]: great-circle distance in km
    between (lon1, lat1) and (lon2, lat2), and the decimal year of a
    (year, month, day); both are taken as given. *)
Variable haversine : Q -> Q -> Q -> Q -> Q.
Variable decimal_year : Z -> Z -> Z -> Q.

(** [decimal_year(year, month, day)] on arrays. *)
Definition decimal_year_array (year month day : list Z) : list Q :=
  zip_with (fun ym d => decimal_year (fst ym) (snd ym) d) (zip year month) day.

(** [haversine(lons, lats, lon, lat)[:, 0]] *)
Definition haversine_array (lons lats : list Q) (lon lat : Q) : list Q :=
  zip_with (fun lo la => haversine lo la lon lat) lons lats.

Section loop.
(** The working arrays in descending-magnitude order. *)
Variables (longitude latitude sw_space sw_time : list Q).
Variable year_dec : year_array.
Variable fs_time_prop : Q.

(** [dt = year_dec - year_dec[i]] *)
Definition time_offsets (year_i : Q) : list Q :=
  map (fun y => y - year_i)%Q (ya_values year_dec).

(** Lines 162-180: the events selected around position [i]. *)
Definition select (cluster_ids : list Z) (dt : list Q)
    (lon_i lat_i space_i time_i : Q) : list bool :=
  let vsel :=
    np.logical_and
      (map (fun c => c =? 0)%Z cluster_ids)
      (np.logical_and
         (map (fun d => Qle_bool (- time_i * fs_time_prop) d) dt)
         (map (fun d => Qle_bool d time_i) dt)) in
  let vsel1 :=
    map (fun d => Qle_bool d space_i)
      (haversine_array (np.compress vsel longitude)
         (np.compress vsel latitude) lon_i lat_i) in
  np.place vsel vsel vsel1.

(** One iteration of [for i in range(0, neq - 1)].  The writes at [i] come
    after reads at [i], so they are in range whenever they are reached. *)
Definition gk_body (i : nat) (st : gk_state) : outcome gk_state :=
  c_i ← np.getitem (cluster_ids st) i;
  if (c_i =? 0)%Z then
    year_i ← ya_getitem year_dec i;
    let dt := time_offsets year_i in
    time_i ← np.getitem sw_time i;
    lon_i ← np.getitem longitude i;
    lat_i ← np.getitem latitude i;
    space_i ← np.getitem sw_space i;
    let vsel := select (cluster_ids st) dt lon_i lat_i space_i time_i in
    let temp_vsel := <[i := false]> vsel in
    if np.any temp_vsel then
      let cluster_ids := np.set_mask (cluster_ids st) vsel (clust_index st + 1)%Z in
      let shock_types := np.set_mask (shock_types st) vsel 1%Z in
      let temp_vsel := np.set_mask temp_vsel (map (fun d => Qle_bool 0 d) dt) false in
      let shock_types := np.set_mask shock_types temp_vsel (-1)%Z in
      let shock_types := <[i := 0%Z]> shock_types in
      Return {| cluster_ids := cluster_ids;
                shock_types := shock_types;
                clust_index := (clust_index st + 1)%Z |}
    else Return st
  else Return st.

Fixpoint gk_loop (range : list nat) (st : gk_state) : outcome gk_state :=
  match range with
  | [] => Return st
  | i :: range => st ← gk_body i st; gk_loop range st
  end.
End loop.

(** Lines 115-133: the decimal year of every event, or the schema error. *)
Definition schema_error : exception :=
  ValueError "Catalogue must contain either year, month, day columns or a time column"%string.

Definition year_dec_of (catalogue : DataFrame) : outcome year_array :=
  match year catalogue, month catalogue, day catalogue with
  | Some y, Some m, Some d => Return (NdArray (decimal_year_array y m d))
  | _, _, _ =>
      match time catalogue with
      | Some t =>
          Return (PdSeries (pd.of_column
            (map (fun ts => inject_Z (dt_year ts) + inject_Z (dt_dayofyear ts) / 365)%Q t)))
      | None => Raise schema_error
      end
  end.

(** Lines 146-148: the visiting order. *)
Definition sort_order (magnitude : list Q) : outcome (list nat) :=
  np.flipud <$> argsort float_less magnitude.

Definition decluster (catalogue : DataFrame) (config : GKConfig)
  : outcome (list Z * list Z) :=
  let magnitude := magnitude catalogue in
  let longitude := longitude catalogue in
  let latitude := latitude catalogue in
  year_dec ← year_dec_of catalogue;
  let neq := length magnitude in
  let '(sw_space, sw_time) :=
    calc (time_distance_window config) magnitude (time_cutoff config) in
  let eqid := np.arange neq in
  let init :=
    {| cluster_ids := np.zeros neq; shock_types := np.zeros neq;
       clust_index := 0 |} in
  id0 ← sort_order magnitude;
  longitude ← np.take longitude id0;
  latitude ← np.take latitude id0;
  sw_space ← np.take sw_space id0;
  sw_time ← np.take sw_time id0;
  year_dec ← ya_take year_dec id0;
  eqid ← np.take eqid id0;
  st ← gk_loop longitude latitude sw_space sw_time year_dec
          (fs_time_prop config) (seq 0 (neq - 1)) init;
  id1 ← argsort intp_less eqid;
  eqid ← np.take eqid id1;
  ids ← np.take (cluster_ids st) id1;
  types ← np.take (shock_types st) id1;
  Return (ids, types).

End decluster.

(** Modelled from the spec: the decimal year, "year plus fractional
    day-of-year divided by 365", with the day of the year counted from the
    start of the month by a fixed non-leap calendar. *)
Definition month_start (month : Z) : Z :=
  nth (Z.to_nat (month - 1)) [0; 31; 59; 90; 120; 151; 181; 212; 243; 273; 304; 334]%Z 0%Z.
Definition spec_decimal_year (year month day : Z) : Q :=
  (inject_Z year + inject_Z (month_start month + day - 1) / 365)%Q.

(** Stand-ins used on concrete catalogues: a distance that is zero exactly
    between equal coordinates (as the great-circle distance is on them), and a
    window strategy with one fixed radius and duration. *)
Definition flat_distance (lon1 lat1 lon2 lat2 : Q) : Q :=
  (Qabs (lon1 - lon2) + Qabs (lat1 - lat2))%Q.
Definition constant_window (space time : Q) : TimeDistanceWindow :=
  {| window := fun _ _ => (space, time) |}.


(** ** Window strategies ([distance_time_windows.py])

    Array arithmetic is elementwise: [0.1238 * magnitude + 0.983] maps over
    the magnitudes, [magnitude < 6.5] is a boolean mask, [magnitude[mask]]
    compresses and [sw_time[mask] = ...] places.  [np.power(10.0, x)] is
    [Rpower 10 x]; [np.sqrt] is [sqrt], which is [0] on negative reals where
    NumPy gives NaN. *)

Module distance_time_windows.
Local Open Scope R_scope.

(** [pd.Timedelta(days=t)], kept as its exact number of days. *)
Record Timedelta := { days : R }.

Definition Rltb (x y : R) : bool := if Rlt_dec x y then true else false.
Definition Rgeb (x y : R) : bool := if Rge_dec x y then true else false.

(** [np.clip(a, a_min, a_max)], which is
    [np.minimum(a_max, np.maximum(a, a_min))]. *)
Definition clip (a : list R) (a_min a_max : R) : list R :=
  map (fun x => Rmin a_max (Rmax x a_min)) a.

(** The subclasses of [BaseDistanceTimeWindow]. *)
Inductive window_class :=
| GardnerKnopoffWindow
| GruenthalWindow
| UhrhammerWindow.

(** An instance: its class and the [time_cutoff] given to [__init__]. *)
Record BaseDistanceTimeWindow := {
  class_of : window_class;
  time_cutoff : option R
}.

Definition GardnerKnopoffWindow_calc (magnitude : list R) : list R * list R :=
  let sw_space := map (fun m => Rpower 10 (0.1238 * m + 0.983)) magnitude in
  let sw_time := map (fun m => Rpower 10 (0.032 * m + 2.7389)) magnitude in
  let mask := map (fun m => Rltb m 6.5) magnitude in
  let sw_time :=
    np.place sw_time mask
      (map (fun m => Rpower 10 (0.5409 * m - 0.547)) (np.compress mask magnitude)) in
  (sw_space, sw_time).

(** Both square roots are taken of non-negative numbers exactly for
    magnitudes from [-0.037 / 1.02] up; below that NumPy returns NaN and this
    model, through [sqrt], does not. *)
Definition GruenthalWindow_calc (magnitude : list R) : list R * list R :=
  let sw_space := map (fun m => exp (1.77 + sqrt (0.037 + 1.02 * m))) magnitude in
  let sw_time :=
    map (fun m => Rabs (exp (-3.95 + sqrt (0.62 + 17.32 * m)))) magnitude in
  let mask := map (fun m => Rgeb m 6.5) magnitude in
  let sw_time :=
    np.place sw_time mask
      (map (fun m => Rpower 10 (2.8 + 0.024 * m)) (np.compress mask magnitude)) in
  (sw_space, sw_time).

Definition UhrhammerWindow_calc (magnitude : list R) : list R * list R :=
  let sw_space := map (fun m => exp (-1.024 + 0.804 * m)) magnitude in
  let sw_time := map (fun m => exp (-2.87 + 1.235 * m)) magnitude in
  (sw_space, sw_time).

(** [self._calc(magnitude)], dispatched on the class of [self]. *)
Definition _calc (self : BaseDistanceTimeWindow) (magnitude : list R)
  : list R * list R :=
  match class_of self with
  | GardnerKnopoffWindow => GardnerKnopoffWindow_calc magnitude
  | GruenthalWindow => GruenthalWindow_calc magnitude
  | UhrhammerWindow => UhrhammerWindow_calc magnitude
  end.

(** Truth value of [self.time_cutoff]: [None] and [0] are false. *)
Definition truthy (time_cutoff : option R) : bool :=
  match time_cutoff with
  | None => false
  | Some c => if Req_dec_T c 0 then false else true
  end.

Definition __call__ (self : BaseDistanceTimeWindow) (magnitude : list R)
  : list R * list Timedelta :=
  let '(sw_space, sw_time) := _calc self magnitude in
  let sw_time :=
    if truthy (time_cutoff self)
    then clip sw_time 0 (default 0 (time_cutoff self))
    else sw_time in
  let sw_time := map (fun t => {| days := t |}) sw_time in
  (sw_space, sw_time).

(** The closed forms of the Gardner-Knopoff window of one magnitude. *)
Definition gk_space_radius (m : R) : R := Rpower 10 (0.1238 * m + 0.983).
Definition gk_time_duration (m : R) : R :=
  if Rge_dec m 6.5
  then Rpower 10 (0.032 * m + 2.7389)
  else Rpower 10 (0.5409 * m - 0.547).

End distance_time_windows.

(** ** The option store ([utils/_config.py])

    [__options] is a module-level dictionary; [set_option] and [get_option]
    read and write it.  The store is threaded through explicitly: a call
    returns the store it leaves behind together with its outcome. *)

Module _config.

(** Values of type [Any] that an option can hold. *)
Inductive Any :=
| PyBool (b : bool)
| PyInt (z : Z)
| PyStr (s : string)
| PyNone.

(** [__options = Options(warnings=True)] *)
Definition __options : gmap string Any := {[ "warnings"%string := PyBool true ]}.

(** [set_option(key, value)]: overwrite an existing key, [KeyError] otherwise. *)
Definition set_option (key : string) (value : Any) (options : gmap string Any)
  : gmap string Any * outcome unit :=
  if decide (is_Some (options !! key))
  then (<[key := value]> options, Return tt)
  else (options, Raise KeyError).

(** [get_option(key)]: [__options[key]]. *)
Definition get_option (key : string) (options : gmap string Any) : outcome Any :=
  or_raise KeyError (options !! key).

(** A sequence of [set_option] calls, each one on the store the previous call
    left, whether it raised or not. *)
Definition set_options (calls : list (string * Any)) (options : gmap string Any)
  : gmap string Any :=
  fold_left (fun options call => (set_option call.1 call.2 options).1) calls options.

End _config.

(** ** Vocabulary of the statements *)

Module heap.
Section heap.
Context {type : Type} `{!Inhabited type}.
Context (less : type -> type -> bool) (v : list type).
Import npysort.

(** [v[x] <= v[y]], as [Tag::less] sees it. *)
Definition vle (x y : nat) : Prop := vless less v y x = false.

(** The children of position [p] (1-based, within [a[1..n]]) do not exceed
    their parent. *)
Definition heap_at (a : list nat) (n p : nat) : Prop :=
  (p + p <= n -> vle (rd a (p + p)) (rd a p)) /\
  (p + p + 1 <= n -> vle (rd a (p + p + 1)) (rd a p)).

(** [a[lo..n]] is a max-heap. *)
Definition heap_from (a : list nat) (lo n : nat) : Prop :=
  forall p, lo <= p -> heap_at a n p.

(** The state of a sift loop: [a[lo..n]] is a heap everywhere but at the
    hole [i], and both [tmp] and the children of the hole fit under the
    parent of the hole. *)
Definition hole_ok (a : list nat) (tmp lo i n : nat) : Prop :=
  (forall p, lo <= p -> p <> i -> heap_at a n p) /\
  (forall q, lo <= q -> i = q + q \/ i = q + q + 1 ->
     vle tmp (rd a q) /\
     (i + i <= n -> vle (rd a (i + i)) (rd a q)) /\
     (i + i + 1 <= n -> vle (rd a (i + i + 1)) (rd a q))).

(** [a[n+1..]] is sorted and bounds [a[1..n]] from above. *)
Definition sorted_above (a : list nat) (n : nat) : Prop :=
  Forall (fun x => forall m, n < m -> m <= length a -> vle x (rd a m)) (take n a) /\
  (forall k m, n < k -> k <= m -> m <= length a -> vle (rd a k) (rd a m)).
End heap.
End heap.

(** A strict weak order, as a boolean comparison. *)
Class StrictWeak {type : Type} (less : type -> type -> bool) : Prop := {
  less_asym x y : less x y = true -> less y x = false;
  less_negtrans x y z : less x y = false -> less y z = false -> less x z = false
}.

(** [order] lists every row index once, and the keys read along it never
    increase: [key] is ascending, so [flip key] read backwards. *)
Definition ascending {type} `{!Inhabited type} (less : type -> type -> bool)
    (v : list type) (order : list nat) : Prop :=
  StronglySorted (fun x y => less (v !!! y) (v !!! x) = false) order.
Definition descending {type} `{!Inhabited type} (less : type -> type -> bool)
    (v : list type) (order : list nat) : Prop :=
  StronglySorted (fun x y => less (v !!! x) (v !!! y) = false) order.

(** The sort step as the specification words it: a stable ascending argsort
    (an insertion sort that puts each index behind the indices of equal key
    already placed), then reversed. *)
Fixpoint insert_stable (key : nat -> Q) (i : nat) (order : list nat) : list nat :=
  match order with
  | [] => [i]
  | j :: order' =>
      if Qltb (key i) (key j) then i :: order
      else j :: insert_stable key i order'
  end.

Definition stable_argsort (v : list Q) : list nat :=
  fold_left (fun order i => insert_stable (fun k => v !!! k) i order)
    (seq 0 (length v)) [].

Definition spec_sort_order (magnitude : list Q) : list nat :=
  reverse (stable_argsort magnitude).

(** [x] comes before [y] in a stable ascending order of the keys. *)
Definition stable_le (key : nat -> Q) (x y : nat) : Prop :=
  Qltb (key y) (key x) = false /\ (Qltb (key x) (key y) = false -> x <= y).

(** No two rows have the same magnitude. *)
Definition distinct_magnitudes (magnitude : list Q) : Prop :=
  forall i j x y, magnitude !! i = Some x -> magnitude !! j = Some y ->
    (x == y)%Q -> i = j.

(** The value of a boolean mask at a position; [False] beyond its end. *)
Definition mask_at (mask : list bool) (p : nat) : bool := default false (mask !! p).

(** ** Catalogues used as concrete inputs *)

(** Three events: a magnitude-6 event, a magnitude-5 event at the same place
    a day later, and a distant magnitude-4 event. *)
Definition catalogue3 : DataFrame :=
  {| magnitude := [6; 5; 4]%Q; longitude := [0; 0; 50]%Q; latitude := [0; 0; 50]%Q;
     year := Some [2000; 2000; 2000]%Z; month := Some [1; 1; 1]%Z;
     day := Some [1; 2; 1]%Z; time := None |}.

(** Two events of equal magnitude at one place, a day apart, and the same
    catalogue with its two rows swapped. *)
Definition twins : DataFrame :=
  {| magnitude := [5; 5]%Q; longitude := [0; 0]%Q; latitude := [0; 0]%Q;
     year := Some [2000; 2000]%Z; month := Some [1; 1]%Z;
     day := Some [1; 2]%Z; time := None |}.
Definition twins_swapped : DataFrame :=
  {| magnitude := [5; 5]%Q; longitude := [0; 0]%Q; latitude := [0; 0]%Q;
     year := Some [2000; 2000]%Z; month := Some [1; 1]%Z;
     day := Some [2; 1]%Z; time := None |}.

(** A radius of 10 km and a duration of one year for every event. *)
Definition config (fs_time_prop : Q) : GKConfig :=
  {| time_distance_window := constant_window 10 1;
     fs_time_prop := fs_time_prop; time_cutoff := None |}.

(** ** Events in catalogue order *)

(** The space radius and the time duration of the window of row [e]. *)
Definition space_window (config : GKConfig) (catalogue : DataFrame) (e : nat) : Q :=
  (window (time_distance_window config) (magnitude catalogue !!! e) (time_cutoff config)).1.
Definition time_window (config : GKConfig) (catalogue : DataFrame) (e : nat) : Q :=
  (window (time_distance_window config) (magnitude catalogue !!! e) (time_cutoff config)).2.

(** Row [cand] lies farther from row [seed] than the space radius of [seed]. *)
Definition outside_radius (haversine : Q -> Q -> Q -> Q -> Q)
    (catalogue : DataFrame) (config : GKConfig) (seed cand : nat) : Prop :=
  Qle_bool
    (haversine (longitude catalogue !!! cand) (latitude catalogue !!! cand)
       (longitude catalogue !!! seed) (latitude catalogue !!! seed))
    (space_window config catalogue seed) = false.

(** The decimal year of row [e] of a catalogue with year, month and day
    columns. *)
Definition event_year (decimal_year : Z -> Z -> Z -> Q) (y m d : list Z) (e : nat) : Q :=
  decimal_year (y !!! e) (m !!! e) (d !!! e).

(** The catalogue has year, month and day columns, and row [cand] lies
    outside the time window searched around row [seed]. *)
Definition outside_duration (decimal_year : Z -> Z -> Z -> Q)
    (catalogue : DataFrame) (config : GKConfig) (seed cand : nat) : Prop :=
  exists y m d,
    year catalogue = Some y /\ month catalogue = Some m /\ day catalogue = Some d /\
    let dt := (event_year decimal_year y m d cand - event_year decimal_year y m d seed)%Q in
    Qle_bool (- time_window config catalogue seed * fs_time_prop config) dt
    && Qle_bool dt (time_window config catalogue seed) = false.

(** Two events at one place, exactly one year apart. *)
Definition year_apart : DataFrame :=
  {| magnitude := [6; 5]%Q; longitude := [0; 0]%Q; latitude := [0; 0]%Q;
     year := Some [2000; 2001]%Z; month := Some [1; 1]%Z;
     day := Some [1; 1]%Z; time := None |}.

(** An exception other than the schema error of [decluster]. *)
Definition index_like (e : exception) : Prop :=
  e = IndexError \/ e = KeyError \/ e = FuelExhausted.

(** ** Permuting the rows of a catalogue *)

#[global] Instance Timestamp_inhabited : Inhabited Timestamp :=
  populate {| dt_year := 0; dt_dayofyear := 0 |}.

(** Row [k] of the result is row [sigma[k]] of [l]. *)
Definition permute {A} `{!Inhabited A} (sigma : list nat) (l : list A) : list A :=
  (fun k => l !!! k) <$> sigma.

Definition permute_rows (sigma : list nat) (catalogue : DataFrame) : DataFrame :=
  {| magnitude := permute sigma (magnitude catalogue);
     longitude := permute sigma (longitude catalogue);
     latitude := permute sigma (latitude catalogue);
     year := permute sigma <$> year catalogue;
     month := permute sigma <$> month catalogue;
     day := permute sigma <$> day catalogue;
     time := permute sigma <$> time catalogue |}.

(** Every column the engine reads has one entry per row. *)
Definition rectangular (catalogue : DataFrame) (y m d : list Z) : Prop :=
  length (longitude catalogue) = length (magnitude catalogue) /\
  length (latitude catalogue) = length (magnitude catalogue) /\
  length y = length (magnitude catalogue) /\
  length m = length (magnitude catalogue) /\
  length d = length (magnitude catalogue).

(** A catalogue with a [time] column only: a magnitude-4 event in 1990 and,
    ten years later, a magnitude-6 and a magnitude-5 event a day apart, all
    at one place. *)
Definition timed : DataFrame :=
  {| magnitude := [4; 6; 5]%Q; longitude := [0; 0; 0]%Q; latitude := [0; 0; 0]%Q;
     year := None; month := None; day := None;
     time := Some [ {| dt_year := 1990; dt_dayofyear := 1 |};
                    {| dt_year := 2000; dt_dayofyear := 1 |};
                    {| dt_year := 2000; dt_dayofyear := 2 |} ] |}.

(** ** States of the clustering pass *)

(** Arrays of length [n], a non-negative counter that bounds the cluster ids,
    and shock types among -1, 0 and 1. *)
Definition regular_state (n : nat) (st : gk_state) : Prop :=
  length (cluster_ids st) = n /\ length (shock_types st) = n /\
  (0 <= clust_index st)%Z /\
  (forall p c, cluster_ids st !! p = Some c -> (0 <= c <= clust_index st)%Z) /\
  (forall p s, shock_types st !! p = Some s -> s = (-1)%Z \/ s = 0%Z \/ s = 1%Z).

(** Every cluster id in use up to the counter has a member that is a fore- or
    aftershock. *)
Definition clusters_populated (st : gk_state) : Prop :=
  forall c, (1 <= c <= clust_index st)%Z ->
    exists p, cluster_ids st !! p = Some c /\
      (shock_types st !! p = Some 1%Z \/ shock_types st !! p = Some (-1)%Z).

(** Whenever [q] is a member of shock type 0 of the cluster of another member
    [p], [link q p] holds of the shock type of [p]. *)
Definition clusters_linked (link : nat -> nat -> Z -> Prop) (st : gk_state) : Prop :=
  forall p q c s, p <> q ->
    cluster_ids st !! p = Some c -> c <> 0%Z -> cluster_ids st !! q = Some c ->
    shock_types st !! q = Some 0%Z -> shock_types st !! p = Some s ->
    link q p s.

(** Position [p] of the working arrays passes the window test around
    position [q], and [s] is the shock type that test gives it: 1 when it is
    not earlier than [q], -1 when it is. *)
Definition in_window (haversine : Q -> Q -> Q -> Q -> Q)
    (longitude latitude sw_space sw_time : list Q) (year_dec : year_array)
    (fs_time_prop : Q) (q p : nat) (s : Z) : Prop :=
  exists year_q time_q lon_q lat_q space_q d lo la,
    ya_getitem year_dec q = Return year_q /\ sw_time !! q = Some time_q /\
    longitude !! q = Some lon_q /\ latitude !! q = Some lat_q /\
    sw_space !! q = Some space_q /\
    time_offsets year_dec year_q !! p = Some d /\
    longitude !! p = Some lo /\ latitude !! p = Some la /\
    Qle_bool (- time_q * fs_time_prop) d = true /\ Qle_bool d time_q = true /\
    Qle_bool (haversine lo la lon_q lat_q) space_q = true /\
    s = if Qle_bool 0 d then 1%Z else (-1)%Z.

(** The window test of the engine, in catalogue order, for a catalogue with
    year, month and day columns: row [cand] lies within the time window and
    the space window searched around row [seed]. *)
Definition inside_window (haversine : Q -> Q -> Q -> Q -> Q)
    (decimal_year : Z -> Z -> Z -> Q) (catalogue : DataFrame) (config : GKConfig)
    (y m d : list Z) (seed cand : nat) : bool :=
  let dt := (event_year decimal_year y m d cand - event_year decimal_year y m d seed)%Q in
  Qle_bool (- time_window config catalogue seed * fs_time_prop config) dt
  && Qle_bool dt (time_window config catalogue seed)
  && Qle_bool
       (haversine (longitude catalogue !!! cand) (latitude catalogue !!! cand)
          (longitude catalogue !!! seed) (latitude catalogue !!! seed))
       (space_window config catalogue seed).

(** ** Catalogues read through their [time] column *)

(** The decimal year the engine computes from a timestamp (lines 128-129). *)
Definition time_year (ts : Timestamp) : Q :=
  (inject_Z (dt_year ts) + inject_Z (dt_dayofyear ts) / 365)%Q.

(** The catalogue has a [time] column, and by its timestamps row [cand]
    lies outside the time window around row [seed]. *)
Definition outside_duration_by_time (catalogue : DataFrame) (config : GKConfig)
    (seed cand : nat) : Prop :=
  exists t, time catalogue = Some t /\
    let dt := (time_year (t !!! cand) - time_year (t !!! seed))%Q in
    Qle_bool (- time_window config catalogue seed * fs_time_prop config) dt
    && Qle_bool dt (time_window config catalogue seed) = false.

(** * Correctness of NumPy's heapsort *)

#[global] Instance float_less_strict_weak : StrictWeak float_less.
Proof.
  split; unfold float_less, Qltb; intros *;
    rewrite ?negb_true_iff, ?negb_false_iff, <- ?not_true_iff_false, ?Qle_bool_iff;
    intros; Lqa.lra.
Qed.

#[global] Instance intp_less_strict_weak : StrictWeak intp_less.
Proof.
  split; unfold intp_less; intros *;
    rewrite ?Nat.ltb_lt, ?Nat.ltb_ge; lia.
Qed.

Section rd_wr.
Import npysort.
Implicit Types a : list nat.

Lemma length_wr a k x : length (wr a k x) = length a.
Proof. apply length_insert. Qed.

Lemma rd_wr_eq a k x : 1 <= k -> k <= length a -> rd (wr a k x) k = x.
Proof.
  intros ??. unfold rd, wr. rewrite list_lookup_insert_eq by lia. done.
Qed.

Lemma rd_wr_ne a k k' x : 1 <= k -> 1 <= k' -> k <> k' -> rd (wr a k x) k' = rd a k'.
Proof.
  intros ???. unfold rd, wr. rewrite list_lookup_insert_ne by lia. done.
Qed.

Lemma rd_lookup a k : 1 <= k -> k <= length a -> a !! (k - 1) = Some (rd a k).
Proof.
  intros ??. unfold rd.
  destruct (lookup_lt_is_Some_2 a (k - 1)) as [x ->]; [lia|done].
Qed.

Lemma wr_rd_id a k : wr a k (rd a k) = a.
Proof.
  unfold wr, rd. destruct (a !! (k - 1)) as [x|] eqn:E.
  - by apply list_insert_id.
  - apply list_insert_ge. by apply lookup_ge_None.
Qed.
End rd_wr.

Section heapsort_correct.
Import npysort heap.
Context {type : Type} `{!Inhabited type}.
Context (less : type -> type -> bool) (v : list type).
Context `{!StrictWeak less}.
Implicit Types a r : list nat.

Local Notation "x ⊑ y" := (vle less v x y) (at level 70).

Lemma vle_refl x : x ⊑ x.
Proof.
  unfold vle, vless. destruct (less (v !!! x) (v !!! x)) eqn:E; [|done].
  by rewrite <- (less_asym _ _ E).
Qed.

Lemma vle_of_vless x y : vless less v x y = true -> x ⊑ y.
Proof. unfold vle, vless. apply less_asym. Qed.

Lemma vle_trans x y z : x ⊑ y -> y ⊑ z -> x ⊑ z.
Proof. unfold vle, vless. intros Hxy Hyz. by eapply less_negtrans. Qed.

Ltac rd_simpl :=
  repeat first [rewrite rd_wr_eq by lia | rewrite rd_wr_ne by lia].

(** The child the loop descends into is the larger one. *)
Lemma larger_child a j n :
  j <= n ->
  let j1 := if (j <? n) && vless less v (rd a j) (rd a (j + 1)) then j + 1 else j in
  (j1 = j \/ j1 = j + 1) /\ j1 <= n /\
  rd a j ⊑ rd a j1 /\ (j + 1 <= n -> rd a (j + 1) ⊑ rd a j1).
Proof.
  intros Hj. cbn zeta.
  destruct (j <? n) eqn:Hlt; cbn [andb].
  - apply Nat.ltb_lt in Hlt.
    destruct (vless less v (rd a j) (rd a (j + 1))) eqn:E.
    + repeat split; [by right|lia|by apply vle_of_vless|intros; apply vle_refl].
    + repeat split; [by left|lia|apply vle_refl|done].
  - apply Nat.ltb_ge in Hlt.
    repeat split; [by left|lia|apply vle_refl|lia].
Qed.

(** Closing the hole with [tmp] when no child exceeds it. *)
Lemma fill_heap a tmp lo i n :
  1 <= lo -> lo <= i -> i <= n -> n <= length a ->
  hole_ok less v a tmp lo i n ->
  (i + i <= n -> rd a (i + i) ⊑ tmp) ->
  (i + i + 1 <= n -> rd a (i + i + 1) ⊑ tmp) ->
  heap_from less v (wr a i tmp) lo n.
Proof.
  intros Hlo Hi Hin Hn [Hheap Hpar] Hl Hr p Hp.
  destruct (decide (p = i)) as [->|Hne].
  - split; intros; rd_simpl; auto.
  - destruct (Hheap p Hp Hne) as [Ha Hb].
    split; intros Hle; rewrite (rd_wr_ne _ _ p) by lia.
    + destruct (decide (i = p + p)) as [->|]; rd_simpl; [|auto].
      apply (Hpar p); auto.
    + destruct (decide (i = p + p + 1)) as [->|]; rd_simpl; [|auto].
      apply (Hpar p); auto.
Qed.

Lemma sift_heap fuel : forall a tmp i n r lo,
  sift less v fuel a tmp i (i + i) n = Some r ->
  1 <= lo -> lo <= i -> i <= n -> n <= length a ->
  hole_ok less v a tmp lo i n ->
  heap_from less v r lo n.
Proof.
  induction fuel as [|fuel IH]; intros a tmp i n r lo Hs Hlo Hi Hin Hn Hok; [done|].
  cbn [sift] in Hs. destruct (i + i <=? n) eqn:Hjn.
  - apply Nat.leb_le in Hjn.
    pose proof (larger_child a (i + i) n Hjn) as Hc. cbn zeta in Hc.
    set (j1 := if (i + i <? n) && vless less v (rd a (i + i)) (rd a (i + i + 1))
               then i + i + 1 else i + i) in *.
    destruct Hc as (Hj1 & Hj1n & Hcl & Hcr).
    destruct (vless less v tmp (rd a j1)) eqn:Hlt.
    + apply (IH _ _ _ _ _ lo) in Hs; [done|lia|lia|lia|by rewrite length_wr|].
      destruct Hok as [Hheap Hpar]. split.
      * intros p Hp Hpj. destruct (decide (p = i)) as [->|Hne].
        -- split; intros; rd_simpl; auto.
        -- destruct (Hheap p Hp Hne) as [Ha Hb].
           split; intros Hle; rewrite (rd_wr_ne _ _ p) by lia.
           ++ destruct (decide (i = p + p)) as [Hip|]; rd_simpl; [|auto].
              destruct (Hpar p Hp (or_introl Hip)) as (_ & Hx & Hy).
              rewrite <- Hip. rd_simpl.
              destruct Hj1 as [->| ->]; [apply Hx|apply Hy]; lia.
           ++ destruct (decide (i = p + p + 1)) as [Hip|]; rd_simpl; [|auto].
              destruct (Hpar p Hp (or_intror Hip)) as (_ & Hx & Hy).
              rewrite <- Hip. rd_simpl.
              destruct Hj1 as [->| ->]; [apply Hx|apply Hy]; lia.
      * intros q Hq Hqj. assert (q = i) as -> by lia.
        destruct (Hheap j1 ltac:(lia) ltac:(lia)) as [Ha Hb].
        rd_simpl. split; [by apply vle_of_vless|]. split; intros; rd_simpl; auto.
    + injection Hs as <-. apply fill_heap; try done.
      * intros _. by apply vle_trans with (rd a j1).
      * intros Hle. apply vle_trans with (rd a j1); auto.
  - apply Nat.leb_gt in Hjn. injection Hs as <-.
    apply fill_heap; try done; lia.
Qed.

(** What a sift loop leaves alone: the length, everything above [n], and
    the elements as a multiset once the hole is closed. *)
Lemma sift_frame fuel : forall a tmp i j n r,
  sift less v fuel a tmp i j n = Some r ->
  1 <= i -> i < j -> i <= n -> n <= length a ->
  length r = length a /\ drop n r = drop n a /\ Permutation r (wr a i tmp).
Proof.
  induction fuel as [|fuel IH]; intros a tmp i j n r Hs Hi Hij Hin Hn; [done|].
  cbn [sift] in Hs.
  assert (Hend : forall r, Some (wr a i tmp) = Some r ->
    length r = length a /\ drop n r = drop n a /\ Permutation r (wr a i tmp)).
  { intros ? [= <-]. rewrite length_wr. split; [done|]. split; [|done].
    unfold wr. apply drop_insert_lt. lia. }
  destruct (j <=? n) eqn:Hjn; [|by apply Hend].
  apply Nat.leb_le in Hjn.
  pose proof (larger_child a j n Hjn) as Hc. cbn zeta in Hc.
  set (j1 := if (j <? n) && vless less v (rd a j) (rd a (j + 1))
             then j + 1 else j) in *.
  destruct Hc as (Hj1 & Hj1n & _ & _).
  destruct (vless less v tmp (rd a j1)); [|by apply Hend].
  apply IH in Hs as (Hlen & Hdrop & Hperm); [|lia|lia|lia|by rewrite length_wr].
  rewrite length_wr in Hlen. split; [done|]. split.
  - rewrite Hdrop. unfold wr. apply drop_insert_lt. lia.
  - rewrite Hperm. unfold wr.
    rewrite <- (list_insert_insert_eq a (i - 1) (rd a j1) tmp).
    apply Permutation_insert_swap.
    + apply list_lookup_insert_eq. lia.
    + rewrite list_lookup_insert_ne by lia. apply rd_lookup; lia.
Qed.

Lemma shiftl_1 l : Nat.shiftl l 1 = l + l.
Proof. rewrite Nat.shiftl_mul_pow2. cbn. lia. Qed.

Lemma shiftr_1 n : Nat.shiftr n 1 = n / 2.
Proof. rewrite Nat.shiftr_div_pow2. done. Qed.

(** The first loop turns [a[1..n]] into a heap. *)
Lemma build_heap_spec fuel n : forall l a r,
  build_heap less v fuel l a n = Some r ->
  l <= n -> n <= length a ->
  heap_from less v a (l + 1) n ->
  heap_from less v r 1 n /\ length r = length a /\
  drop n r = drop n a /\ Permutation r a.
Proof.
  induction l as [|l IH]; intros a r Hb Hl Hn Hheap.
  - injection Hb as <-. cbn in Hheap. done.
  - cbn [build_heap] in Hb. rewrite shiftl_1 in Hb.
    destruct (sift less v fuel a (rd a (S l)) (S l) (S l + S l) n) as [a'|] eqn:Hs;
      [|done].
    cbn in Hb.
    pose proof (sift_frame _ _ _ _ _ _ _ Hs) as (Hlen & Hdrop & Hperm); [lia..|].
    rewrite wr_rd_id in Hperm.
    apply (sift_heap _ _ _ _ _ _ (S l)) in Hs; [|lia|lia|lia|lia|].
    + apply IH in Hb as (? & ? & ? & ?); [|lia|lia|].
      * split; [done|]. split; [congruence|]. split; [congruence|by etrans].
      * by replace (l + 1) with (S l) by lia.
    + split.
      * intros p Hp Hne. apply Hheap. lia.
      * intros q Hq Hqi. lia.
Qed.

(** The root of a heap is a maximum. *)
Lemma heap_root_max a n :
  heap_from less v a 1 n -> forall k, 1 <= k -> k <= n -> rd a k ⊑ rd a 1.
Proof.
  intros Hheap k. induction (lt_wf k) as [k _ IH]. intros Hk Hkn.
  destruct (decide (k = 1)) as [->|]; [apply vle_refl|].
  assert (1 <= k / 2 /\ k / 2 < k /\ (k = k / 2 + k / 2 \/ k = k / 2 + k / 2 + 1))
    as (Hp1 & Hp2 & Hp3).
  { pose proof (Nat.div_mod_eq k 2). pose proof (Nat.mod_upper_bound k 2). lia. }
  apply vle_trans with (rd a (k / 2)); [|apply IH; lia].
  destruct (Hheap (k / 2) Hp1) as [Ha Hb].
  destruct Hp3 as [Hp3|Hp3]; rewrite Hp3 at 1; [apply Ha|apply Hb]; lia.
Qed.

Lemma rd_drop_eq a r n p :
  drop n r = drop n a -> n < p -> rd r p = rd a p.
Proof.
  intros Hd Hp. unfold rd.
  replace (p - 1) with (n + (p - 1 - n)) by lia.
  by rewrite <- !lookup_drop, Hd.
Qed.

Lemma rd_elem_of_take a n x :
  x ∈ take n a -> exists k, 1 <= k /\ k <= n /\ k <= length a /\ x = rd a k.
Proof.
  intros [i Hi]%list_elem_of_lookup.
  apply lookup_take_Some in Hi as [Hi Hin].
  exists (S i). pose proof (lookup_lt_Some _ _ _ Hi).
  repeat split; [lia..|]. unfold rd. cbn. rewrite Nat.sub_0_r. by rewrite Hi.
Qed.

(** The second loop sorts, given a heap below [n] and a sorted tail above
    that bounds it. *)
Lemma sort_heap_spec fuel : forall n a r,
  sort_heap less v fuel n a = Some r ->
  n <= length a ->
  heap_from less v a 1 n ->
  sorted_above less v a n ->
  (forall k m, 1 <= k -> k <= m -> m <= length r -> rd r k ⊑ rd r m) /\
  length r = length a /\ Permutation r a.
Proof.
  induction n as [|n IH]; intros a r Hs Hn Hheap [Hlow Hup].
  { injection Hs as <-. repeat split; [|done..]. intros k m ???. apply Hup; lia. }
  destruct n as [|n'].
  { injection Hs as <-. repeat split; [|done..]. intros k m Hk Hkm Hm.
    destruct (decide (k = 1)) as [->|]; [|apply Hup; lia].
    destruct (decide (m = 1)) as [->|]; [apply vle_refl|].
    rewrite Forall_forall in Hlow. apply Hlow; [|lia..].
    apply list_elem_of_lookup. exists 0. rewrite lookup_take_lt by lia.
    apply (rd_lookup a 1); lia. }
  cbn [sort_heap] in Hs. remember (S (S n')) as n eqn:En.
  destruct (sift less v fuel (wr a n (rd a 1)) (rd a n) 1 2 (S n')) as [a2|] eqn:Hsift;
    [|done].
  cbn in Hs.
  pose proof (sift_frame _ _ _ _ _ _ _ Hsift) as (Hlen & Hdrop & Hperm);
    [lia|lia|lia|rewrite length_wr; lia|].
  rewrite length_wr in Hlen.
  assert (Hswap : Permutation (wr (wr a n (rd a 1)) 1 (rd a n)) a).
  { unfold wr. apply Permutation_insert_swap; apply rd_lookup; lia. }
  assert (Hmax : forall x, x ∈ take n a -> x ⊑ rd a 1).
  { intros x (k & ? & ? & ? & ->)%rd_elem_of_take. by apply heap_root_max with n. }
  assert (Hrd2 : forall m, n <= m ->
    rd a2 m = if decide (m = n) then rd a 1 else rd a m).
  { intros m Hm. rewrite (rd_drop_eq _ _ _ _ Hdrop) by lia.
    case_decide as Hmn; [subst m; by rewrite rd_wr_eq by lia|].
    rewrite rd_wr_ne by lia. done. }
  rewrite Forall_forall in Hlow.
  apply IH in Hs as (Hsorted & Hlen' & Hperm').
  - split; [done|]. split; [congruence|]. by rewrite Hperm', Hperm.
  - lia.
  - change 2 with (1 + 1) in Hsift. apply (sift_heap _ _ _ _ _ _ 1) in Hsift;
      [done|lia|lia|lia|rewrite length_wr; lia|].
    split.
    + intros p Hp Hne. destruct (Hheap p Hp) as [Ha Hb].
      split; intros; rewrite !rd_wr_ne by lia; [apply Ha|apply Hb]; lia.
    + intros q Hq Hqi. lia.
  - split.
    + assert (Htake : Permutation (take (S n') a2)
                (take (S n') (wr (wr a n (rd a 1)) 1 (rd a n)))).
      { apply (Permutation_app_inv_r (drop (S n') a2)).
        rewrite take_drop. rewrite Hdrop.
        replace (drop (S n') (wr a n (rd a 1)))
          with (drop (S n') (wr (wr a n (rd a 1)) 1 (rd a n))).
        - by rewrite take_drop.
        - unfold wr at 1. apply drop_insert_lt. lia. }
      rewrite Htake. unfold wr.
      rewrite take_insert_lt by lia. rewrite take_insert_ge by lia.
      assert (Hall : forall x, x ∈ take n a ->
        forall m, S n' < m -> m <= length a2 -> x ⊑ rd a2 m).
      { intros x Hx m Hm Hml. rewrite Hrd2 by lia. case_decide.
        - by apply Hmax.
        - apply Hlow; [done|lia|lia]. }
      apply Forall_insert.
      * apply Forall_forall. intros x Hx. apply Hall.
        apply list_elem_of_lookup in Hx as [i Hi].
        apply lookup_take_Some in Hi as [Hi ?].
        apply list_elem_of_lookup. exists i. rewrite lookup_take_lt by lia. done.
      * apply Hall. apply list_elem_of_lookup. exists (n - 1).
        rewrite lookup_take_lt by lia. apply rd_lookup; lia.
    + intros k m Hk Hkm Hm. rewrite !Hrd2 by lia.
      repeat case_decide; subst.
      * apply vle_refl.
      * apply Hlow; [|lia..]. apply list_elem_of_lookup. exists 0.
        rewrite lookup_take_lt by lia. apply (rd_lookup a 1); lia.
      * lia.
      * apply Hup; lia.
Qed.

Lemma div2_bounds n : n / 2 + n / 2 <= n /\ n < n / 2 + 1 + (n / 2 + 1).
Proof.
  pose proof (Nat.div_mod_eq n 2). pose proof (Nat.mod_upper_bound n 2). lia.
Qed.

(** [aheapsort_] sorts the index array it is given and permutes it. *)
Lemma aheapsort_spec tosort r :
  aheapsort_ less v tosort (length tosort) = Some r ->
  (forall k m, 1 <= k -> k <= m -> m <= length r -> rd r k ⊑ rd r m) /\
  Permutation r tosort.
Proof.
  unfold aheapsort_. set (n := length tosort). rewrite shiftr_1.
  destruct (build_heap less v n (n / 2) tosort n) as [a|] eqn:Hb; [|done].
  cbn. intros Hs.
  destruct (div2_bounds n) as [Hd1 Hd2].
  apply build_heap_spec in Hb as (Hheap & Hlen & _ & Hperm); [|lia|done|].
  - apply sort_heap_spec in Hs as (Hsorted & _ & Hperm'); [| |done|].
    + split; [done|by etrans].
    + lia.
    + split.
      * apply Forall_forall. intros x _ m ??. lia.
      * intros k m ???. lia.
  - intros p Hp. split; intros; lia.
Qed.

End heapsort_correct.

Section heapsort_total.
Import npysort.
Context {type : Type} `{!Inhabited type}.
Context (less : type -> type -> bool) (v : list type).

(** A sift loop finishes: [j] at least doubles in every round. *)
Lemma sift_returns fuel : forall a tmp i j n,
  1 <= j -> n + 1 - j < fuel -> is_Some (sift less v fuel a tmp i j n).
Proof.
  induction fuel as [|fuel IH]; intros a tmp i j n Hj Hf; [lia|].
  cbn [sift]. destruct (j <=? n) eqn:Hjn; [|done].
  apply Nat.leb_le in Hjn.
  destruct ((j <? n) && vless less v (rd a j) (rd a (j + 1)));
    (destruct (vless less v tmp _); [|done]); apply IH; lia.
Qed.

Lemma build_heap_returns fuel n : forall l a,
  l + l <= n -> n <= fuel -> is_Some (build_heap less v fuel l a n).
Proof.
  induction l as [|l IH]; intros a Hl Hn; [done|].
  cbn [build_heap].
  destruct (sift_returns fuel a (rd a (S l)) (S l) (Nat.shiftl (S l) 1) n)
    as [a' ->].
  - rewrite Nat.shiftl_mul_pow2. cbn. lia.
  - rewrite Nat.shiftl_mul_pow2. cbn. lia.
  - cbn. apply IH; lia.
Qed.

Lemma sort_heap_returns fuel : forall n a,
  n <= fuel -> is_Some (sort_heap less v fuel n a).
Proof.
  induction n as [|n IH]; intros a Hn; [done|].
  destruct n as [|n']; [done|]. cbn [sort_heap].
  destruct (sift_returns fuel (wr a (S (S n')) (rd a 1)) (rd a (S (S n'))) 1 2 (S n'))
    as [a' ->]; [lia|lia|].
  cbn. apply IH. lia.
Qed.

Lemma aheapsort_returns tosort n : is_Some (aheapsort_ less v tosort n).
Proof.
  unfold aheapsort_.
  destruct (build_heap_returns n n (Nat.shiftr n 1) tosort) as [a ->].
  - rewrite Nat.shiftr_div_pow2. change (2 ^ 1) with 2.
    pose proof (Nat.div_mod_eq n 2). pose proof (Nat.mod_upper_bound n 2). lia.
  - done.
  - cbn. by apply sort_heap_returns.
Qed.
End heapsort_total.

(** * The sort step *)

Lemma StronglySorted_lookup_2 {A} (R : relation A) (l : list A) :
  (forall i j x y, i < j -> l !! i = Some x -> l !! j = Some y -> R x y) ->
  StronglySorted R l.
Proof.
  induction l as [|x l IH]; intros H; constructor.
  - apply IH. intros i j y z Hij Hi Hj. by apply (H (S i) (S j)); [lia|..].
  - apply Forall_forall. intros y [j Hj]%list_elem_of_lookup.
    by apply (H 0 (S j)); [lia|..].
Qed.

Lemma StronglySorted_lookup_1 {A} (R : relation A) (l : list A) i j x y :
  StronglySorted R l -> i < j -> l !! i = Some x -> l !! j = Some y -> R x y.
Proof.
  intros Hs. revert i j. induction Hs as [|z l Hs IH Hall]; intros i j Hij Hi Hj; [done|].
  destruct j as [|j]; [lia|]. destruct i as [|i]; simplify_eq/=.
  - rewrite Forall_forall in Hall. apply Hall. by eapply list_elem_of_lookup_2.
  - apply (IH i j); [lia|done..].
Qed.

Section argsort_facts.
Context {type : Type} `{!Inhabited type}.
Context (less : type -> type -> bool).

(** NumPy's heapsort argsort always returns. *)
Lemma argsort_returns (v : list type) : exists order, argsort less v = Return order.
Proof.
  unfold argsort.
  destruct (aheapsort_returns less v (np.arange (length v)) (length v)) as [r ->].
  by exists r.
Qed.

Context `{!StrictWeak less}.

Lemma argsort_Permutation (v : list type) order :
  argsort less v = Return order -> Permutation order (seq 0 (length v)).
Proof.
  unfold argsort. intros Ha.
  destruct (npysort.aheapsort_ less v _ _) as [r|] eqn:E; [|done].
  injection Ha as <-.
  pose proof (aheapsort_spec less v (np.arange (length v)) r) as Hspec.
  unfold np.arange in *. rewrite length_seq in Hspec.
  by destruct (Hspec E).
Qed.

(** Along the returned order the keys never decrease. *)
Lemma argsort_ascending (v : list type) order :
  argsort less v = Return order -> ascending less v order.
Proof.
  unfold argsort. intros Ha.
  destruct (npysort.aheapsort_ less v _ _) as [r|] eqn:E; [|done].
  injection Ha as <-.
  pose proof (aheapsort_spec less v (np.arange (length v)) r) as Hspec.
  unfold np.arange in *. rewrite length_seq in Hspec.
  destruct (Hspec E) as [Hsorted _].
  apply StronglySorted_lookup_2. intros i j x y Hij Hi Hj.
  pose proof (lookup_lt_Some _ _ _ Hj).
  specialize (Hsorted (S i) (S j) ltac:(lia) ltac:(lia) ltac:(lia)).
  unfold npysort.rd in Hsorted. cbn in Hsorted.
  rewrite !Nat.sub_0_r, Hi, Hj in Hsorted. exact Hsorted.
Qed.
End argsort_facts.

Lemma Qltb_true (x y : Q) : Qltb x y = true <-> (x < y)%Q.
Proof.
  unfold Qltb. rewrite negb_true_iff, <- not_true_iff_false, Qle_bool_iff.
  split; [apply Qnot_le_lt|apply Qlt_not_le].
Qed.

Lemma Qltb_false (x y : Q) : Qltb x y = false <-> (y <= x)%Q.
Proof. unfold Qltb. by rewrite negb_false_iff, Qle_bool_iff. Qed.

Lemma StronglySorted_reverse {A} (R : relation A) (l : list A) :
  StronglySorted R l -> StronglySorted (flip R) (reverse l).
Proof.
  induction 1 as [|x l Hs IH Hall]; [constructor|].
  rewrite reverse_cons. apply StronglySorted_app_2; [|done|repeat constructor].
  intros y z Hy ->%list_elem_of_singleton. rewrite Forall_forall in Hall.
  apply Hall. by apply elem_of_reverse.
Qed.

Lemma StronglySorted_weaken {A} (R R' : relation A) (l : list A) :
  (forall x y, R x y -> R' x y) -> StronglySorted R l -> StronglySorted R' l.
Proof.
  intros HR. induction 1 as [|x l Hs IH Hall]; constructor; [done|].
  eapply Forall_impl; [exact Hall|]. auto.
Qed.

(** The stable argsort of the specification. *)
Section stable_argsort.
Variable key : nat -> Q.

Lemma insert_stable_Permutation i order :
  Permutation (insert_stable key i order) (i :: order).
Proof.
  induction order as [|j order IH]; [done|]. cbn [insert_stable].
  destruct (Qltb (key i) (key j)); [done|].
  by rewrite IH, Permutation_swap.
Qed.

Lemma insert_stable_sorted i order :
  StronglySorted (stable_le key) order ->
  Forall (fun j => j < i) order ->
  StronglySorted (stable_le key) (insert_stable key i order).
Proof.
  induction 1 as [|j order Hs IH Hall]; intros Hlt.
  { repeat constructor. }
  apply Forall_cons in Hlt as [Hji Hlt]. cbn [insert_stable].
  destruct (Qltb (key i) (key j)) eqn:E.
  - constructor; [by constructor|].
    apply Qltb_true in E. constructor.
    + split; [apply Qltb_false; Lqa.lra|]. rewrite Qltb_false. Lqa.lra.
    + eapply Forall_impl; [exact Hall|]. intros y [Hy _].
      apply Qltb_false in Hy.
      split; [apply Qltb_false; Lqa.lra|]. rewrite Qltb_false. Lqa.lra.
  - constructor; [by apply IH|].
    rewrite insert_stable_Permutation. constructor; [|done].
    split; [done|]. intros _. lia.
Qed.
End stable_argsort.

Lemma stable_argsort_spec (v : list Q) :
  Permutation (stable_argsort v) (seq 0 (length v)) /\
  StronglySorted (stable_le (fun k => v !!! k)) (stable_argsort v).
Proof.
  unfold stable_argsort. generalize (length v) as n.
  induction n as [|n [IHp IHs]]; [split; [done|constructor]|].
  rewrite seq_S, fold_left_app. cbn [fold_left]. split.
  - by rewrite insert_stable_Permutation, IHp, Permutation_cons_append.
  - apply insert_stable_sorted; [done|]. rewrite IHp.
    apply Forall_forall. intros j Hj%elem_of_seq. lia.
Qed.

(** The stable argsort is ascending, and among equal keys it keeps the
    original order of the rows. *)
Lemma stable_argsort_stable (v : list Q) i j x y :
  i < j -> stable_argsort v !! i = Some x -> stable_argsort v !! j = Some y ->
  (v !!! x <= v !!! y)%Q /\ ((v !!! x == v !!! y)%Q -> x < y).
Proof.
  intros Hij Hi Hj. destruct (stable_argsort_spec v) as [Hp Hs].
  destruct (StronglySorted_lookup_1 _ _ _ _ _ _ Hs Hij Hi Hj) as [H1 H2].
  apply Qltb_false in H1. split; [done|]. intros Heq.
  assert (x <> y).
  { intros ->. assert (NoDup (stable_argsort v)) as Hnd.
    { rewrite Hp. apply NoDup_seq. }
    pose proof (NoDup_lookup _ _ _ _ Hnd Hi Hj). lia. }
  assert (x <= y); [|lia]. apply H2, Qltb_false. Lqa.lra.
Qed.

Lemma sort_order_returns (magnitude : list Q) :
  exists id0, sort_order magnitude = Return id0.
Proof.
  unfold sort_order. destruct (argsort_returns float_less magnitude) as [r ->].
  by eexists.
Qed.

Lemma sort_order_spec (magnitude : list Q) (id0 : list nat) :
  sort_order magnitude = Return id0 ->
  Permutation id0 (seq 0 (length magnitude)) /\
  descending float_less magnitude id0.
Proof.
  unfold sort_order. destruct (argsort float_less magnitude) as [r|] eqn:E; [|done].
  intros [= <-]. unfold np.flipud. split.
  - rewrite reverse_Permutation. by apply (argsort_Permutation float_less).
  - apply (argsort_ascending float_less), StronglySorted_reverse in E. exact E.
Qed.

Lemma spec_sort_order_spec (magnitude : list Q) :
  Permutation (spec_sort_order magnitude) (seq 0 (length magnitude)) /\
  descending float_less magnitude (spec_sort_order magnitude).
Proof.
  destruct (stable_argsort_spec magnitude) as [Hp Hs]. unfold spec_sort_order. split.
  - by rewrite reverse_Permutation.
  - apply (StronglySorted_reverse
             (fun x y => float_less (magnitude !!! y) (magnitude !!! x) = false)).
    eapply StronglySorted_weaken; [|exact Hs]. by intros x y [? _].
Qed.

(** With pairwise distinct keys, a descending order of the rows is unique. *)
Lemma descending_unique (magnitude : list Q) (l1 l2 : list nat) :
  distinct_magnitudes magnitude ->
  Permutation l1 (seq 0 (length magnitude)) ->
  Permutation l2 (seq 0 (length magnitude)) ->
  descending float_less magnitude l1 ->
  descending float_less magnitude l2 ->
  l1 = l2.
Proof.
  intros Hd Hp1 Hp2 Hs1 Hs2.
  eapply StronglySorted_unique_strong; [|exact Hs1|exact Hs2|by rewrite Hp1, Hp2].
  intros x1 x2 Hx1 Hx2 H12 H21.
  rewrite Hp1 in Hx1. rewrite Hp2 in Hx2.
  apply elem_of_seq in Hx1, Hx2.
  apply Qltb_false in H12, H21.
  apply (Hd x1 x2 (magnitude !!! x1) (magnitude !!! x2)).
  - apply list_lookup_lookup_total_lt. lia.
  - apply list_lookup_lookup_total_lt. lia.
  - Lqa.lra.
Qed.

(** C1, amended.  For every magnitude array the sort step returns the
    reverse of NumPy's heapsort argsort: an order that lists every row once
    and along which the magnitudes never increase; when the magnitudes are
    pairwise distinct the order is the reverse of the stable ascending
    argsort.  Heapsort is not stable, and nothing is said of the order among
    equal magnitudes. *)
Theorem sort_order_descending :
  forall magnitude : list Q,
    exists id0,
      sort_order magnitude = Return id0 /\
      Permutation id0 (seq 0 (length magnitude)) /\
      descending float_less magnitude id0 /\
      (distinct_magnitudes magnitude -> id0 = spec_sort_order magnitude).
Proof.
  intros magnitude. destruct (sort_order_returns magnitude) as [id0 Hid0].
  exists id0. destruct (sort_order_spec _ _ Hid0) as [Hp Hs].
  destruct (spec_sort_order_spec magnitude) as [Hp' Hs'].
  repeat split; [done..|]. intros Hd. by eapply descending_unique.
Qed.

(** C1 fails as stated: two events of equal magnitude are visited in
    ascending row order, where the reverse of a stable ascending argsort
    visits them in descending row order. *)
Lemma sort_order_ties_counterexample :
  sort_order [5; 5]%Q = Return [0; 1] /\
  spec_sort_order [5; 5]%Q = [1; 0] /\
  sort_order [5; 5]%Q <> Return (spec_sort_order [5; 5]%Q).
Proof. vm_compute. repeat split; congruence. Qed.

(** * The engine, position by position *)

Lemma bind_Return {A B} (m : outcome A) (f : A -> outcome B) (b : B) :
  m ≫= f = Return b -> exists a, m = Return a /\ f a = Return b.
Proof. destruct m as [a|e]; [|done]. intros. by exists a. Qed.

Lemma fmap_Return {A B} (m : outcome A) (f : A -> B) (b : B) :
  f <$> m = Return b -> exists a, m = Return a /\ b = f a.
Proof. destruct m as [a|e]; [|done]. intros [= <-]. by exists a. Qed.

Lemma or_raise_Return {A} e (o : option A) a : or_raise e o = Return a -> o = Some a.
Proof. destruct o; [|done]. by intros [= ->]. Qed.

Section mask_lemmas.
Context {A B : Type}.

(** Placing [f] of the masked elements over [g] of all elements is a
    pointwise choice between [f] and [g]. *)
Lemma place_compress_map (p : A -> bool) (f g : A -> B) (xs : list A) :
  np.place (map g xs) (map p xs) (map f (np.compress (map p xs) xs))
  = map (fun x => if p x then f x else g x) xs.
Proof.
  induction xs as [|x xs IH]; [reflexivity|].
  cbn [map np.place np.compress].
  destruct (p x); cbn [map]; by rewrite IH.
Qed.

Lemma length_place (a : list A) mask vals :
  length (np.place a mask vals) = length a.
Proof.
  revert mask vals; induction a as [|y a IH]; intros [|m mask] vals; try reflexivity.
  cbn [np.place]. destruct m; [destruct vals|]; cbn [length]; by rewrite IH.
Qed.
End mask_lemmas.

Section masks.
Context {A : Type}.
Implicit Types (a : list A) (mask : list bool).

Lemma set_mask_lookup a mask x p :
  np.set_mask a mask x !! p = (fun y => if mask_at mask p then x else y) <$> a !! p.
Proof.
  unfold mask_at. revert mask p.
  induction a as [|y a IH]; intros [|m mask] [|p]; cbn; try done;
    try (by destruct (a !! p)); apply IH.
Qed.

Lemma length_set_mask a mask x : length (np.set_mask a mask x) = length a.
Proof.
  revert mask. induction a as [|y a IH]; intros [|m mask]; cbn; [done..|].
  by rewrite IH.
Qed.

End masks.

Lemma mask_at_logical_and (a b : list bool) p :
  mask_at (np.logical_and a b) p = mask_at a p && mask_at b p.
Proof.
  unfold mask_at, np.logical_and. rewrite lookup_zip_with.
  destruct (a !! p) as [[]|], (b !! p) as [[]|]; done.
Qed.

Lemma mask_at_map {A} (f : A -> bool) (l : list A) p :
  mask_at (map f l) p = true <-> exists x, l !! p = Some x /\ f x = true.
Proof.
  unfold mask_at. change (map f l) with (f <$> l). rewrite list_lookup_fmap.
  destruct (l !! p) as [x|]; cbn.
  - split; [by exists x|]. by intros (? & [= <-] & ?).
  - split; [done|]. by intros (? & ? & ?).
Qed.

Lemma mask_at_insert_false (mask : list bool) i p :
  mask_at (<[i := false]> mask) p = true <-> p <> i /\ mask_at mask p = true.
Proof.
  unfold mask_at. destruct (decide (p = i)) as [->|].
  - destruct (decide (i < length mask)).
    + rewrite list_lookup_insert_eq by done. cbn. split; [done|]. by intros [].
    + rewrite list_insert_ge by lia. rewrite lookup_ge_None_2 by lia. cbn.
      split; [done|]. by intros [].
  - rewrite list_lookup_insert_ne by done. split; [done|]. by intros [].
Qed.

(** [place] of a mask onto itself only clears entries. *)
Lemma mask_at_place_self (mask vals : list bool) p :
  mask_at (np.place mask mask vals) p = true -> mask_at mask p = true.
Proof.
  unfold mask_at. revert vals p.
  induction mask as [|m mask IH]; intros vals p; [done|].
  cbn [np.place]. destruct m.
  - destruct vals as [|b vals]; destruct p as [|p]; cbn; try done; apply IH.
  - destruct p as [|p]; cbn; [done|apply IH].
Qed.

Lemma place_self_zip_with {X Y Z'} (g : X -> Y -> Z') (k : Z' -> bool)
    (mask : list bool) xs ys :
  length xs = length mask -> length ys = length mask ->
  np.place mask mask
    (map k (zip_with g (np.compress mask xs) (np.compress mask ys)))
  = zip_with andb mask (zip_with (fun x y => k (g x y)) xs ys).
Proof.
  revert xs ys. induction mask as [|m mask IH]; intros [|x xs] [|y ys] Hx Hy;
    simplify_eq/=; [done|].
  destruct m; cbn; by rewrite IH.
Qed.

Section body.
Variable haversine : Q -> Q -> Q -> Q -> Q.
Variables (longitude latitude sw_space sw_time : list Q).
Variable year_dec : year_array.
Variable fs_time_prop : Q.

#[local] Abbreviation sel := (select haversine longitude latitude fs_time_prop).
#[local] Abbreviation body :=
  (gk_body haversine longitude latitude sw_space sw_time year_dec fs_time_prop).
#[local] Abbreviation loop :=
  (gk_loop haversine longitude latitude sw_space sw_time year_dec fs_time_prop).

(** Whatever is selected was unclustered and lies in the time window. *)
Lemma select_sound cids dt lon_i lat_i space_i time_i p :
  mask_at (sel cids dt lon_i lat_i space_i time_i) p = true ->
  cids !! p = Some 0%Z /\
  exists d, dt !! p = Some d /\
    Qle_bool (- time_i * fs_time_prop) d = true /\ Qle_bool d time_i = true.
Proof.
  unfold select. intros H%mask_at_place_self.
  rewrite !mask_at_logical_and in H.
  apply andb_true_iff in H as [Hc H]. apply andb_true_iff in H as [Hlo Hhi].
  apply mask_at_map in Hc as (c & Hc & ->%Z.eqb_eq).
  apply mask_at_map in Hlo as (d & Hd & Hlo).
  apply mask_at_map in Hhi as (d' & Hd' & Hhi). simplify_eq.
  split; [done|]. by exists d.
Qed.

(** With arrays of one length, the selection is a pointwise test. *)
Lemma select_spec cids dt lon_i lat_i space_i time_i p c d lo la :
  length longitude = length cids -> length latitude = length cids ->
  length dt = length cids ->
  cids !! p = Some c -> dt !! p = Some d ->
  longitude !! p = Some lo -> latitude !! p = Some la ->
  mask_at (sel cids dt lon_i lat_i space_i time_i) p
  = (c =? 0)%Z && (Qle_bool (- time_i * fs_time_prop) d && Qle_bool d time_i)
    && Qle_bool (haversine lo la lon_i lat_i) space_i.
Proof.
  intros Hlo Hla Hdt Hc Hd Hlon Hlat. unfold select, haversine_array.
  rewrite place_self_zip_with.
  - unfold mask_at, np.logical_and. rewrite !lookup_zip_with.
    change (map ?f ?l) with (f <$> l). rewrite !list_lookup_fmap.
    rewrite Hc, Hd, Hlon, Hlat. done.
  - unfold np.logical_and. rewrite !length_zip_with, !length_map. lia.
  - unfold np.logical_and. rewrite !length_zip_with, !length_map. lia.
Qed.

(** One iteration either changes nothing or forms a cluster around [i]. *)
Lemma gk_body_inv i st st' :
  body i st = Return st' ->
  st' = st \/
  exists year_i time_i lon_i lat_i space_i,
    cluster_ids st !! i = Some 0%Z /\
    ya_getitem year_dec i = Return year_i /\
    sw_time !! i = Some time_i /\
    longitude !! i = Some lon_i /\ latitude !! i = Some lat_i /\
    sw_space !! i = Some space_i /\
    let dt := time_offsets year_dec year_i in
    let vsel := sel (cluster_ids st) dt lon_i lat_i space_i time_i in
    let temp_vsel :=
      np.set_mask (<[i := false]> vsel) (map (fun d => Qle_bool 0 d) dt) false in
    np.any (<[i := false]> vsel) = true /\
    st' = {| cluster_ids := np.set_mask (cluster_ids st) vsel (clust_index st + 1)%Z;
             shock_types :=
               <[i := 0%Z]>
                 (np.set_mask (np.set_mask (shock_types st) vsel 1%Z) temp_vsel (-1)%Z);
             clust_index := (clust_index st + 1)%Z |}.
Proof.
  unfold gk_body. intros H.
  apply bind_Return in H as (c_i & Hc & H). apply or_raise_Return in Hc.
  destruct (c_i =? 0)%Z eqn:Hz; [|left; by injection H].
  apply Z.eqb_eq in Hz. subst c_i.
  apply bind_Return in H as (year_i & Hy & H).
  apply bind_Return in H as (time_i & Ht%or_raise_Return & H).
  apply bind_Return in H as (lon_i & Hlo%or_raise_Return & H).
  apply bind_Return in H as (lat_i & Hla%or_raise_Return & H).
  apply bind_Return in H as (space_i & Hsp%or_raise_Return & H).
  match type of H with (if ?b then _ else _) = _ => destruct b eqn:Hany end;
    [|left; by injection H].
  right. exists year_i, time_i, lon_i, lat_i, space_i.
  repeat (split; [done|]). by injection H as <-.
Qed.
End body.

Section new_state.
Implicit Types (S : list Z) (vsel temp : list bool).

Lemma shock_types_lookup S vsel temp i p :
  <[i := 0%Z]> (np.set_mask (np.set_mask S vsel 1%Z) temp (-1)%Z) !! p
  = (fun s => if decide (p = i) then 0%Z
              else if mask_at temp p then (-1)%Z
              else if mask_at vsel p then 1%Z else s) <$> S !! p.
Proof.
  destruct (decide (p = i)) as [->|Hne].
  - destruct (S !! i) as [s|] eqn:E; cbn.
    + apply list_lookup_insert_eq. rewrite !length_set_mask.
      by eapply lookup_lt_Some.
    + apply lookup_ge_None in E. apply lookup_ge_None.
      by rewrite length_insert, !length_set_mask.
  - rewrite list_lookup_insert_ne by done. rewrite !set_mask_lookup.
    by destruct (S !! p).
Qed.

Lemma temp_vsel_spec vsel (dtmask : list bool) i p :
  mask_at (np.set_mask (<[i := false]> vsel) dtmask false) p = true <->
  p <> i /\ mask_at vsel p = true /\ mask_at dtmask p = false.
Proof.
  pose proof (mask_at_insert_false vsel i p) as Hins.
  unfold mask_at at 1. rewrite set_mask_lookup.
  unfold mask_at at 1 in Hins.
  destruct (<[i:=false]> vsel !! p) as [b|]; cbn in *.
  - split.
    + intros H. destruct (mask_at dtmask p); [done|].
      apply Hins in H as [? ?]. done.
    + intros (H1 & H2 & ->). by apply Hins.
  - split; [done|]. intros (H1 & H2 & _). by apply Hins.
Qed.
End new_state.

(** ** Fancy indexing and the restoring sort *)

Lemma take_Return {A} (a : list A) (idx : list nat) (r : list A) :
  np.take a idx = Return r ->
  length r = length idx /\
  forall k i, idx !! k = Some i -> r !! k = a !! i /\ is_Some (a !! i).
Proof.
  intros H%or_raise_Return%mapM_Some. split.
  - symmetry. by eapply Forall2_length.
  - intros k i Hk. destruct (Forall2_lookup_l _ _ _ _ _ H Hk) as (x & -> & ->). eauto.
Qed.

Lemma take_arange (n : nat) (idx r : list nat) :
  np.take (np.arange n) idx = Return r -> r = idx.
Proof.
  intros H%or_raise_Return%mapM_Some. symmetry. apply list_eq_Forall2.
  eapply Forall2_impl; [exact H|]. cbn. unfold np.arange.
  intros i x Hx%lookup_seq. lia.
Qed.

Lemma fmap_lookup_total_seq (l : list nat) : (fun x => l !!! x) <$> seq 0 (length l) = l.
Proof.
  apply list_eq. intros i. rewrite list_lookup_fmap.
  destruct (decide (i < length l)) as [Hi|Hi].
  - rewrite lookup_seq_lt by done. cbn.
    by rewrite list_lookup_lookup_total_lt.
  - rewrite lookup_seq_ge, lookup_ge_None_2 by lia. done.
Qed.

Lemma StronglySorted_seq n : StronglySorted le (seq 0 n).
Proof.
  apply StronglySorted_lookup_2. intros i j x y Hij Hi%lookup_seq Hj%lookup_seq. lia.
Qed.

(** Sorting the row numbers of the visiting order recovers, for every row,
    the position at which it was visited. *)
Lemma restore_order (id0 id1 : list nat) :
  Permutation id0 (seq 0 (length id0)) ->
  argsort intp_less id0 = Return id1 ->
  Permutation id1 (seq 0 (length id0)) /\
  forall p e, id0 !! p = Some e -> id1 !! e = Some p.
Proof.
  intros Hp0 Ha. pose proof (argsort_Permutation _ _ _ Ha) as Hp1.
  split; [done|].
  pose proof (argsort_ascending _ _ _ Ha) as Hs. unfold ascending in Hs.
  assert (Hm : (fun x => id0 !!! x) <$> id1 = seq 0 (length id0)).
  { apply (StronglySorted_unique le).
    - eapply StronglySorted_fmap; [|exact Hs]. cbn. intros x y Hxy.
      apply Nat.ltb_ge in Hxy. exact Hxy.
    - apply StronglySorted_seq.
    - rewrite Hp1. rewrite fmap_lookup_total_seq. done. }
  intros p e Hpe.
  assert (e < length id0) as He.
  { apply list_elem_of_lookup_2 in Hpe. rewrite Hp0 in Hpe.
    apply elem_of_seq in Hpe. lia. }
  assert (length id1 = length id0) as Hlen.
  { apply Permutation_length in Hp1. by rewrite length_seq in Hp1. }
  destruct (lookup_lt_is_Some_2 id1 e) as [p' Hp']; [lia|].
  assert (id0 !!! p' = e) as Hp'e.
  { apply (f_equal (fun l => l !! e)) in Hm.
    rewrite list_lookup_fmap, Hp', lookup_seq_lt in Hm by done.
    cbn in Hm. by injection Hm. }
  assert (p' < length id0) as Hp'lt.
  { apply list_elem_of_lookup_2 in Hp'. rewrite Hp1 in Hp'.
    apply elem_of_seq in Hp'. lia. }
  assert (id0 !! p' = Some e) as Hp'0.
  { rewrite <- Hp'e. by apply list_lookup_lookup_total_lt. }
  assert (NoDup id0) as Hnd by (rewrite Hp0; apply NoDup_seq).
  by rewrite (NoDup_lookup _ _ _ _ Hnd Hpe Hp'0).
Qed.

(** ** The run of [decluster], step by step *)

Section decluster_run.
Variable haversine : Q -> Q -> Q -> Q -> Q.
Variable decimal_year : Z -> Z -> Z -> Q.

Lemma decluster_run catalogue config ids types :
  decluster haversine decimal_year catalogue config = Return (ids, types) ->
  exists year_dec0 id0 lon lat sws swt year_dec st,
    year_dec_of decimal_year catalogue = Return year_dec0 /\
    sort_order (magnitude catalogue) = Return id0 /\
    np.take (longitude catalogue) id0 = Return lon /\
    np.take (latitude catalogue) id0 = Return lat /\
    np.take (calc (time_distance_window config) (magnitude catalogue)
               (time_cutoff config)).1 id0 = Return sws /\
    np.take (calc (time_distance_window config) (magnitude catalogue)
               (time_cutoff config)).2 id0 = Return swt /\
    ya_take year_dec0 id0 = Return year_dec /\
    gk_loop haversine lon lat sws swt year_dec (fs_time_prop config)
      (seq 0 (length (magnitude catalogue) - 1))
      {| cluster_ids := np.zeros (length (magnitude catalogue));
         shock_types := np.zeros (length (magnitude catalogue));
         clust_index := 0 |} = Return st /\
    length ids = length id0 /\ length types = length id0 /\
    forall p e, id0 !! p = Some e ->
      ids !! e = cluster_ids st !! p /\ types !! e = shock_types st !! p /\
      is_Some (cluster_ids st !! p) /\ is_Some (shock_types st !! p).
Proof.
  unfold decluster. intros H.
  apply bind_Return in H as (year_dec0 & Hy0 & H). cbn [calc] in H.
  apply bind_Return in H as (id0 & Hid0 & H).
  apply bind_Return in H as (lon & Hlon & H).
  apply bind_Return in H as (lat & Hlat & H).
  apply bind_Return in H as (sws & Hsws & H).
  apply bind_Return in H as (swt & Hswt & H).
  apply bind_Return in H as (year_dec & Hyd & H).
  apply bind_Return in H as (eqid & ->%take_arange & H).
  apply bind_Return in H as (st & Hst & H).
  apply bind_Return in H as (id1 & Hid1 & H).
  apply bind_Return in H as (eqid' & _ & H).
  apply bind_Return in H as (ids' & Hids & H).
  apply bind_Return in H as (types' & Htypes & H).
  injection H as -> ->.
  exists year_dec0, id0, lon, lat, sws, swt, year_dec, st.
  repeat (split; [done|]).
  destruct (sort_order_spec _ _ Hid0) as [Hp0 _].
  assert (length id0 = length (magnitude catalogue)) as Hlen0.
  { apply Permutation_length in Hp0. by rewrite length_seq in Hp0. }
  rewrite <- Hlen0 in Hp0.
  destruct (restore_order _ _ Hp0 Hid1) as [Hp1 Hinv].
  assert (length id1 = length id0) as Hlen1.
  { apply Permutation_length in Hp1. by rewrite length_seq in Hp1. }
  destruct (take_Return _ _ _ Hids) as [Hl1 Hk1].
  destruct (take_Return _ _ _ Htypes) as [Hl2 Hk2].
  split; [congruence|]. split; [congruence|].
  intros p e Hpe. apply Hinv in Hpe.
  destruct (Hk1 _ _ Hpe) as [-> ?]. destruct (Hk2 _ _ Hpe) as [-> ?]. done.
Qed.
End decluster_run.

(** ** The working arrays, read in catalogue order *)

Lemma take_lookup_total {A} `{!Inhabited A} (a : list A) (idx : list nat) (r : list A) k e :
  np.take a idx = Return r -> idx !! k = Some e -> r !! k = Some (a !!! e).
Proof.
  intros [_ H]%take_Return Hk. destruct (H k e Hk) as [-> [x Hx]].
  by rewrite (list_lookup_total_correct _ _ _ Hx).
Qed.

Lemma sorted_windows config catalogue id0 sws swt k e :
  np.take (calc (time_distance_window config) (magnitude catalogue)
             (time_cutoff config)).1 id0 = Return sws ->
  np.take (calc (time_distance_window config) (magnitude catalogue)
             (time_cutoff config)).2 id0 = Return swt ->
  id0 !! k = Some e ->
  sws !! k = Some (space_window config catalogue e) /\
  swt !! k = Some (time_window config catalogue e).
Proof.
  intros [_ Hs]%take_Return [_ Ht]%take_Return Hk.
  destruct (Hs k e Hk) as [-> [x Hx]]. destruct (Ht k e Hk) as [-> [y Hy]].
  rewrite Hx, Hy. cbn [calc fst snd] in Hx, Hy.
  change (map ?f ?l) with (f <$> l) in Hx, Hy.
  rewrite list_lookup_fmap in Hx, Hy.
  destruct (magnitude catalogue !! e) as [m|] eqn:Hm; [|done].
  unfold space_window, time_window.
  rewrite (list_lookup_total_correct _ _ _ Hm).
  cbn in Hx, Hy. by simplify_eq.
Qed.

Lemma decimal_year_array_lookup decimal_year y m d e v :
  decimal_year_array decimal_year y m d !! e = Some v ->
  v = event_year decimal_year y m d e.
Proof.
  unfold decimal_year_array, event_year. rewrite lookup_zip_with.
  intros ([y0 m0] & Hym & (d0 & Hd & [= <-])%bind_Some)%bind_Some.
  apply lookup_zip_with_Some in Hym as (? & ? & [= <- <-] & Hy & Hm).
  by rewrite (list_lookup_total_correct _ _ _ Hy),
    (list_lookup_total_correct _ _ _ Hm), (list_lookup_total_correct _ _ _ Hd).
Qed.

(** With year, month and day columns the sorted decimal years are those of
    the events in visiting order. *)
Lemma sorted_years decimal_year catalogue y m d year_dec0 id0 year_dec :
  year catalogue = Some y -> month catalogue = Some m -> day catalogue = Some d ->
  year_dec_of decimal_year catalogue = Return year_dec0 ->
  ya_take year_dec0 id0 = Return year_dec ->
  exists a, year_dec = NdArray a /\ length a = length id0 /\
    forall k e, id0 !! k = Some e -> a !! k = Some (event_year decimal_year y m d e).
Proof.
  unfold year_dec_of. intros -> -> -> [= <-]. cbn [ya_take].
  intros (a & Ha & ->)%fmap_Return. exists a. split; [done|].
  destruct (take_Return _ _ _ Ha) as [Hlen Hk]. split; [done|].
  intros k e Hke. destruct (Hk k e Hke) as [-> [v Hv]]. rewrite Hv.
  by rewrite (decimal_year_array_lookup _ _ _ _ _ _ Hv).
Qed.

Lemma length_ya_take year_dec0 id0 year_dec :
  ya_take year_dec0 id0 = Return year_dec ->
  length (ya_values year_dec) = length id0.
Proof.
  destruct year_dec0 as [a|s]; cbn [ya_take].
  - intros (r & Hr & ->)%fmap_Return. cbn. by destruct (take_Return _ _ _ Hr).
  - intros (r & Hr & ->)%fmap_Return. unfold pd.take in Hr.
    apply bind_Return in Hr as (vals & Hv%or_raise_Return%mapM_Some & [= <-]).
    cbn. symmetry. by eapply Forall2_length.
Qed.

(** * Invariants of the clustering pass *)

Section pass.
Variable haversine : Q -> Q -> Q -> Q -> Q.
Variables (longitude latitude sw_space sw_time : list Q).
Variable year_dec : year_array.
Variable fs_time_prop : Q.

#[local] Abbreviation body :=
  (gk_body haversine longitude latitude sw_space sw_time year_dec fs_time_prop).
#[local] Abbreviation loop :=
  (gk_loop haversine longitude latitude sw_space sw_time year_dec fs_time_prop).

(** A property kept by every iteration is kept by the pass. *)
Lemma gk_loop_invariant (P : gk_state -> Prop) range :
  (forall i st st', i ∈ range -> P st -> body i st = Return st' -> P st') ->
  forall st0 st, P st0 -> loop range st0 = Return st -> P st.
Proof.
  induction range as [|i range IH]; intros Hstep st0 st H0 Hl.
  - by injection Hl as <-.
  - cbn [gk_loop] in Hl. apply bind_Return in Hl as (st1 & Hb & Hl).
    eapply IH; [|eapply (Hstep i st0 st1)|exact Hl]; [|left|done..].
    intros j s s' Hj. apply Hstep. by right.
Qed.

(** The arrays keep their lengths and the cluster counter stays
    non-negative. *)
Lemma gk_body_shape n i st st' :
  body i st = Return st' ->
  length (cluster_ids st) = n /\ length (shock_types st) = n /\ (0 <= clust_index st)%Z ->
  length (cluster_ids st') = n /\ length (shock_types st') = n /\ (0 <= clust_index st')%Z.
Proof.
  intros [->|(year_i & time_i & lon_i & lat_i & space_i & _ & _ & _ & _ & _ & _ & _ & ->)]%gk_body_inv
    (Hc & Hs & Hk); [done|].
  cbn. rewrite length_insert, !length_set_mask. repeat split; [done..|lia].
Qed.

Lemma gk_body_counter i st st' :
  body i st = Return st' -> (0 <= clust_index st)%Z -> (0 <= clust_index st')%Z.
Proof.
  intros [->|(year_i & time_i & lon_i & lat_i & space_i & _ & _ & _ & _ & _ & _ & _ & ->)]%gk_body_inv
    Hk; [done|].
  cbn. lia.
Qed.

(** Unclustered positions carry shock type 0. *)
Lemma gk_body_unclustered i st st' :
  body i st = Return st' ->
  (0 <= clust_index st)%Z ->
  (forall p s, cluster_ids st !! p = Some 0%Z -> shock_types st !! p = Some s -> s = 0%Z) ->
  forall p s, cluster_ids st' !! p = Some 0%Z -> shock_types st' !! p = Some s -> s = 0%Z.
Proof.
  intros [->|(year_i & time_i & lon_i & lat_i & space_i & _ & _ & _ & _ & _ & _ & _ & ->)]%gk_body_inv
    Hk IH p s; [apply IH|].
  cbn. rewrite set_mask_lookup, shock_types_lookup.
  destruct (cluster_ids st !! p) as [c|] eqn:Hc; [|done].
  destruct (shock_types st !! p) as [s0|] eqn:Hs; [|done]. cbn.
  intros [= Hc'] [= <-].
  match type of Hc' with context [mask_at ?m p] => destruct (mask_at m p) eqn:Hsel end;
    [lia|subst c].
  destruct (decide (p = i)); [done|].
  match goal with |- context [mask_at ?m p] => destruct (mask_at m p) eqn:Htemp end.
  - apply temp_vsel_spec in Htemp as (_ & Hsel' & _). congruence.
  - by apply (IH p).
Qed.

(** With a zero foreshock proportion nothing is marked a foreshock. *)
Lemma gk_body_no_foreshock i st st' :
  body i st = Return st' ->
  (fs_time_prop == 0)%Q ->
  (forall p, shock_types st !! p <> Some (-1)%Z) ->
  forall p, shock_types st' !! p <> Some (-1)%Z.
Proof.
  intros [->|(year_i & time_i & lon_i & lat_i & space_i & _ & _ & _ & _ & _ & _ & _ & ->)]%gk_body_inv
    Hfs IH p; [apply IH|].
  cbn. rewrite shock_types_lookup.
  destruct (shock_types st !! p) as [s0|] eqn:Hs; [|done]. cbn.
  destruct (decide (p = i)); [done|].
  match goal with |- context [mask_at ?m p] => destruct (mask_at m p) eqn:Htemp end.
  - exfalso. apply temp_vsel_spec in Htemp as (_ & Hsel & Hdt).
    apply select_sound in Hsel as (_ & d & Hd & Hlo & _).
    apply not_true_iff_false in Hdt. apply Hdt.
    apply mask_at_map. exists d. split; [done|].
    apply Qle_bool_iff. apply Qle_bool_iff in Hlo. rewrite Hfs in Hlo. Lqa.lra.
  - match goal with |- context [mask_at ?m p] => destruct (mask_at m p) end; [done|].
    rewrite <- Hs. apply IH.
Qed.

(** A position that is never the seed is a fore- or aftershock once it is
    clustered. *)
Lemma gk_body_absorbed i st st' p :
  body i st = Return st' -> i <> p ->
  length (cluster_ids st) = length (shock_types st) ->
  (forall c, cluster_ids st !! p = Some c -> c <> 0%Z ->
     shock_types st !! p = Some 1%Z \/ shock_types st !! p = Some (-1)%Z) ->
  forall c, cluster_ids st' !! p = Some c -> c <> 0%Z ->
    shock_types st' !! p = Some 1%Z \/ shock_types st' !! p = Some (-1)%Z.
Proof.
  intros [->|(year_i & time_i & lon_i & lat_i & space_i & _ & _ & _ & _ & _ & _ & _ & ->)]%gk_body_inv
    Hne Hlen IH c; [apply IH|].
  cbn. rewrite set_mask_lookup, shock_types_lookup.
  destruct (cluster_ids st !! p) as [c0|] eqn:Hc; [|done].
  destruct (lookup_lt_is_Some_2 (shock_types st) p) as [s0 Hs].
  { rewrite <- Hlen. by eapply lookup_lt_Some. }
  rewrite Hs. cbn. rewrite decide_False by done.
  intros [= Hc'] Hc0.
  match goal with |- context [mask_at ?m p] => destruct (mask_at m p) eqn:Htemp end;
    [by right|].
  match type of Hc' with context [mask_at ?m p] => destruct (mask_at m p) eqn:Hsel end;
    [by left|].
  subst c0. rewrite <- Hs. by apply (IH c).
Qed.

Lemma gk_loop_unclustered range st0 st :
  loop range st0 = Return st ->
  (0 <= clust_index st0)%Z ->
  (forall p s, cluster_ids st0 !! p = Some 0%Z -> shock_types st0 !! p = Some s -> s = 0%Z) ->
  forall p s, cluster_ids st !! p = Some 0%Z -> shock_types st !! p = Some s -> s = 0%Z.
Proof.
  intros Hl Hk H0.
  refine (proj2 (gk_loop_invariant
           (fun st => (0 <= clust_index st)%Z /\
              forall p s, cluster_ids st !! p = Some 0%Z ->
                shock_types st !! p = Some s -> s = 0%Z) range _ st0 st (conj Hk H0) Hl)).
  intros i s s' _ [Hk' IH] Hb. split.
  - exact (gk_body_counter i s s' Hb Hk').
  - exact (gk_body_unclustered i s s' Hb Hk' IH).
Qed.

Lemma gk_loop_no_foreshock range st0 st :
  loop range st0 = Return st ->
  (fs_time_prop == 0)%Q ->
  (forall p, shock_types st0 !! p <> Some (-1)%Z) ->
  forall p, shock_types st !! p <> Some (-1)%Z.
Proof.
  intros Hl Hfs H0.
  refine (gk_loop_invariant
           (fun st => forall p, shock_types st !! p <> Some (-1)%Z) range _ st0 st H0 Hl).
  intros i s s' _ IH Hb. exact (gk_body_no_foreshock i s s' Hb Hfs IH).
Qed.

Lemma gk_loop_shape n range st0 st :
  loop range st0 = Return st ->
  length (cluster_ids st0) = n /\ length (shock_types st0) = n /\ (0 <= clust_index st0)%Z ->
  length (cluster_ids st) = n /\ length (shock_types st) = n /\ (0 <= clust_index st)%Z.
Proof.
  intros Hl H0.
  refine (gk_loop_invariant
           (fun st => length (cluster_ids st) = n /\ length (shock_types st) = n /\
                      (0 <= clust_index st)%Z) range _ st0 st H0 Hl).
  intros i s s' _ IH Hb. exact (gk_body_shape n i s s' Hb IH).
Qed.

Lemma gk_loop_absorbed range st0 st p :
  loop range st0 = Return st ->
  p ∉ range ->
  length (cluster_ids st0) = length (shock_types st0) ->
  (forall c, cluster_ids st0 !! p = Some c -> c <> 0%Z ->
     shock_types st0 !! p = Some 1%Z \/ shock_types st0 !! p = Some (-1)%Z) ->
  forall c, cluster_ids st !! p = Some c -> c <> 0%Z ->
    shock_types st !! p = Some 1%Z \/ shock_types st !! p = Some (-1)%Z.
Proof.
  intros Hl Hp Hlen H0.
  refine (proj2 (gk_loop_invariant
           (fun st => length (cluster_ids st) = length (shock_types st) /\
              forall c, cluster_ids st !! p = Some c -> c <> 0%Z ->
                shock_types st !! p = Some 1%Z \/ shock_types st !! p = Some (-1)%Z)
           range _ st0 st (conj Hlen H0) Hl)).
  intros i s s' Hi [Hlen' IH] Hb. split.
  - pose proof (gk_body_inv _ _ _ _ _ _ _ _ _ _ Hb)
      as [->|(? & ? & ? & ? & ? & _ & _ & _ & _ & _ & _ & _ & ->)]; [done|].
    cbn. by rewrite length_insert, !length_set_mask.
  - apply (gk_body_absorbed i s s' p Hb); [|done..]. intros ->. done.
Qed.

(** A position that no seed's window reaches stays unclustered. *)
Lemma gk_body_isolated n i st st' p :
  body i st = Return st' ->
  length (cluster_ids st) = n ->
  length longitude = n -> length latitude = n -> length (ya_values year_dec) = n ->
  cluster_ids st !! p = Some 0%Z ->
  (forall year_i time_i lon_i lat_i space_i y_p lo_p la_p,
     ya_getitem year_dec i = Return year_i -> sw_time !! i = Some time_i ->
     longitude !! i = Some lon_i -> latitude !! i = Some lat_i ->
     sw_space !! i = Some space_i ->
     ya_values year_dec !! p = Some y_p ->
     longitude !! p = Some lo_p -> latitude !! p = Some la_p ->
     Qle_bool (- time_i * fs_time_prop) (y_p - year_i)
     && Qle_bool (y_p - year_i) time_i
     && Qle_bool (haversine lo_p la_p lon_i lat_i) space_i = false) ->
  cluster_ids st' !! p = Some 0%Z.
Proof.
  intros Hb Hlc Hllon Hllat Hlyd Hp Hout.
  pose proof (gk_body_inv _ _ _ _ _ _ _ _ _ _ Hb)
    as [->|(year_i & time_i & lon_i & lat_i & space_i & _ & Hy & Ht & Hlo & Hla & Hsp & _ & ->)];
    [done|].
  cbn. rewrite set_mask_lookup, Hp. cbn.
  pose proof (lookup_lt_Some _ _ _ Hp) as Hpn.
  destruct (lookup_lt_is_Some_2 longitude p) as [lo_p Hlop]; [lia|].
  destruct (lookup_lt_is_Some_2 latitude p) as [la_p Hlap]; [lia|].
  destruct (lookup_lt_is_Some_2 (ya_values year_dec) p) as [y_p Hyp]; [lia|].
  rewrite (select_spec _ _ _ _ _ _ _ _ _ _ p 0%Z (y_p - year_i)%Q lo_p la_p);
    try done; try lia.
  - specialize (Hout _ _ _ _ _ _ _ _ Hy Ht Hlo Hla Hsp Hyp Hlop Hlap).
    cbn [Z.eqb andb]. by rewrite Hout.
  - unfold time_offsets. rewrite length_map. lia.
  - unfold time_offsets. change (map ?f ?l) with (f <$> l).
    by rewrite list_lookup_fmap, Hyp.
Qed.

Lemma gk_loop_isolated n range st0 st p :
  loop range st0 = Return st ->
  length (cluster_ids st0) = n /\ length (shock_types st0) = n /\ (0 <= clust_index st0)%Z ->
  length longitude = n -> length latitude = n -> length (ya_values year_dec) = n ->
  cluster_ids st0 !! p = Some 0%Z ->
  (forall i, i ∈ range ->
   forall year_i time_i lon_i lat_i space_i y_p lo_p la_p,
     ya_getitem year_dec i = Return year_i -> sw_time !! i = Some time_i ->
     longitude !! i = Some lon_i -> latitude !! i = Some lat_i ->
     sw_space !! i = Some space_i ->
     ya_values year_dec !! p = Some y_p ->
     longitude !! p = Some lo_p -> latitude !! p = Some la_p ->
     Qle_bool (- time_i * fs_time_prop) (y_p - year_i)
     && Qle_bool (y_p - year_i) time_i
     && Qle_bool (haversine lo_p la_p lon_i lat_i) space_i = false) ->
  cluster_ids st !! p = Some 0%Z.
Proof.
  intros Hl Hshape Hllon Hllat Hlyd Hp Hout.
  refine (proj2 (gk_loop_invariant
           (fun st => (length (cluster_ids st) = n /\ length (shock_types st) = n /\
                       (0 <= clust_index st)%Z) /\
                      cluster_ids st !! p = Some 0%Z)
           range _ st0 st (conj Hshape Hp) Hl)).
  intros i s s' Hi [Hsh Hps] Hb. split.
  - exact (gk_body_shape n i s s' Hb Hsh).
  - apply (gk_body_isolated n i s s' p Hb); try done; [by destruct Hsh|].
    by apply Hout.
Qed.

(** ** Clusters and their seeds *)

(** Under a regular configuration the seed selects itself. *)
Lemma seed_selected n cids i year_i time_i lon_i lat_i space_i :
  length cids = n -> length longitude = n -> length latitude = n ->
  length (ya_values year_dec) = n ->
  cids !! i = Some 0%Z ->
  ya_values year_dec !! i = Some year_i ->
  longitude !! i = Some lon_i -> latitude !! i = Some lat_i ->
  (0 <= fs_time_prop)%Q -> (0 <= time_i)%Q ->
  Qle_bool (haversine lon_i lat_i lon_i lat_i) space_i = true ->
  mask_at (select haversine longitude latitude fs_time_prop cids
             (time_offsets year_dec year_i) lon_i lat_i space_i time_i) i = true.
Proof.
  intros Hlc Hllon Hllat Hlyd Hc Hy Hlo Hla Hfs Ht Hd.
  rewrite (select_spec _ _ _ _ _ _ _ _ _ _ i 0%Z (year_i - year_i)%Q lon_i lat_i);
    try done; try lia.
  - rewrite Hd. cbn [Z.eqb andb]. rewrite andb_true_r.
    apply andb_true_iff. split; apply Qle_bool_iff.
    + pose proof (Qmult_le_0_compat _ _ Ht Hfs). Lqa.lra.
    + Lqa.lra.
  - unfold time_offsets. rewrite length_map. lia.
  - unfold time_offsets. change (map ?f ?l) with (f <$> l).
    by rewrite list_lookup_fmap, Hy.
Qed.

(** Cluster ids run from 1 to the counter, and each of them has exactly
    one member of shock type 0. *)
Lemma gk_body_clusters n i st st' :
  body i st = Return st' ->
  length longitude = n -> length latitude = n -> length (ya_values year_dec) = n ->
  (forall j y, ya_getitem year_dec j = Return y -> ya_values year_dec !! j = Some y) ->
  (0 <= fs_time_prop)%Q ->
  (forall j t, sw_time !! j = Some t -> (0 <= t)%Q) ->
  (forall j lo la sp, longitude !! j = Some lo -> latitude !! j = Some la ->
     sw_space !! j = Some sp -> Qle_bool (haversine lo la lo la) sp = true) ->
  (length (cluster_ids st) = n /\ length (shock_types st) = n /\ (0 <= clust_index st)%Z) ->
  (forall p c, cluster_ids st !! p = Some c -> (0 <= c <= clust_index st)%Z) ->
  (forall c, (1 <= c <= clust_index st)%Z ->
     exists s, cluster_ids st !! s = Some c /\ shock_types st !! s = Some 0%Z /\
       forall p, cluster_ids st !! p = Some c -> shock_types st !! p = Some 0%Z -> p = s) ->
  (forall p c, cluster_ids st' !! p = Some c -> (0 <= c <= clust_index st')%Z) /\
  (forall c, (1 <= c <= clust_index st')%Z ->
     exists s, cluster_ids st' !! s = Some c /\ shock_types st' !! s = Some 0%Z /\
       forall p, cluster_ids st' !! p = Some c -> shock_types st' !! p = Some 0%Z -> p = s).
Proof.
  intros Hb Hllon Hllat Hlyd Hpos Hfs Htime Hspace (Hlc & Hls & Hk) Hrange Hclu.
  pose proof (gk_body_inv _ _ _ _ _ _ _ _ _ _ Hb)
    as [->|(year_i & time_i & lon_i & lat_i & space_i & Hci & Hy & Ht & Hlo & Hla & Hsp
            & _ & ->)]; [done|].
  cbn [cluster_ids shock_types clust_index].
  set (dt := time_offsets year_dec year_i) in *.
  set (vsel := select haversine longitude latitude fs_time_prop (cluster_ids st) dt
                 lon_i lat_i space_i time_i) in *.
  set (temp := np.set_mask (<[i:=false]> vsel) (map (fun d => Qle_bool 0 d) dt) false).
  assert (Hsel0 : forall p, mask_at vsel p = true -> cluster_ids st !! p = Some 0%Z).
  { intros p Hp. by apply select_sound in Hp as [? _]. }
  assert (Htemp : forall p, mask_at temp p = true -> mask_at vsel p = true).
  { intros p Hp. by apply temp_vsel_spec in Hp as (_ & ? & _). }
  assert (Hself : mask_at vsel i = true).
  { apply (seed_selected n); try done.
    - by apply Hpos.
    - by eapply Htime.
    - by eapply Hspace. }
  assert (Hin : i < n) by (apply lookup_lt_Some in Hci; lia).
  split.
  - intros p c. rewrite set_mask_lookup.
    destruct (cluster_ids st !! p) as [c0|] eqn:Hc0; [|done]. cbn.
    intros [= <-]. destruct (mask_at vsel p); [lia|].
    specialize (Hrange _ _ Hc0). lia.
  - intros c Hc. destruct (decide (c = clust_index st + 1)%Z) as [->|Hne].
    + exists i. split; [|split].
      * by rewrite set_mask_lookup, Hci, Hself.
      * rewrite shock_types_lookup.
        destruct (lookup_lt_is_Some_2 (shock_types st) i) as [s0 ->]; [lia|].
        cbn. by rewrite decide_True.
      * intros p. rewrite set_mask_lookup, shock_types_lookup.
        destruct (cluster_ids st !! p) as [c0|] eqn:Hc0; [|done].
        destruct (shock_types st !! p) as [s0|] eqn:Hs0; [|done]. cbn.
        destruct (decide (p = i)); [done|].
        destruct (mask_at vsel p) eqn:Hp.
        -- destruct (mask_at temp p); intros _ [=].
        -- intros [= ->]. specialize (Hrange _ _ Hc0). lia.
    + destruct (Hclu c ltac:(lia)) as (s & Hs1 & Hs2 & Hs3).
      assert (Hold : forall p, cluster_ids st !! p = Some c ->
                p <> i /\ mask_at vsel p = false /\ mask_at temp p = false).
      { intros p Hp. assert (mask_at vsel p = false) as Hv.
        { apply not_true_iff_false. intros Hv%Hsel0. rewrite Hv in Hp.
          injection Hp as <-. lia. }
        split; [|split; [done|]].
        - intros ->. rewrite Hci in Hp. injection Hp as <-. lia.
        - apply not_true_iff_false. intros Hv'%Htemp. congruence. }
      exists s. split; [|split].
      * destruct (Hold s Hs1) as (_ & Hv & _).
        by rewrite set_mask_lookup, Hs1, Hv.
      * destruct (Hold s Hs1) as (Hsi & Hv & Hv').
        rewrite shock_types_lookup, Hs2. cbn.
        by rewrite decide_False, Hv', Hv.
      * intros p. rewrite set_mask_lookup, shock_types_lookup.
        destruct (cluster_ids st !! p) as [c0|] eqn:Hc0; [|done].
        destruct (shock_types st !! p) as [s0|] eqn:Hs0; [|done]. cbn.
        destruct (mask_at vsel p) eqn:Hp; [intros [= <-]; lia|].
        intros [= ->]. destruct (Hold p Hc0) as (Hpi & _ & Hv').
        rewrite decide_False, Hv' by done. intros [= ->]. by apply Hs3.
Qed.

Lemma gk_loop_clusters n range st0 st :
  loop range st0 = Return st ->
  length longitude = n -> length latitude = n -> length (ya_values year_dec) = n ->
  (forall j y, ya_getitem year_dec j = Return y -> ya_values year_dec !! j = Some y) ->
  (0 <= fs_time_prop)%Q ->
  (forall j t, sw_time !! j = Some t -> (0 <= t)%Q) ->
  (forall j lo la sp, longitude !! j = Some lo -> latitude !! j = Some la ->
     sw_space !! j = Some sp -> Qle_bool (haversine lo la lo la) sp = true) ->
  (length (cluster_ids st0) = n /\ length (shock_types st0) = n /\ (0 <= clust_index st0)%Z) ->
  (forall p c, cluster_ids st0 !! p = Some c -> (0 <= c <= clust_index st0)%Z) ->
  (forall c, (1 <= c <= clust_index st0)%Z ->
     exists s, cluster_ids st0 !! s = Some c /\ shock_types st0 !! s = Some 0%Z /\
       forall p, cluster_ids st0 !! p = Some c -> shock_types st0 !! p = Some 0%Z -> p = s) ->
  (forall p c, cluster_ids st !! p = Some c -> (0 <= c <= clust_index st)%Z) /\
  (forall c, (1 <= c <= clust_index st)%Z ->
     exists s, cluster_ids st !! s = Some c /\ shock_types st !! s = Some 0%Z /\
       forall p, cluster_ids st !! p = Some c -> shock_types st !! p = Some 0%Z -> p = s).
Proof.
  intros Hl Hllon Hllat Hlyd Hpos Hfs Htime Hspace Hshape Hrange Hclu.
  refine (proj2 (gk_loop_invariant
    (fun st =>
       (length (cluster_ids st) = n /\ length (shock_types st) = n /\
        (0 <= clust_index st)%Z) /\
       (forall p c, cluster_ids st !! p = Some c -> (0 <= c <= clust_index st)%Z) /\
       (forall c, (1 <= c <= clust_index st)%Z ->
          exists s, cluster_ids st !! s = Some c /\ shock_types st !! s = Some 0%Z /\
            forall p, cluster_ids st !! p = Some c ->
              shock_types st !! p = Some 0%Z -> p = s))
    range _ st0 st (conj Hshape (conj Hrange Hclu)) Hl)).
  intros i s s' _ (Hsh & Hr & Hc) Hb. split.
  - exact (gk_body_shape n i s s' Hb Hsh).
  - by apply (gk_body_clusters n i s s' Hb).
Qed.
End pass.

(** * Properties of [decluster] *)

(** ** Which exceptions the steps raise *)

Lemma bind_Raise {A B} (m : outcome A) (f : A -> outcome B) e :
  m ≫= f = Raise e -> m = Raise e \/ exists a, m = Return a /\ f a = Raise e.
Proof.
  destruct m as [a|e']; intros H; [right; by exists a|left].
  by injection H as ->.
Qed.

Lemma or_raise_Raise {A} e0 (o : option A) e : or_raise e0 o = Raise e -> e = e0.
Proof. destruct o; [done|]. by intros [= <-]. Qed.

Lemma fmap_Raise {A B} (m : outcome A) (f : A -> B) e : f <$> m = Raise e -> m = Raise e.
Proof. destruct m; [done|]. by intros [= ->]. Qed.

Lemma take_raises {A} (a : list A) idx e : np.take a idx = Raise e -> index_like e.
Proof. intros ->%or_raise_Raise. by left. Qed.

Lemma getitem_raises {A} (a : list A) i e : np.getitem a i = Raise e -> index_like e.
Proof. intros ->%or_raise_Raise. by left. Qed.

Lemma argsort_raises {type} `{!Inhabited type} (less : type -> type -> bool) v e :
  argsort less v = Raise e -> index_like e.
Proof. intros ->%or_raise_Raise. by right; right. Qed.

Lemma ya_take_raises y idx e : ya_take y idx = Raise e -> index_like e.
Proof.
  destruct y as [a|s]; cbn [ya_take]; intros H%fmap_Raise.
  - by eapply take_raises.
  - unfold pd.take in H. apply bind_Raise in H as [->%or_raise_Raise|(? & _ & [=])].
    by right; left.
Qed.

Lemma ya_getitem_raises y i e : ya_getitem y i = Raise e -> index_like e.
Proof.
  destruct y as [a|s]; cbn [ya_getitem].
  - apply getitem_raises.
  - intros ->%or_raise_Raise. by right; left.
Qed.

Lemma gk_body_raises haversine lon lat sws swt yd fs i st e :
  gk_body haversine lon lat sws swt yd fs i st = Raise e -> index_like e.
Proof.
  unfold gk_body. intros H.
  apply bind_Raise in H as [H|(c & _ & H)]; [by eapply getitem_raises|].
  destruct (c =? 0)%Z; [|done].
  apply bind_Raise in H as [H|(? & _ & H)]; [by eapply ya_getitem_raises|].
  do 4 (apply bind_Raise in H as [H|(? & _ & H)]; [by eapply getitem_raises|]).
  by destruct (np.any _).
Qed.

Lemma gk_loop_raises haversine lon lat sws swt yd fs range st e :
  gk_loop haversine lon lat sws swt yd fs range st = Raise e -> index_like e.
Proof.
  revert st. induction range as [|i range IH]; intros st H; [done|].
  cbn [gk_loop] in H. apply bind_Raise in H as [H|(st' & _ & H)].
  - by eapply gk_body_raises.
  - by eapply IH.
Qed.

Lemma zeros_lookup n p s : np.zeros n !! p = Some s -> s = 0%Z.
Proof. unfold np.zeros. by intros [-> _]%lookup_replicate. Qed.

Lemma lookup_of_Permutation_seq (l : list nat) n e :
  Permutation l (seq 0 n) -> e < n -> exists p, l !! p = Some e.
Proof.
  intros Hp He. apply list_elem_of_lookup. rewrite Hp. apply elem_of_seq. lia.
Qed.

Section decluster_facts.
Variable haversine : Q -> Q -> Q -> Q -> Q.
Variable decimal_year : Z -> Z -> Z -> Q.

(** C8.  Whenever [decluster] returns, every event whose cluster id is 0
    has shock type 0. *)
Theorem unclustered_events_have_shock_type_0 :
  forall catalogue config ids types,
    decluster haversine decimal_year catalogue config = Return (ids, types) ->
    forall e, ids !! e = Some 0%Z -> types !! e = Some 0%Z.
Proof.
  intros catalogue config ids types
    (yd0 & id0 & lon & lat & sws & swt & yd & st & _ & Hid0 & _ & _ & _ & _ & _
     & Hloop & Hl1 & Hl2 & Hout)%decluster_run e He.
  destruct (sort_order_spec _ _ Hid0) as [Hp0 _].
  destruct (lookup_of_Permutation_seq id0 _ e Hp0) as [p Hp].
  { apply lookup_lt_Some in He. apply Permutation_length in Hp0.
    rewrite length_seq in Hp0. lia. }
  destruct (Hout p e Hp) as (Hi & Ht & _ & [s Hs]).
  rewrite Ht, Hs. f_equal. rewrite Hi in He.
  eapply (gk_loop_unclustered _ _ _ _ _ _ _ _ _ _ Hloop); [done| |exact He|exact Hs].
  cbn. intros p' s' _. apply zeros_lookup.
Qed.

(** C6.  With [fs_time_prop = 0] no event of the returned array has shock
    type -1. *)
Theorem no_foreshock_without_backward_window :
  forall catalogue config ids types,
    decluster haversine decimal_year catalogue config = Return (ids, types) ->
    (fs_time_prop config == 0)%Q ->
    forall e, types !! e <> Some (-1)%Z.
Proof.
  intros catalogue config ids types
    (yd0 & id0 & lon & lat & sws & swt & yd & st & _ & Hid0 & _ & _ & _ & _ & _
     & Hloop & Hl1 & Hl2 & Hout)%decluster_run Hfs e He.
  destruct (sort_order_spec _ _ Hid0) as [Hp0 _].
  destruct (lookup_of_Permutation_seq id0 _ e Hp0) as [p Hp].
  { apply lookup_lt_Some in He. apply Permutation_length in Hp0.
    rewrite length_seq in Hp0. lia. }
  destruct (Hout p e Hp) as (_ & Ht & _). rewrite Ht in He.
  eapply (gk_loop_no_foreshock _ _ _ _ _ _ _ _ _ _ Hloop); [done| |exact He].
  cbn. intros p' Hz%zeros_lookup. done.
Qed.

(** X19.  The event at the last position of the visiting order is never a
    seed: when it ends up in a cluster it is a fore- or aftershock of it,
    and when every other event's window misses it, in space or (for a
    catalogue with year, month and day columns) in time, its cluster id
    stays 0. *)
Theorem smallest_event_never_seeds :
  forall catalogue config ids types id0 e,
    decluster haversine decimal_year catalogue config = Return (ids, types) ->
    sort_order (magnitude catalogue) = Return id0 ->
    last id0 = Some e ->
    (forall c, ids !! e = Some c -> c <> 0%Z ->
       types !! e = Some 1%Z \/ types !! e = Some (-1)%Z) /\
    ((forall e', e' < length (magnitude catalogue) -> e' <> e ->
        outside_radius haversine catalogue config e' e \/
        outside_duration decimal_year catalogue config e' e) ->
     ids !! e = Some 0%Z).
Proof.
  intros catalogue config ids types id0 e
    (yd0 & id0' & lon & lat & sws & swt & yd & st & Hyd0 & Hid0 & Hlon & Hlat & Hsws
     & Hswt & Hyd & Hloop & Hl1 & Hl2 & Hout)%decluster_run Hid0' Hlast.
  rewrite Hid0 in Hid0'. injection Hid0' as ->.
  set (n := length (magnitude catalogue)) in *.
  destruct (sort_order_spec _ _ Hid0) as [Hp0 _]. fold n in Hp0.
  assert (length id0 = n) as Hn.
  { apply Permutation_length in Hp0. by rewrite length_seq in Hp0. }
  assert (NoDup id0) as Hnd by (rewrite Hp0; apply NoDup_seq).
  rewrite last_lookup, Hn in Hlast.
  assert (pred n < n) as Hpn by (apply lookup_lt_Some in Hlast; lia).
  destruct (Hout _ _ Hlast) as (Hi & Ht & [c0 Hc0] & [s0 Hs0]).
  assert (pred n ∉ seq 0 (n - 1)) as Hnotin.
  { intros Hin%elem_of_seq. lia. }
  assert (length (np.zeros n) = n) as Hz by apply length_replicate.
  split.
  - rewrite Hi, Ht.
    eapply (gk_loop_absorbed _ _ _ _ _ _ _ _ _ _ _ Hloop); [done|done|].
    cbn. intros c Hc%zeros_lookup. done.
  - intros Hiso. rewrite Hi.
    eapply (gk_loop_isolated _ _ _ _ _ _ _ n _ _ _ _ Hloop).
    + cbn. by rewrite Hz.
    + destruct (take_Return _ _ _ Hlon). lia.
    + destruct (take_Return _ _ _ Hlat). lia.
    + rewrite (length_ya_take _ _ _ Hyd). lia.
    + cbn. apply lookup_replicate_2. lia.
    + intros i Hin%elem_of_seq year_i time_i lon_i lat_i space_i y_p lo_p la_p
        Hy Hti Hloi Hlai Hspi Hyp Hlop Hlap.
      destruct (lookup_lt_is_Some_2 id0 i) as [e' He']; [lia|].
      assert (e' <> e) as Hne.
      { intros ->. pose proof (NoDup_lookup _ _ _ _ Hnd He' Hlast). lia. }
      assert (e' < n) as He'n.
      { apply list_elem_of_lookup_2 in He'. rewrite Hp0 in He'.
        apply elem_of_seq in He'. lia. }
      rewrite (take_lookup_total _ _ _ _ _ Hlon He') in Hloi.
      rewrite (take_lookup_total _ _ _ _ _ Hlat He') in Hlai.
      rewrite (take_lookup_total _ _ _ _ _ Hlon Hlast) in Hlop.
      rewrite (take_lookup_total _ _ _ _ _ Hlat Hlast) in Hlap.
      destruct (sorted_windows _ _ _ _ _ _ _ Hsws Hswt He') as [Hs1 Hs2].
      rewrite Hs1 in Hspi. rewrite Hs2 in Hti. simplify_eq.
      destruct (Hiso e' He'n Hne) as [Hr|(y & m & d & Hcy & Hcm & Hcd & Hd)].
      * unfold outside_radius in Hr. rewrite Hr. apply andb_false_r.
      * destruct (sorted_years _ _ _ _ _ _ _ _ Hcy Hcm Hcd Hyd0 Hyd)
          as (a & -> & _ & Ha).
        cbn in Hy, Hyp. apply or_raise_Return in Hy.
        rewrite (Ha _ _ He') in Hy. rewrite (Ha _ _ Hlast) in Hyp. simplify_eq.
        cbn zeta in Hd. by rewrite Hd.
Qed.


(** C3.  [decluster] raises the schema error exactly when the catalogue has
    neither all of the year, month and day columns nor a time column; it
    then returns no clustering at all. *)
Theorem schema_error_iff_no_time_columns :
  forall catalogue config,
    (decluster haversine decimal_year catalogue config = Raise schema_error <->
     (year catalogue = None \/ month catalogue = None \/ day catalogue = None) /\
     time catalogue = None) /\
    (decluster haversine decimal_year catalogue config = Raise schema_error ->
     forall result, decluster haversine decimal_year catalogue config <> Return result).
Proof.
  intros catalogue config. split; [|by intros ->]. split.
  - intros H. unfold decluster in H.
    apply bind_Raise in H as [H|(year_dec0 & _ & H)].
    + unfold year_dec_of in H.
      destruct (year catalogue), (month catalogue), (day catalogue),
        (time catalogue); try done; split; auto.
    + exfalso. cbn [calc] in H.
      assert (index_like schema_error -> False) as Hno.
      { by intros [|[|]]. }
      apply Hno.
      apply bind_Raise in H as [H%fmap_Raise|(? & _ & H)]; [by eapply argsort_raises|].
      do 4 (apply bind_Raise in H as [H|(? & _ & H)]; [by eapply take_raises|]).
      apply bind_Raise in H as [H|(? & _ & H)]; [by eapply ya_take_raises|].
      apply bind_Raise in H as [H|(? & _ & H)]; [by eapply take_raises|].
      apply bind_Raise in H as [H|(? & _ & H)]; [by eapply gk_loop_raises|].
      apply bind_Raise in H as [H|(? & _ & H)]; [by eapply argsort_raises|].
      do 3 (apply bind_Raise in H as [H|(? & _ & H)]; [by eapply take_raises|]).
      done.
  - intros [Hymd Ht]. unfold decluster, year_dec_of. rewrite Ht.
    destruct (year catalogue), (month catalogue), (day catalogue); try done;
      destruct Hymd as [|[|]]; done.
Qed.
End decluster_facts.

Lemma unclustered_events_have_shock_type_0_witness :
  decluster flat_distance spec_decimal_year catalogue3 (config 1)
  = Return ([1; 1; 0]%Z, [0; 1; 0]%Z) /\
  [0; 1; 0]%Z !! 2 = Some 0%Z.
Proof.
  split; [vm_compute; reflexivity|].
  apply (unclustered_events_have_shock_type_0 flat_distance spec_decimal_year
           catalogue3 (config 1) [1; 1; 0]%Z [0; 1; 0]%Z).
  - vm_compute. reflexivity.
  - reflexivity.
Defined.

Lemma no_foreshock_without_backward_window_witness :
  decluster flat_distance spec_decimal_year catalogue3 (config 0)
  = Return ([1; 1; 0]%Z, [0; 1; 0]%Z) /\
  [0; 1; 0]%Z !! 1 <> Some (-1)%Z.
Proof.
  split; [vm_compute; reflexivity|].
  apply (no_foreshock_without_backward_window flat_distance spec_decimal_year
           catalogue3 (config 0) [1; 1; 0]%Z [0; 1; 0]%Z).
  - vm_compute. reflexivity.
  - reflexivity.
Defined.

Lemma smallest_event_never_seeds_witness :
  decluster flat_distance spec_decimal_year catalogue3 (config 1)
  = Return ([1; 1; 0]%Z, [0; 1; 0]%Z) /\
  sort_order (magnitude catalogue3) = Return [0; 1; 2] /\
  outside_radius flat_distance catalogue3 (config 1) 0 2 /\
  outside_radius flat_distance catalogue3 (config 1) 1 2 /\
  [1; 1; 0]%Z !! 2 = Some 0%Z.
Proof.
  split; [vm_compute; reflexivity|]. split; [vm_compute; reflexivity|].
  split; [vm_compute; reflexivity|]. split; [vm_compute; reflexivity|].
  apply (smallest_event_never_seeds flat_distance spec_decimal_year
           catalogue3 (config 1) [1; 1; 0]%Z [0; 1; 0]%Z [0; 1; 2] 2).
  - vm_compute. reflexivity.
  - vm_compute. reflexivity.
  - reflexivity.
  - intros [|[|e']] He' Hne; [left; vm_compute; reflexivity..|].
    cbn in He'. lia.
Defined.

(** C7.  On a catalogue read through its [time] column the engine breaks
    what the claim says, and what it does itself on the year, month and day
    path.  In [timed] the magnitude-4 event of 1990 is the smallest; it is
    visited last, and it lies ten years from both other events, far outside
    their one-year windows.  But the magnitude-6 event, visited first, is
    compared with the year of row 0, which is that 1990 event: the smallest
    event is taken into cluster 1 and does not keep cluster id 0. *)
Theorem smallest_event_clustered_despite_isolation :
  decluster flat_distance spec_decimal_year timed (config 1)
  = Return ([1; 2; 2]%Z, [1; 1; 0]%Z) /\
  sort_order (magnitude timed) = Return [1; 2; 0] /\
  last [1; 2; 0] = Some 0 /\
  (forall e', e' < 3 -> e' <> 0 ->
     outside_duration_by_time timed (config 1) e' 0) /\
  [1; 2; 2]%Z !! 0 <> Some 0%Z.
Proof.
  split; [vm_compute; reflexivity|]. split; [vm_compute; reflexivity|].
  split; [reflexivity|]. split; [|discriminate].
  intros [|[|[|e']]] He' Hne; [done| | |cbn in He'; lia];
    (eexists; split; [reflexivity|]; vm_compute; reflexivity).
Qed.



(** On a catalogue that has only a [time] column, [year_dec] is a Series
    reindexed by the visiting order, and [year_dec[i]] reads the row labelled
    [i], not the event visited at position [i].  The magnitude-6 event of
    [timed], visited first, is compared with the year of row 0: the 1990
    event ends up alone in cluster 1, as an aftershock without a mainshock. *)
Example time_column_reads_row_label :
  decluster flat_distance spec_decimal_year timed (config 1)
  = Return ([1; 2; 2]%Z, [1; 1; 0]%Z).
Proof. vm_compute. reflexivity. Qed.

(** * Permuting the rows of the catalogue *)

Lemma take_total {A} `{!Inhabited A} (a : list A) (idx : list nat) :
  Forall (fun i => i < length a) idx ->
  np.take a idx = Return ((fun i => a !!! i) <$> idx).
Proof.
  intros H. unfold np.take.
  rewrite (mapM_Some_2 _ idx ((fun i => a !!! i) <$> idx)); [done|].
  apply Forall2_fmap_r, Forall_Forall2_diag.
  eapply Forall_impl; [exact H|]. intros i Hi. cbn.
  by apply list_lookup_lookup_total_lt.
Qed.

Lemma Forall_lt_of_Permutation (l : list nat) n :
  Permutation l (seq 0 n) -> Forall (fun i => i < n) l.
Proof.
  intros ->. apply Forall_forall. intros i Hi%elem_of_seq. lia.
Qed.

Lemma StronglySorted_fmap_elem {A B} (f : A -> B) (R1 : relation A) (R2 : relation B) l :
  (forall x y, x ∈ l -> y ∈ l -> R1 x y -> R2 (f x) (f y)) ->
  StronglySorted R1 l -> StronglySorted R2 (f <$> l).
Proof.
  intros HR Hs. induction Hs as [|x l Hs IH Hall]; [constructor|].
  csimpl. constructor.
  - apply IH. intros y z Hy Hz. apply HR; by right.
  - rewrite Forall_fmap. rewrite Forall_forall in Hall. apply Forall_forall.
    intros y Hy. cbn. apply HR; [by left|by right|by apply Hall].
Qed.

Section permute.
Context {A : Type} `{!Inhabited A}.
Implicit Types (sigma idx : list nat) (l : list A).

Lemma length_permute sigma l : length (permute sigma l) = length sigma.
Proof. apply length_fmap. Qed.

Lemma permute_lookup_total sigma l k :
  k < length sigma -> permute sigma l !!! k = l !!! (sigma !!! k).
Proof.
  intros Hk. apply list_lookup_total_correct. unfold permute.
  rewrite list_lookup_fmap, (list_lookup_lookup_total_lt sigma k) by done. done.
Qed.

(** Reading a permuted column at [idx] reads the column at the rows
    [sigma[idx]]. *)
Lemma take_permute sigma l idx :
  Forall (fun i => i < length sigma) idx ->
  Forall (fun j => j < length l) sigma ->
  np.take (permute sigma l) idx = np.take l (permute idx sigma).
Proof.
  intros Hidx Hsigma. rewrite !take_total.
  - f_equal. unfold permute at 2. rewrite <- list_fmap_compose.
    apply list_fmap_ext. intros k i Hi. cbn.
    apply permute_lookup_total. rewrite Forall_forall in Hidx.
    apply Hidx. by eapply list_elem_of_lookup_2.
  - unfold permute. rewrite Forall_fmap. eapply Forall_impl; [exact Hidx|].
    intros i Hi. cbn. rewrite Forall_forall in Hsigma. apply Hsigma.
    apply list_elem_of_lookup_total_2. done.
  - by rewrite length_permute.
Qed.

Lemma fmap_permute {B} `{!Inhabited B} (f : A -> B) sigma l :
  Forall (fun j => j < length l) sigma ->
  f <$> permute sigma l = permute sigma (f <$> l).
Proof.
  intros Hsigma. unfold permute. rewrite <- list_fmap_compose.
  apply list_fmap_ext. intros k j Hj. cbn.
  rewrite Forall_forall in Hsigma.
  symmetry. apply list_lookup_total_correct. rewrite list_lookup_fmap.
  rewrite list_lookup_lookup_total_lt; [done|].
  apply Hsigma. by eapply list_elem_of_lookup_2.
Qed.
End permute.

Lemma bind_Return_l {A B} (a : A) (f : A -> outcome B) : Return a ≫= f = f a.
Proof. reflexivity. Qed.

Lemma take_arange_id (n : nat) (idx : list nat) :
  Forall (fun i => i < n) idx -> np.take (np.arange n) idx = Return idx.
Proof.
  intros H. rewrite take_total.
  - f_equal. rewrite <- (list_fmap_id idx) at 2. apply list_fmap_ext.
    intros k i Hi. cbn. apply list_lookup_total_correct. unfold np.arange.
    apply lookup_seq. rewrite Forall_forall in H. split; [done|].
    apply H. by eapply list_elem_of_lookup_2.
  - unfold np.arange. by rewrite length_seq.
Qed.

Section equivariance.
Variable haversine : Q -> Q -> Q -> Q -> Q.
Variable decimal_year : Z -> Z -> Z -> Q.

(** The steps of [decluster], put together again. *)
Lemma decluster_intro catalogue config yd0 id0 lon lat sws swt yd st id1 ids types :
  year_dec_of decimal_year catalogue = Return yd0 ->
  sort_order (magnitude catalogue) = Return id0 ->
  np.take (longitude catalogue) id0 = Return lon ->
  np.take (latitude catalogue) id0 = Return lat ->
  np.take (calc (time_distance_window config) (magnitude catalogue)
             (time_cutoff config)).1 id0 = Return sws ->
  np.take (calc (time_distance_window config) (magnitude catalogue)
             (time_cutoff config)).2 id0 = Return swt ->
  ya_take yd0 id0 = Return yd ->
  gk_loop haversine lon lat sws swt yd (fs_time_prop config)
    (seq 0 (length (magnitude catalogue) - 1))
    {| cluster_ids := np.zeros (length (magnitude catalogue));
       shock_types := np.zeros (length (magnitude catalogue));
       clust_index := 0 |} = Return st ->
  argsort intp_less id0 = Return id1 ->
  np.take (cluster_ids st) id1 = Return ids ->
  np.take (shock_types st) id1 = Return types ->
  decluster haversine decimal_year catalogue config = Return (ids, types).
Proof.
  intros Hyd0 Hid0 Hlon Hlat Hsws Hswt Hyd Hloop Hid1 Hids Htypes.
  destruct (sort_order_spec _ _ Hid0) as [Hp0 _].
  assert (length id0 = length (magnitude catalogue)) as Hlen0.
  { apply Permutation_length in Hp0. by rewrite length_seq in Hp0. }
  pose proof (argsort_Permutation _ _ _ Hid1) as Hp1.
  unfold decluster. rewrite Hyd0, bind_Return_l. cbn [calc].
  cbn [calc fst snd] in Hsws, Hswt.
  rewrite Hid0, bind_Return_l, Hlon, bind_Return_l, Hlat, bind_Return_l.
  rewrite Hsws, bind_Return_l, Hswt, bind_Return_l, Hyd, bind_Return_l.
  rewrite (take_arange_id _ id0) by (by apply Forall_lt_of_Permutation).
  rewrite bind_Return_l, Hloop, bind_Return_l, Hid1, bind_Return_l.
  rewrite (take_total id0 id1) by (by apply Forall_lt_of_Permutation).
  by rewrite bind_Return_l, Hids, bind_Return_l, Htypes, bind_Return_l.
Qed.

(** With distinct magnitudes the visiting order of the permuted catalogue
    names the same events in the same order. *)
Lemma sort_order_permute magnitude sigma id0 id0' :
  Permutation sigma (seq 0 (length magnitude)) ->
  distinct_magnitudes magnitude ->
  sort_order magnitude = Return id0 ->
  sort_order (permute sigma magnitude) = Return id0' ->
  permute id0' sigma = id0.
Proof.
  intros Hsigma Hd [Hp0 Hs0]%sort_order_spec [Hp0' Hs0']%sort_order_spec.
  assert (length sigma = length magnitude) as Hls.
  { apply Permutation_length in Hsigma. by rewrite length_seq in Hsigma. }
  rewrite length_permute, Hls in Hp0'.
  apply (descending_unique magnitude); try done.
  - unfold permute. rewrite Hp0', <- Hls, fmap_lookup_total_seq. by rewrite Hls.
  - unfold descending in *. unfold permute at 1.
    eapply StronglySorted_fmap_elem; [|exact Hs0'].
    intros x y Hx Hy. cbn. rewrite Hp0' in Hx, Hy.
    apply elem_of_seq in Hx, Hy.
    by rewrite !permute_lookup_total by lia.
Qed.

Lemma decimal_year_array_permute sigma y m d n :
  length y = n -> length m = n -> length d = n ->
  Forall (fun j => j < n) sigma ->
  decimal_year_array decimal_year (permute sigma y) (permute sigma m) (permute sigma d)
  = permute sigma (decimal_year_array decimal_year y m d).
Proof.
  intros Hy Hm Hd Hsigma. apply list_eq. intros k.
  unfold decimal_year_array, permute. rewrite !lookup_zip_with, !list_lookup_fmap.
  destruct (sigma !! k) as [j|] eqn:Hj; [|done]. cbn.
  assert (j < n) as Hjn.
  { rewrite Forall_forall in Hsigma. apply Hsigma. by eapply list_elem_of_lookup_2. }
  f_equal. symmetry. apply list_lookup_total_correct.
  rewrite !lookup_zip_with.
  rewrite (list_lookup_lookup_total_lt y j), (list_lookup_lookup_total_lt m j),
    (list_lookup_lookup_total_lt d j) by lia.
  done.
Qed.

Lemma length_decimal_year_array y m d n :
  length y = n -> length m = n -> length d = n ->
  length (decimal_year_array decimal_year y m d) = n.
Proof.
  intros Hy Hm Hd. unfold decimal_year_array.
  rewrite length_zip_with, length_zip. lia.
Qed.

(** C5, amended.  For a catalogue with year, month and day columns whose
    magnitudes are pairwise distinct, and every permutation of its rows,
    [decluster] on the permuted catalogue returns the arrays it returns on
    the original catalogue, reordered by the same permutation. *)
Theorem decluster_equivariant_for_distinct_magnitudes :
  forall catalogue config sigma ids types y m d,
    year catalogue = Some y -> month catalogue = Some m -> day catalogue = Some d ->
    rectangular catalogue y m d ->
    Permutation sigma (seq 0 (length (magnitude catalogue))) ->
    distinct_magnitudes (magnitude catalogue) ->
    decluster haversine decimal_year catalogue config = Return (ids, types) ->
    decluster haversine decimal_year (permute_rows sigma catalogue) config
    = Return (permute sigma ids, permute sigma types).
Proof.
  intros catalogue config sigma ids types y m d Hcy Hcm Hcd
    (Hllon & Hllat & Hly & Hlm & Hld) Hsigma Hdist Hrun.
  pose proof Hrun as
    (yd0 & id0 & lon & lat & sws & swt & yd & st & Hyd0 & Hid0 & Hlon & Hlat & Hsws
     & Hswt & Hyd & Hloop & Hl1 & Hl2 & Hout)%decluster_run.
  set (n := length (magnitude catalogue)) in *.
  assert (length sigma = n) as Hls.
  { apply Permutation_length in Hsigma. by rewrite length_seq in Hsigma. }
  pose proof (Forall_lt_of_Permutation _ _ Hsigma) as Hsn.
  destruct (sort_order_returns (permute sigma (magnitude catalogue))) as [id0' Hid0'].
  pose proof (sort_order_permute _ _ _ _ Hsigma Hdist Hid0 Hid0') as Hrel.
  destruct (sort_order_spec _ _ Hid0) as [Hp0 _]. fold n in Hp0.
  destruct (sort_order_spec _ _ Hid0') as [Hp0' _].
  rewrite length_permute, Hls in Hp0'.
  pose proof (Forall_lt_of_Permutation _ _ Hp0') as Hid0'n.
  assert (length id0' = n) as Hlid0'.
  { apply Permutation_length in Hp0'. by rewrite length_seq in Hp0'. }
  assert (length id0 = n) as Hlid0.
  { apply Permutation_length in Hp0. by rewrite length_seq in Hp0. }
  destruct (argsort_returns intp_less id0') as [id1' Hid1'].
  destruct (restore_order id0' id1') as [Hp1' Hinv']; [by rewrite Hlid0'|done|].
  rewrite Hlid0' in Hp1'.
  pose proof (Forall_lt_of_Permutation _ _ Hp1') as Hid1'n.
  destruct (gk_loop_shape _ _ _ _ _ _ _ n _ _ _ Hloop) as (HlC & HlS & _).
  { cbn. unfold np.zeros. by rewrite length_replicate. }
  unfold year_dec_of in Hyd0. rewrite Hcy, Hcm, Hcd in Hyd0. injection Hyd0 as <-.
  cbn [calc fst snd] in Hsws, Hswt.
  (* row [sigma[k]] of the original run sits at the position of row [k] *)
  assert (Hpos : forall k p j,
    id1' !! k = Some p -> sigma !! k = Some j -> id0 !! p = Some j).
  { intros k p j Hk Hj.
    destruct (lookup_of_Permutation_seq id0' n k Hp0') as [p' Hp'].
    { apply lookup_lt_Some in Hj. lia. }
    pose proof (Hinv' _ _ Hp') as Hk'. rewrite Hk in Hk'. injection Hk' as ->.
    rewrite <- Hrel. unfold permute. rewrite list_lookup_fmap, Hp'. cbn.
    by rewrite (list_lookup_total_correct _ _ _ Hj). }
  assert (Hread : forall (sorted out : list Z),
    length sorted = n -> length out = n ->
    (forall p e, id0 !! p = Some e -> out !! e = sorted !! p) ->
    np.take sorted id1' = Return (permute sigma out)).
  { intros sorted out Hlso Hlo Hso. rewrite take_total by (by rewrite Hlso).
    f_equal. apply (list_eq_same_length _ _ n).
    - by rewrite length_permute.
    - rewrite length_fmap. apply Permutation_length in Hp1'.
      by rewrite length_seq in Hp1'.
    - intros k x x' Hk. unfold permute. rewrite !list_lookup_fmap.
      destruct (id1' !! k) as [p|] eqn:Hp; [|done].
      destruct (sigma !! k) as [j|] eqn:Hj; [|done]. cbn.
      intros [= <-] [= <-]. specialize (Hso _ _ (Hpos _ _ _ Hp Hj)).
      destruct (lookup_lt_is_Some_2 sorted p) as [v Hv].
      { rewrite Forall_forall in Hid1'n. rewrite Hlso. apply Hid1'n.
        by eapply list_elem_of_lookup_2. }
      rewrite Hv in Hso.
      by rewrite (list_lookup_total_correct _ _ _ Hv),
        (list_lookup_total_correct _ _ _ Hso). }
  apply (decluster_intro (permute_rows sigma catalogue) config
           (NdArray (permute sigma (decimal_year_array decimal_year y m d)))
           id0' lon lat sws swt yd st id1').
  - unfold year_dec_of. cbn [permute_rows year month day].
    rewrite Hcy, Hcm, Hcd. cbn. do 2 f_equal.
    by apply (decimal_year_array_permute sigma y m d n).
  - exact Hid0'.
  - cbn [permute_rows longitude].
    rewrite take_permute, Hrel; [done|by rewrite Hls|by rewrite Hllon].
  - cbn [permute_rows latitude].
    rewrite take_permute, Hrel; [done|by rewrite Hls|by rewrite Hllat].
  - cbn [permute_rows magnitude calc fst].
    change (map ?f ?l) with (f <$> l) in *.
    rewrite fmap_permute by done.
    rewrite take_permute, Hrel; [done|by rewrite Hls|by rewrite length_fmap].
  - cbn [permute_rows magnitude calc snd].
    change (map ?f ?l) with (f <$> l) in *.
    rewrite fmap_permute by done.
    rewrite take_permute, Hrel; [done|by rewrite Hls|by rewrite length_fmap].
  - cbn [ya_take] in *.
    rewrite take_permute, Hrel; [done|by rewrite Hls|].
    by rewrite (length_decimal_year_array y m d n).
  - cbn [permute_rows magnitude]. rewrite length_permute, Hls. exact Hloop.
  - exact Hid1'.
  - apply Hread; [done|lia|]. intros p e Hpe. by destruct (Hout _ _ Hpe) as (? & _).
  - apply Hread; [done|lia|]. intros p e Hpe. by destruct (Hout _ _ Hpe) as (_ & ? & _).
Qed.
End equivariance.

Lemma decluster_equivariant_for_distinct_magnitudes_witness :
  decluster flat_distance spec_decimal_year (permute_rows [2; 0; 1] catalogue3) (config 1)
  = Return (permute [2; 0; 1] [1; 1; 0]%Z, permute [2; 0; 1] [0; 1; 0]%Z).
Proof.
  apply (decluster_equivariant_for_distinct_magnitudes flat_distance spec_decimal_year
           catalogue3 (config 1) [2; 0; 1] [1; 1; 0]%Z [0; 1; 0]%Z
           [2000; 2000; 2000]%Z [1; 1; 1]%Z [1; 2; 1]%Z).
  - reflexivity.
  - reflexivity.
  - reflexivity.
  - repeat split; reflexivity.
  - cbn. apply (perm_trans (l' := [0; 2; 1])); [apply perm_swap|].
    apply perm_skip, perm_swap.
  - intros [|[|[|i]]] [|[|[|j]]] x v; cbn; intros [= <-] [= <-] Hxv;
      first [reflexivity | discriminate Hxv].
  - vm_compute. reflexivity.
Defined.

(** C5 fails as stated: swapping the two rows of a catalogue of two events
    of equal magnitude changes which of them is the mainshock, so the result
    on the swapped catalogue is not the swapped result. *)
Lemma decluster_not_equivariant_counterexample :
  permute_rows [1; 0] twins = twins_swapped /\
  decluster flat_distance spec_decimal_year twins (config 1)
  = Return ([1; 1]%Z, [0; 1]%Z) /\
  decluster flat_distance spec_decimal_year twins_swapped (config 1)
  = Return ([1; 1]%Z, [0; -1]%Z) /\
  decluster flat_distance spec_decimal_year (permute_rows [1; 0] twins) (config 1)
  <> Return (permute [1; 0] [1; 1]%Z, permute [1; 0] [0; 1]%Z).
Proof.
  split; [reflexivity|]. split; [vm_compute; reflexivity|].
  split; [vm_compute; reflexivity|]. vm_compute. discriminate.
Qed.

(** * Further invariants of the clustering pass *)

Lemma any_true (mask : list bool) :
  np.any mask = true <-> exists p, mask_at mask p = true.
Proof.
  unfold np.any, mask_at. rewrite existsb_exists. split.
  - intros (b & Hin & ->). apply list_elem_of_In, list_elem_of_lookup in Hin as [p Hp].
    exists p. by rewrite Hp.
  - intros [p Hp]. destruct (mask !! p) as [b|] eqn:E; [|done]. cbn in Hp. subst b.
    exists true. split; [|done]. apply list_elem_of_In. by eapply list_elem_of_lookup_2.
Qed.

Section pass_more.
Variable haversine : Q -> Q -> Q -> Q -> Q.
Variables (longitude latitude sw_space sw_time : list Q).
Variable year_dec : year_array.
Variable fs_time_prop : Q.

#[local] Abbreviation body :=
  (gk_body haversine longitude latitude sw_space sw_time year_dec fs_time_prop).
#[local] Abbreviation loop :=
  (gk_loop haversine longitude latitude sw_space sw_time year_dec fs_time_prop).
#[local] Abbreviation sel := (select haversine longitude latitude fs_time_prop).

Lemma gk_body_regular n i st st' :
  body i st = Return st' -> regular_state n st -> regular_state n st'.
Proof.
  intros Hb (Hlc & Hls & Hk & Hrange & Htypes).
  pose proof (gk_body_inv _ _ _ _ _ _ _ _ _ _ Hb)
    as [->|(year_i & time_i & lon_i & lat_i & space_i & _ & _ & _ & _ & _ & _ & _ & ->)];
    [done|].
  unfold regular_state. cbn [cluster_ids shock_types clust_index].
  rewrite length_insert, !length_set_mask.
  split; [done|]. split; [done|]. split; [lia|]. split.
  - intros p c. rewrite set_mask_lookup.
    destruct (cluster_ids st !! p) as [c0|] eqn:Hc0; [|done]. cbn.
    intros [= <-]. specialize (Hrange _ _ Hc0).
    match goal with |- context [mask_at ?m p] => destruct (mask_at m p) end; lia.
  - intros p s. rewrite shock_types_lookup.
    destruct (shock_types st !! p) as [s0|] eqn:Hs0; [|done]. cbn.
    intros [= <-]. destruct (decide (p = i)); [auto|].
    repeat match goal with |- context [mask_at ?m p] => destruct (mask_at m p) end;
      eauto.
Qed.

Lemma gk_loop_regular n range st0 st :
  loop range st0 = Return st -> regular_state n st0 -> regular_state n st.
Proof.
  intros Hl H0.
  refine (gk_loop_invariant _ _ _ _ _ _ _ (regular_state n) range _ st0 st H0 Hl).
  intros i s s' _ IH Hb. exact (gk_body_regular n i s s' Hb IH).
Qed.

(** Every new cluster takes in an event other than its seed, and clustered
    events are never touched again. *)
Lemma gk_body_populated n i st st' :
  body i st = Return st' -> regular_state n st ->
  clusters_populated st -> clusters_populated st'.
Proof.
  intros Hb (Hlc & Hls & Hk & Hrange & _) Hpop.
  pose proof (gk_body_inv _ _ _ _ _ _ _ _ _ _ Hb)
    as [->|(year_i & time_i & lon_i & lat_i & space_i & Hci & _ & _ & _ & _ & _ & Hany & ->)];
    [done|].
  unfold clusters_populated. cbn [cluster_ids shock_types clust_index].
  set (dt := time_offsets year_dec year_i) in *.
  set (vsel := sel (cluster_ids st) dt lon_i lat_i space_i time_i) in *.
  intros c Hc. destruct (decide (c = clust_index st + 1)%Z) as [->|Hne].
  - apply any_true in Hany as [p Hp].
    apply mask_at_insert_false in Hp as [Hpi Hp].
    pose proof Hp as [Hc0 _]%select_sound.
    exists p. rewrite set_mask_lookup, Hc0, shock_types_lookup. cbn. rewrite Hp.
    split; [done|].
    destruct (lookup_lt_is_Some_2 (shock_types st) p) as [s0 ->].
    { apply lookup_lt_Some in Hc0. lia. }
    cbn. rewrite decide_False by done.
    match goal with |- context [mask_at ?m p] => destruct (mask_at m p) end; auto.
  - destruct (Hpop c ltac:(lia)) as (p & Hp & Hs).
    assert (mask_at vsel p = false) as Hv.
    { apply not_true_iff_false. intros [Hv _]%select_sound.
      rewrite Hv in Hp. injection Hp as <-. lia. }
    assert (p <> i) as Hpi.
    { intros ->. rewrite Hci in Hp. injection Hp as <-. lia. }
    exists p. rewrite set_mask_lookup, Hp, shock_types_lookup. cbn. rewrite Hv.
    split; [done|].
    assert (forall s, shock_types st !! p = Some s ->
      (fun s0 => if decide (p = i) then 0%Z
         else if mask_at
                   (np.set_mask (<[i:=false]> vsel)
                      (map (fun d => Qle_bool 0 d) dt) false) p
              then (-1)%Z else if false then 1%Z else s0) <$> shock_types st !! p
      = Some s) as Hsame.
    { intros s ->. cbn. rewrite decide_False by done.
      match goal with |- context [mask_at ?m p] => destruct (mask_at m p) eqn:Ht end;
        [|done].
      apply temp_vsel_spec in Ht as (_ & Ht & _). fold vsel in Ht. congruence. }
    destruct Hs as [Hs|Hs]; [left|right]; by apply Hsame.
Qed.

Lemma gk_loop_populated n range st0 st :
  loop range st0 = Return st -> regular_state n st0 ->
  clusters_populated st0 -> clusters_populated st.
Proof.
  intros Hl Hreg Hpop.
  refine (proj2 (gk_loop_invariant _ _ _ _ _ _ _
            (fun st => regular_state n st /\ clusters_populated st)
            range _ st0 st (conj Hreg Hpop) Hl)).
  intros i s s' _ [Hr Hp] Hb. split.
  - exact (gk_body_regular n i s s' Hb Hr).
  - exact (gk_body_populated n i s s' Hb Hr Hp).
Qed.
(** The members a seed takes in pass its window test, and a cluster, once
    formed, never changes. *)
Lemma gk_body_linked n i st st' :
  body i st = Return st' -> regular_state n st ->
  length longitude = n -> length latitude = n -> length (ya_values year_dec) = n ->
  clusters_linked
    (in_window haversine longitude latitude sw_space sw_time year_dec fs_time_prop) st ->
  clusters_linked
    (in_window haversine longitude latitude sw_space sw_time year_dec fs_time_prop) st'.
Proof.
  intros Hb (Hlc & Hls & Hk & Hrange & _) Hllo Hlla Hly Hlink.
  pose proof (gk_body_inv _ _ _ _ _ _ _ _ _ _ Hb)
    as [->|(year_i & time_i & lon_i & lat_i & space_i & Hci & Hyi & Hti & Hloi & Hlai
            & Hspi & _ & ->)];
    [done|].
  unfold clusters_linked. cbn [cluster_ids shock_types clust_index].
  set (dt := time_offsets year_dec year_i) in *.
  set (vsel := sel (cluster_ids st) dt lon_i lat_i space_i time_i) in *.
  assert (length dt = n) as Hldt by (unfold dt, time_offsets; by rewrite length_map).
  intros p q c s Hpq Hp Hc Hq Hsq Hsp.
  rewrite set_mask_lookup in Hp, Hq. rewrite shock_types_lookup in Hsq, Hsp.
  destruct (cluster_ids st !! p) as [cp|] eqn:Hcp; [|done].
  destruct (cluster_ids st !! q) as [cq|] eqn:Hcq; [|done].
  destruct (shock_types st !! p) as [sp|] eqn:Hssp; [|done].
  destruct (shock_types st !! q) as [sq|] eqn:Hssq; [|done].
  cbn in Hp, Hq, Hsq, Hsp.
  injection Hp as Hp. injection Hq as Hq. injection Hsq as Hsq. injection Hsp as Hsp.
  pose proof (Hrange _ _ Hcp) as Hrp. pose proof (Hrange _ _ Hcq) as Hrq.
  destruct (mask_at vsel p) eqn:Hvp.
  - (* [p] joins the new cluster, and so does [q], which is its seed *)
    destruct (mask_at vsel q) eqn:Hvq; [|lia].
    assert (q = i) as ->.
    { destruct (decide (q = i)); [done|]. exfalso.
      destruct (mask_at _ q) in Hsq; lia. }
    rewrite decide_False in Hsp by done.
    pose proof Hvp as (_ & d & Hd & Hlo & Hhi)%select_sound.
    destruct (lookup_lt_is_Some_2 longitude p) as [lo Hlop].
    { apply lookup_lt_Some in Hcp. lia. }
    destruct (lookup_lt_is_Some_2 latitude p) as [la Hlap].
    { apply lookup_lt_Some in Hcp. lia. }
    pose proof Hvp as Hspec. unfold vsel in Hspec.
    rewrite (select_spec haversine longitude latitude fs_time_prop (cluster_ids st) dt
               lon_i lat_i space_i time_i p cp d lo la) in Hspec
      by (done || lia).
    apply andb_true_iff in Hspec as [_ Hdist].
    exists year_i, time_i, lon_i, lat_i, space_i, d, lo, la.
    repeat (split; [done|]). rewrite <- Hsp.
    match goal with |- context [mask_at ?m p] => destruct (mask_at m p) eqn:Ht end.
    + apply temp_vsel_spec in Ht as (_ & _ & Ht). unfold mask_at in Ht.
      change (map ?f ?l) with (f <$> l) in Ht. rewrite list_lookup_fmap, Hd in Ht.
      cbn in Ht. by rewrite Ht.
    + destruct (Qle_bool 0 d) eqn:Hd0; [done|]. exfalso.
      apply not_true_iff_false in Ht. apply Ht, temp_vsel_spec.
      split; [done|]. split; [done|]. unfold mask_at.
      change (map ?f ?l) with (f <$> l). by rewrite list_lookup_fmap, Hd.
  - (* [p] is left alone, and with it its whole cluster *)
    destruct (mask_at vsel q) eqn:Hvq; [lia|]. subst cp cq.
    assert (q <> i) as Hqi by (intros ->; rewrite Hci in Hcq; congruence).
    assert (p <> i) as Hpi by (intros ->; rewrite Hci in Hcp; congruence).
    rewrite decide_False in Hsq by done. rewrite decide_False in Hsp by done.
    assert (forall r (x y : Z), mask_at vsel r = false ->
      (if mask_at
            (np.set_mask (<[i:=false]> vsel) (map (fun d => Qle_bool 0 d) dt) false) r
       then (-1)%Z else x) = y -> x = y) as Hsame.
    { intros r x y Hr.
      match goal with |- context [mask_at ?m r] => destruct (mask_at m r) eqn:Ht end;
        [|done].
      apply temp_vsel_spec in Ht as (_ & Ht & _). congruence. }
    apply Hsame in Hsq; [|done]. apply Hsame in Hsp; [|done]. subst sq sp.
    by eapply (Hlink p q c s).
Qed.

Lemma gk_loop_linked n range st0 st :
  loop range st0 = Return st -> regular_state n st0 ->
  length longitude = n -> length latitude = n -> length (ya_values year_dec) = n ->
  clusters_linked
    (in_window haversine longitude latitude sw_space sw_time year_dec fs_time_prop) st0 ->
  clusters_linked
    (in_window haversine longitude latitude sw_space sw_time year_dec fs_time_prop) st.
Proof.
  intros Hl Hreg Hllo Hlla Hly Hlink.
  refine (proj2 (gk_loop_invariant _ _ _ _ _ _ _
            (fun st => regular_state n st /\ clusters_linked _ st)
            range _ st0 st (conj Hreg Hlink) Hl)).
  intros i s s' _ [Hr Hp] Hb. split.
  - exact (gk_body_regular n i s s' Hb Hr).
  - exact (gk_body_linked n i s s' Hb Hr Hllo Hlla Hly Hp).
Qed.
(** A position stays unclustered when no other seed's window reaches it and
    its own window, when it is the seed, reaches no other position. *)
Lemma gk_body_secluded n i st st' p :
  body i st = Return st' ->
  length (cluster_ids st) = n ->
  length longitude = n -> length latitude = n -> length (ya_values year_dec) = n ->
  cluster_ids st !! p = Some 0%Z ->
  (forall q, q <> i -> q = p \/ i = p ->
   forall year_i time_i lon_i lat_i space_i y_q lo_q la_q,
     ya_getitem year_dec i = Return year_i -> sw_time !! i = Some time_i ->
     longitude !! i = Some lon_i -> latitude !! i = Some lat_i ->
     sw_space !! i = Some space_i ->
     ya_values year_dec !! q = Some y_q ->
     longitude !! q = Some lo_q -> latitude !! q = Some la_q ->
     Qle_bool (- time_i * fs_time_prop) (y_q - year_i)
     && Qle_bool (y_q - year_i) time_i
     && Qle_bool (haversine lo_q la_q lon_i lat_i) space_i = false) ->
  cluster_ids st' !! p = Some 0%Z.
Proof.
  intros Hb Hlc Hllon Hllat Hlyd Hp Hout.
  destruct (decide (i = p)) as [->|Hip].
  - pose proof (gk_body_inv _ _ _ _ _ _ _ _ _ _ Hb)
      as [->|(year_i & time_i & lon_i & lat_i & space_i & _ & Hy & Ht & Hlo & Hla & Hsp
              & Hany & _)];
      [done|exfalso].
    apply any_true in Hany as [q Hq]. apply mask_at_insert_false in Hq as [Hqp Hq].
    pose proof Hq as (Hcq & d & Hd & _)%select_sound.
    pose proof (lookup_lt_Some _ _ _ Hcq) as Hqn.
    destruct (lookup_lt_is_Some_2 longitude q) as [lo_q Hloq]; [lia|].
    destruct (lookup_lt_is_Some_2 latitude q) as [la_q Hlaq]; [lia|].
    destruct (lookup_lt_is_Some_2 (ya_values year_dec) q) as [y_q Hyq]; [lia|].
    rewrite (select_spec haversine longitude latitude fs_time_prop (cluster_ids st) _
               lon_i lat_i space_i time_i q 0%Z (y_q - year_i)%Q lo_q la_q) in Hq;
      try done; try lia.
    + cbn [Z.eqb andb] in Hq.
      rewrite (Hout q Hqp (or_intror eq_refl) _ _ _ _ _ _ _ _
                 Hy Ht Hlo Hla Hsp Hyq Hloq Hlaq) in Hq.
      done.
    + unfold time_offsets. rewrite length_map. lia.
    + unfold time_offsets. change (map ?f ?l) with (f <$> l).
      by rewrite list_lookup_fmap, Hyq.
  - apply (gk_body_isolated haversine longitude latitude sw_space sw_time year_dec
             fs_time_prop n i st st' p Hb); try done.
    apply Hout; [done|by left].
Qed.

Lemma gk_loop_secluded n range st0 st p :
  loop range st0 = Return st ->
  length (cluster_ids st0) = n /\ length (shock_types st0) = n /\ (0 <= clust_index st0)%Z ->
  length longitude = n -> length latitude = n -> length (ya_values year_dec) = n ->
  cluster_ids st0 !! p = Some 0%Z ->
  (forall i q, i ∈ range -> q <> i -> q = p \/ i = p ->
   forall year_i time_i lon_i lat_i space_i y_q lo_q la_q,
     ya_getitem year_dec i = Return year_i -> sw_time !! i = Some time_i ->
     longitude !! i = Some lon_i -> latitude !! i = Some lat_i ->
     sw_space !! i = Some space_i ->
     ya_values year_dec !! q = Some y_q ->
     longitude !! q = Some lo_q -> latitude !! q = Some la_q ->
     Qle_bool (- time_i * fs_time_prop) (y_q - year_i)
     && Qle_bool (y_q - year_i) time_i
     && Qle_bool (haversine lo_q la_q lon_i lat_i) space_i = false) ->
  cluster_ids st !! p = Some 0%Z.
Proof.
  intros Hl Hshape Hllon Hllat Hlyd Hp Hout.
  refine (proj2 (gk_loop_invariant _ _ _ _ _ _ _
           (fun st => (length (cluster_ids st) = n /\ length (shock_types st) = n /\
                       (0 <= clust_index st)%Z) /\
                      cluster_ids st !! p = Some 0%Z)
           range _ st0 st (conj Hshape Hp) Hl)).
  intros i s s' Hi [Hsh Hps] Hb. split.
  - exact (gk_body_shape _ _ _ _ _ _ _ n i s s' Hb Hsh).
  - apply (gk_body_secluded n i s s' p Hb); try done; [by destruct Hsh|].
    intros q. by apply Hout.
Qed.

(** An iteration within the arrays raises nothing. *)
Lemma gk_body_returns n i st :
  i < n -> length (cluster_ids st) = n ->
  length longitude = n -> length latitude = n ->
  length sw_space = n -> length sw_time = n ->
  (exists y, ya_getitem year_dec i = Return y) ->
  exists st', body i st = Return st'.
Proof.
  intros Hi Hlc Hllo Hlla Hlsp Hlti [y Hy]. unfold gk_body, np.getitem.
  destruct (lookup_lt_is_Some_2 (cluster_ids st) i) as [c ->]; [lia|].
  destruct (lookup_lt_is_Some_2 longitude i) as [lo ->]; [lia|].
  destruct (lookup_lt_is_Some_2 latitude i) as [la ->]; [lia|].
  destruct (lookup_lt_is_Some_2 sw_space i) as [sp ->]; [lia|].
  destruct (lookup_lt_is_Some_2 sw_time i) as [ti ->]; [lia|].
  rewrite Hy. cbn.
  destruct (c =? 0)%Z; [|by eexists].
  match goal with |- context [np.any ?m] => destruct (np.any m) end; by eexists.
Qed.

Lemma gk_loop_returns n range st0 :
  Forall (fun i => i < n) range -> length (cluster_ids st0) = n ->
  length (shock_types st0) = n -> (0 <= clust_index st0)%Z ->
  length longitude = n -> length latitude = n ->
  length sw_space = n -> length sw_time = n ->
  (forall i, i < n -> exists y, ya_getitem year_dec i = Return y) ->
  exists st, loop range st0 = Return st.
Proof.
  intros Hrange Hlc Hls Hk Hllo Hlla Hlsp Hlti Hy. revert st0 Hlc Hls Hk.
  induction Hrange as [|i range Hi _ IH]; intros st0 Hlc Hls Hk; [by eexists|].
  destruct (gk_body_returns n i st0) as [st1 Hb]; try done; [by apply Hy|].
  cbn [gk_loop]. rewrite Hb. cbn.
  destruct (gk_body_shape _ _ _ _ _ _ _ n i st0 st1 Hb) as (? & ? & ?); [done|].
  by apply IH.
Qed.
(** A seed whose window holds another unclustered position forms a
    cluster. *)
Lemma gk_body_forms i st year_i time_i lon_i lat_i space_i :
  cluster_ids st !! i = Some 0%Z ->
  ya_getitem year_dec i = Return year_i -> sw_time !! i = Some time_i ->
  longitude !! i = Some lon_i -> latitude !! i = Some lat_i ->
  sw_space !! i = Some space_i ->
  let dt := time_offsets year_dec year_i in
  let vsel := sel (cluster_ids st) dt lon_i lat_i space_i time_i in
  np.any (<[i := false]> vsel) = true ->
  body i st
  = Return {| cluster_ids := np.set_mask (cluster_ids st) vsel (clust_index st + 1)%Z;
              shock_types :=
                <[i := 0%Z]>
                  (np.set_mask (np.set_mask (shock_types st) vsel 1%Z)
                     (np.set_mask (<[i := false]> vsel)
                        (map (fun d => Qle_bool 0 d) dt) false) (-1)%Z);
              clust_index := (clust_index st + 1)%Z |}.
Proof.
  intros Hc Hy Ht Hlo Hla Hsp dt vsel Hany. unfold gk_body, np.getitem.
  rewrite Hc, Hy, Ht, Hlo, Hla, Hsp. cbn. fold dt. fold vsel. by rewrite Hany.
Qed.

(** Once the counter has passed 1, cluster 1 neither gains nor loses a
    member. *)
Lemma gk_body_first_cluster (ref : list Z) i st st' :
  body i st = Return st' ->
  (1 <= clust_index st)%Z /\
  (forall p, cluster_ids st !! p = Some 1%Z <-> ref !! p = Some 1%Z) ->
  (1 <= clust_index st')%Z /\
  (forall p, cluster_ids st' !! p = Some 1%Z <-> ref !! p = Some 1%Z).
Proof.
  intros Hb [Hk Href].
  pose proof (gk_body_inv _ _ _ _ _ _ _ _ _ _ Hb)
    as [->|(year_i & time_i & lon_i & lat_i & space_i & _ & _ & _ & _ & _ & _ & _ & ->)];
    [done|].
  cbn [cluster_ids clust_index]. split; [lia|]. intros p.
  rewrite <- Href, set_mask_lookup.
  match goal with |- context [mask_at ?m p] => destruct (mask_at m p) eqn:Hv end.
  - apply select_sound in Hv as [-> _]. cbn. split; intros [=]. lia.
  - by destruct (cluster_ids st !! p).
Qed.

Lemma gk_loop_first_cluster (ref : list Z) range st0 st :
  loop range st0 = Return st ->
  (1 <= clust_index st0)%Z ->
  (forall p, cluster_ids st0 !! p = Some 1%Z <-> ref !! p = Some 1%Z) ->
  forall p, cluster_ids st !! p = Some 1%Z <-> ref !! p = Some 1%Z.
Proof.
  intros Hl Hk Href.
  refine (proj2 (gk_loop_invariant _ _ _ _ _ _ _
            (fun st => (1 <= clust_index st)%Z /\
               forall p, cluster_ids st !! p = Some 1%Z <-> ref !! p = Some 1%Z)
            range _ st0 st (conj Hk Href) Hl)).
  intros i s s' _ IH Hb. exact (gk_body_first_cluster ref i s s' Hb IH).
Qed.
End pass_more.

(** The counter grows by at most one per iteration. *)
Lemma gk_loop_counter_bound haversine lon lat sws swt yd fs range st0 st :
  gk_loop haversine lon lat sws swt yd fs range st0 = Return st ->
  (clust_index st <= clust_index st0 + Z.of_nat (length range))%Z.
Proof.
  revert st0. induction range as [|i range IH]; intros st0 Hl.
  - injection Hl as <-. cbn. lia.
  - cbn [gk_loop] in Hl. apply bind_Return in Hl as (st1 & Hb & Hl).
    specialize (IH _ Hl). cbn [length].
    pose proof (gk_body_inv _ _ _ _ _ _ _ _ _ _ Hb)
      as [->|(? & ? & ? & ? & ? & _ & _ & _ & _ & _ & _ & _ & ->)]; cbn in *; lia.
Qed.

(** ** Reading the decimal years *)

Lemma get_loc_arange n e : e < n -> pd.get_loc (np.arange n) e = Some e.
Proof.
  intros He. unfold pd.get_loc, np.arange.
  assert (list_find (fun l => l = e) (seq 0 n) = Some (e, e)) as ->; [|done].
  apply list_find_Some. split; [by apply lookup_seq|]. split; [done|].
  intros j y [-> _]%lookup_seq Hj. cbn. lia.
Qed.

Lemma get_loc_Permutation idx n i :
  Permutation idx (seq 0 n) -> i < n ->
  exists p, pd.get_loc idx i = Some p /\ p < n /\ idx !! p = Some i.
Proof.
  intros Hp Hi. unfold pd.get_loc.
  destruct (list_find_elem_of (fun l => l = i) idx i) as [[p x] Hf]; [|done|].
  { rewrite Hp. apply elem_of_seq. lia. }
  rewrite Hf. exists p. split; [done|].
  apply list_find_Some in Hf as (Hl & -> & _). split; [|done].
  apply lookup_lt_Some in Hl.
  apply Permutation_length in Hp. rewrite length_seq in Hp. lia.
Qed.

(** The decimal years of a full-length column can be put in any order of
    the rows and then read at every position. *)
Lemma year_array_ready year_dec0 id0 n :
  Permutation id0 (seq 0 n) ->
  length (ya_values year_dec0) = n ->
  (forall s, year_dec0 = PdSeries s -> pd.index s = np.arange n) ->
  exists year_dec, ya_take year_dec0 id0 = Return year_dec /\
    forall i, i < n -> exists y, ya_getitem year_dec i = Return y.
Proof.
  intros Hp Hlen Hidx.
  assert (length id0 = n) as Hn.
  { apply Permutation_length in Hp. by rewrite length_seq in Hp. }
  destruct year_dec0 as [a|s]; cbn [ya_take ya_values] in *.
  - rewrite take_total by (rewrite Hlen; by apply Forall_lt_of_Permutation).
    eexists. split; [done|]. intros i Hi. cbn. unfold np.getitem.
    destruct (lookup_lt_is_Some_2 ((fun k => a !!! k) <$> id0) i) as [y ->];
      [|by eexists].
    rewrite length_fmap. lia.
  - specialize (Hidx s eq_refl). unfold pd.take.
    destruct (mapM (pd.lookup_label s) id0) as [vals|] eqn:Hm.
    + cbn. eexists. split; [done|]. intros i Hi.
      destruct (get_loc_Permutation id0 n i Hp Hi) as (p & Hg & Hpn & _).
      unfold ya_getitem, pd.getitem, pd.lookup_label.
      cbn [pd.index pd.values]. rewrite Hg. cbn.
      destruct (lookup_lt_is_Some_2 vals p) as [y ->]; [|by eexists].
      apply mapM_Some, Forall2_length in Hm. lia.
    + exfalso. assert (is_Some (mapM (pd.lookup_label s) id0)) as [? ?]; [|congruence].
      apply mapM_is_Some, Forall_forall. intros e He. cbn.
      rewrite Hp in He. apply elem_of_seq in He.
      unfold pd.lookup_label. rewrite Hidx, get_loc_arange by lia. cbn.
      apply lookup_lt_is_Some_2. lia.
Qed.

(** X8.  On a catalogue read through its [time] column the decimal years are a
    Series that keeps its row labels when it is put in the visiting order
    [id0].  Position [i] of its values then holds the year of the event
    visited at position [i], row [id0[i]], but [year_dec[i]], an integer key
    on a Series, reads the entry labelled [i]: the year of row [i] of the
    catalogue. *)
Theorem time_series_is_read_by_row_label :
  forall (vals : list Q) (id0 : list nat) (year_dec : year_array) (i : nat),
    Permutation id0 (seq 0 (length vals)) ->
    ya_take (PdSeries (pd.of_column vals)) id0 = Return year_dec ->
    i < length vals ->
    ya_values year_dec !! i = Some (vals !!! (id0 !!! i)) /\
    ya_getitem year_dec i = Return (vals !!! i).
Proof.
  intros vals id0 year_dec i Hp Htake Hi.
  assert (length id0 = length vals) as Hn.
  { apply Permutation_length in Hp. by rewrite length_seq in Hp. }
  assert (Hlabel : forall e, e < length vals ->
            pd.lookup_label (pd.of_column vals) e = Some (vals !!! e)).
  { intros e He. unfold pd.lookup_label, pd.of_column. cbn [pd.index pd.values].
    rewrite get_loc_arange by done. cbn. by apply list_lookup_lookup_total_lt. }
  assert (Hrow : forall k e, id0 !! k = Some e -> e < length vals).
  { intros k e He. apply list_elem_of_lookup_2 in He. rewrite Hp in He.
    apply elem_of_seq in He. lia. }
  cbn [ya_take] in Htake. apply fmap_Return in Htake as (s & Hs & ->).
  unfold pd.take in Hs.
  apply bind_Return in Hs as (vals' & Hv%or_raise_Return%mapM_Some & [= <-]).
  assert (Hat : forall k e, id0 !! k = Some e -> vals' !! k = Some (vals !!! e)).
  { intros k e He. destruct (Forall2_lookup_l _ _ _ _ _ Hv He) as (v & -> & Hl).
    rewrite Hlabel in Hl by (by eapply Hrow). done. }
  split.
  - cbn [ya_values pd.values].
    destruct (lookup_lt_is_Some_2 id0 i) as [e He]; [lia|].
    rewrite (list_lookup_total_correct _ _ _ He). by apply Hat.
  - destruct (get_loc_Permutation id0 _ i Hp Hi) as (p & Hg & _ & Hpi).
    unfold ya_getitem, pd.getitem, pd.lookup_label.
    cbn [pd.index pd.values]. rewrite Hg. cbn. by rewrite (Hat _ _ Hpi).
Qed.

Lemma time_series_is_read_by_row_label_witness :
  ya_take (PdSeries (pd.of_column [1990; 2000; 2001]%Q)) [1; 2; 0]
  = Return (PdSeries {| pd.index := [1; 2; 0]; pd.values := [2000; 2001; 1990]%Q |}) /\
  ya_values (PdSeries {| pd.index := [1; 2; 0]; pd.values := [2000; 2001; 1990]%Q |}) !! 0
  = Some ([1990; 2000; 2001]%Q !!! ([1; 2; 0] !!! 0)) /\
  ya_getitem (PdSeries {| pd.index := [1; 2; 0]; pd.values := [2000; 2001; 1990]%Q |}) 0
  = Return ([1990; 2000; 2001]%Q !!! 0).
Proof.
  split; [reflexivity|].
  apply (time_series_is_read_by_row_label [1990; 2000; 2001]%Q [1; 2; 0]
           (PdSeries {| pd.index := [1; 2; 0]; pd.values := [2000; 2001; 1990]%Q |}) 0).
  - cbn. apply (perm_trans (l' := [1; 0; 2])); [apply perm_skip, perm_swap|].
    apply perm_swap.
  - reflexivity.
  - cbn. lia.
Defined.

(** * Further properties of [decluster] *)

Section decluster_more.
Variable haversine : Q -> Q -> Q -> Q -> Q.
Variable decimal_year : Z -> Z -> Z -> Q.

(** What a returning call went through: the sorted arrays, the final state
    of the pass with its invariants, and the way back to catalogue order. *)
Lemma decluster_pass catalogue config ids types :
  decluster haversine decimal_year catalogue config = Return (ids, types) ->
  let n := length (magnitude catalogue) in
  exists year_dec0 id0 lon lat sws swt year_dec st,
    year_dec_of decimal_year catalogue = Return year_dec0 /\
    Permutation id0 (seq 0 n) /\
    np.take (longitude catalogue) id0 = Return lon /\
    np.take (latitude catalogue) id0 = Return lat /\
    np.take (calc (time_distance_window config) (magnitude catalogue)
               (time_cutoff config)).1 id0 = Return sws /\
    np.take (calc (time_distance_window config) (magnitude catalogue)
               (time_cutoff config)).2 id0 = Return swt /\
    ya_take year_dec0 id0 = Return year_dec /\
    regular_state n st /\ (clust_index st <= Z.of_nat (n - 1))%Z /\
    clusters_populated st /\
    clusters_linked
      (in_window haversine lon lat sws swt year_dec (fs_time_prop config)) st /\
    length ids = n /\ length types = n /\
    (forall e, e < n -> exists p, id0 !! p = Some e) /\
    forall p e, id0 !! p = Some e ->
      ids !! e = cluster_ids st !! p /\ types !! e = shock_types st !! p.
Proof.
  intros (yd0 & id0 & lon & lat & sws & swt & yd & st & Hyd0 & Hid0 & Hlon & Hlat & Hsws
     & Hswt & Hyd & Hloop & Hl1 & Hl2 & Hout)%decluster_run n.
  destruct (sort_order_spec _ _ Hid0) as [Hp0 _]. fold n in Hp0.
  assert (length id0 = n) as Hn.
  { apply Permutation_length in Hp0. by rewrite length_seq in Hp0. }
  assert (length (np.zeros n) = n) as Hz by apply length_replicate.
  set (init := {| cluster_ids := np.zeros n; shock_types := np.zeros n;
                  clust_index := 0 |}) in *.
  assert (regular_state n init) as Hreg.
  { unfold regular_state. cbn. repeat (split; [done|]). split.
    - intros p c ->%zeros_lookup. lia.
    - intros p s ->%zeros_lookup. auto. }
  exists yd0, id0, lon, lat, sws, swt, yd, st.
  repeat (split; [done|]). split; [by eapply gk_loop_regular|]. split.
  { pose proof (gk_loop_counter_bound _ _ _ _ _ _ _ _ _ _ Hloop) as Hb.
    rewrite length_seq in Hb. cbn in Hb. lia. }
  split.
  { eapply gk_loop_populated; [exact Hloop|exact Hreg|].
    intros c. cbn. lia. }
  split.
  { eapply gk_loop_linked; [exact Hloop|exact Hreg|..].
    - destruct (take_Return _ _ _ Hlon). lia.
    - destruct (take_Return _ _ _ Hlat). lia.
    - rewrite (length_ya_take _ _ _ Hyd). lia.
    - intros p q c s _ Hc%zeros_lookup. done. }
  split; [lia|]. split; [lia|]. split.
  - intros e He. by apply (lookup_of_Permutation_seq id0 n e).
  - intros p e Hp. destruct (Hout p e Hp) as (? & ? & _). done.
Qed.
(** X1.  Whenever [decluster] returns, both arrays have one entry per row of the
    catalogue, every cluster id lies between 0 and the number of iterations
    of the pass, and every shock type is -1, 0 or 1. *)
Theorem decluster_output_ranges :
  forall catalogue config ids types,
    decluster haversine decimal_year catalogue config = Return (ids, types) ->
    length ids = length (magnitude catalogue) /\
    length types = length (magnitude catalogue) /\
    (forall e c, ids !! e = Some c ->
       (0 <= c <= Z.of_nat (length (magnitude catalogue) - 1))%Z) /\
    (forall e s, types !! e = Some s -> s = (-1)%Z \/ s = 0%Z \/ s = 1%Z).
Proof.
  intros catalogue config ids types H.
  destruct (decluster_pass _ _ _ _ H)
    as (yd0 & id0 & lon & lat & sws & swt & yd & st & _ & _ & _ & _ & _ & _ & _
        & (_ & _ & _ & Hrange & Htypes) & Hk & _ & _ & Hl1 & Hl2 & Hrow & Hout).
  repeat (split; [done|]). split.
  - intros e c He. destruct (Hrow e) as [p Hp].
    { apply lookup_lt_Some in He. lia. }
    destruct (Hout _ _ Hp) as [Hi _]. rewrite Hi in He.
    specialize (Hrange _ _ He). lia.
  - intros e s He. destruct (Hrow e) as [p Hp].
    { apply lookup_lt_Some in He. lia. }
    destruct (Hout _ _ Hp) as [_ Ht]. rewrite Ht in He. by eapply Htypes.
Qed.

(** X2.  Whenever [decluster] returns, the cluster ids in use are numbered without
    gaps from 1, and every cluster has a member that is a foreshock or an
    aftershock. *)
Theorem clusters_numbered_without_gaps :
  forall catalogue config ids types c,
    decluster haversine decimal_year catalogue config = Return (ids, types) ->
    c ∈ ids ->
    forall c', (1 <= c' <= c)%Z ->
      exists e, ids !! e = Some c' /\
        (types !! e = Some 1%Z \/ types !! e = Some (-1)%Z).
Proof.
  intros catalogue config ids types c H Hin c' Hc'.
  destruct (decluster_pass _ _ _ _ H)
    as (yd0 & id0 & lon & lat & sws & swt & yd & st & _ & Hp0 & _ & _ & _ & _ & _
        & (Hlc & _ & _ & Hrange & _) & _ & Hpop & _ & Hl1 & Hl2 & Hrow & Hout).
  apply list_elem_of_lookup in Hin as [e1 He1].
  destruct (Hrow e1) as [p1 Hp1]; [apply lookup_lt_Some in He1; lia|].
  destruct (Hout _ _ Hp1) as [Hi1 _]. rewrite Hi1 in He1.
  specialize (Hrange _ _ He1).
  destruct (Hpop c') as (p & Hp & Hs); [lia|].
  destruct (lookup_lt_is_Some_2 id0 p) as [e He].
  { apply lookup_lt_Some in Hp. apply Permutation_length in Hp0.
    rewrite length_seq in Hp0. lia. }
  exists e. destruct (Hout _ _ He) as [-> ->]. done.
Qed.

(** X3.  Whenever [decluster] returns, an event that shares a cluster with an
    event of shock type 0 is itself a foreshock or an aftershock, and lies
    within the space window of that event: a cluster has at most one
    mainshock, and all its other members are within the mainshock's
    radius. *)
Theorem members_within_mainshock_radius :
  forall catalogue config ids types e e' c,
    decluster haversine decimal_year catalogue config = Return (ids, types) ->
    e <> e' -> c <> 0%Z ->
    ids !! e = Some c -> ids !! e' = Some c -> types !! e' = Some 0%Z ->
    (types !! e = Some 1%Z \/ types !! e = Some (-1)%Z) /\
    Qle_bool
      (haversine (longitude catalogue !!! e) (latitude catalogue !!! e)
         (longitude catalogue !!! e') (latitude catalogue !!! e'))
      (space_window config catalogue e') = true.
Proof.
  intros catalogue config ids types e e' c H Hne Hc He He' Ht'.
  destruct (decluster_pass _ _ _ _ H)
    as (yd0 & id0 & lon & lat & sws & swt & yd & st & _ & Hp0 & Hlon & Hlat & Hsws
        & Hswt & _ & (_ & Hls & _) & _ & _ & Hlink & Hl1 & Hl2 & Hrow & Hout).
  destruct (Hrow e) as [p Hp]; [apply lookup_lt_Some in He; lia|].
  destruct (Hrow e') as [p' Hp']; [apply lookup_lt_Some in He'; lia|].
  destruct (Hout _ _ Hp) as [Hi Ht]. destruct (Hout _ _ Hp') as [Hi' Hti'].
  rewrite Hi in He. rewrite Hi' in He'. rewrite Hti' in Ht'.
  destruct (lookup_lt_is_Some_2 (shock_types st) p) as [s Hs].
  { apply lookup_lt_Some in He. apply lookup_lt_Some in Hp.
    apply Permutation_length in Hp0. rewrite length_seq in Hp0. lia. }
  assert (p <> p') as Hpp by (intros ->; congruence).
  destruct (Hlink p p' c s Hpp He Hc He' Ht' Hs)
    as (year_q & time_q & lon_q & lat_q & space_q & d & lo & la & _ & _ & Hloq & Hlaq
        & Hspq & _ & Hlo & Hla & _ & _ & Hdist & ->).
  rewrite (take_lookup_total _ _ _ _ _ Hlon Hp') in Hloq.
  rewrite (take_lookup_total _ _ _ _ _ Hlat Hp') in Hlaq.
  rewrite (take_lookup_total _ _ _ _ _ Hlon Hp) in Hlo.
  rewrite (take_lookup_total _ _ _ _ _ Hlat Hp) in Hla.
  destruct (sorted_windows _ _ _ _ _ _ _ Hsws Hswt Hp') as [Hs1 _].
  rewrite Hs1 in Hspq. simplify_eq. split; [|done].
  rewrite Ht, Hs. destruct (Qle_bool 0 d); auto.
Qed.

(** X4.  For a catalogue with year, month and day columns: whenever [decluster]
    returns, an event that shares a cluster with an event of shock type 0
    lies within the time window of that event, no more than [fs_time_prop]
    times the window before it and no more than the window after it; it is
    an aftershock (1) when it is not earlier than that event and a foreshock
    (-1) when it is earlier. *)
Theorem members_within_mainshock_duration :
  forall catalogue config ids types y m d e e' c,
    year catalogue = Some y -> month catalogue = Some m -> day catalogue = Some d ->
    decluster haversine decimal_year catalogue config = Return (ids, types) ->
    e <> e' -> c <> 0%Z ->
    ids !! e = Some c -> ids !! e' = Some c -> types !! e' = Some 0%Z ->
    let dt := (event_year decimal_year y m d e - event_year decimal_year y m d e')%Q in
    Qle_bool (- time_window config catalogue e' * fs_time_prop config) dt = true /\
    Qle_bool dt (time_window config catalogue e') = true /\
    types !! e = Some (if Qle_bool 0 dt then 1%Z else (-1)%Z).
Proof.
  intros catalogue config ids types y m d e e' c Hcy Hcm Hcd H Hne Hc He He' Ht'.
  destruct (decluster_pass _ _ _ _ H)
    as (yd0 & id0 & lon & lat & sws & swt & yd & st & Hyd0 & Hp0 & _ & _ & Hsws
        & Hswt & Hyd & (_ & Hls & _) & _ & _ & Hlink & Hl1 & Hl2 & Hrow & Hout).
  destruct (Hrow e) as [p Hp]; [apply lookup_lt_Some in He; lia|].
  destruct (Hrow e') as [p' Hp']; [apply lookup_lt_Some in He'; lia|].
  destruct (Hout _ _ Hp) as [Hi Ht]. destruct (Hout _ _ Hp') as [Hi' Hti'].
  rewrite Hi in He. rewrite Hi' in He'. rewrite Hti' in Ht'.
  destruct (lookup_lt_is_Some_2 (shock_types st) p) as [s Hs].
  { apply lookup_lt_Some in He. apply lookup_lt_Some in Hp.
    apply Permutation_length in Hp0. rewrite length_seq in Hp0. lia. }
  assert (p <> p') as Hpp by (intros ->; congruence).
  destruct (Hlink p p' c s Hpp He Hc He' Ht' Hs)
    as (year_q & time_q & lon_q & lat_q & space_q & dq & lo & la & Hyq & Htq & _ & _
        & _ & Hdq & _ & _ & Hlow & Hhigh & _ & ->).
  destruct (sorted_years _ _ _ _ _ _ _ _ Hcy Hcm Hcd Hyd0 Hyd) as (a & -> & _ & Ha).
  cbn in Hyq. apply or_raise_Return in Hyq. rewrite (Ha _ _ Hp') in Hyq.
  unfold time_offsets in Hdq. cbn [ya_values] in Hdq.
  change (map ?f ?l) with (f <$> l) in Hdq.
  rewrite list_lookup_fmap, (Ha _ _ Hp) in Hdq. cbn in Hdq.
  destruct (sorted_windows _ _ _ _ _ _ _ Hsws Hswt Hp') as [_ Hs2].
  rewrite Hs2 in Htq. simplify_eq. cbn zeta. rewrite Ht, Hs. done.
Qed.
(** X5.  Whenever [decluster] returns, an event that lies outside the window of
    every other event, and whose own window contains no other event, in
    space or (for a catalogue with year, month and day columns) in time,
    has cluster id 0 and shock type 0. *)
Theorem secluded_event_stays_unclustered :
  forall catalogue config ids types e,
    decluster haversine decimal_year catalogue config = Return (ids, types) ->
    e < length (magnitude catalogue) ->
    (forall e', e' < length (magnitude catalogue) -> e' <> e ->
       (outside_radius haversine catalogue config e' e \/
        outside_duration decimal_year catalogue config e' e) /\
       (outside_radius haversine catalogue config e e' \/
        outside_duration decimal_year catalogue config e e')) ->
    ids !! e = Some 0%Z /\ types !! e = Some 0%Z.
Proof.
  intros catalogue config ids types e
    (yd0 & id0 & lon & lat & sws & swt & yd & st & Hyd0 & Hid0 & Hlon & Hlat & Hsws
     & Hswt & Hyd & Hloop & Hl1 & Hl2 & Hout)%decluster_run Hen Hiso.
  set (n := length (magnitude catalogue)) in *.
  destruct (sort_order_spec _ _ Hid0) as [Hp0 _]. fold n in Hp0.
  assert (length id0 = n) as Hn.
  { apply Permutation_length in Hp0. by rewrite length_seq in Hp0. }
  assert (NoDup id0) as Hnd by (rewrite Hp0; apply NoDup_seq).
  assert (Hrow : forall k e, id0 !! k = Some e -> e < n).
  { intros k e0 He. apply list_elem_of_lookup_2 in He. rewrite Hp0 in He.
    apply elem_of_seq in He. lia. }
  destruct (lookup_of_Permutation_seq id0 n e Hp0 Hen) as [p Hp].
  destruct (Hout _ _ Hp) as (Hi & Ht & _ & [s0 Hs0]).
  assert (length (np.zeros n) = n) as Hz by apply length_replicate.
  assert (length lon = n) as Hllo by (destruct (take_Return _ _ _ Hlon); lia).
  assert (length lat = n) as Hlla by (destruct (take_Return _ _ _ Hlat); lia).
  assert (length (ya_values yd) = n) as Hly.
  { rewrite (length_ya_take _ _ _ Hyd). lia. }
  assert (cluster_ids st !! p = Some 0%Z) as Hzero.
  { eapply (gk_loop_secluded _ _ _ _ _ _ _ n _ _ _ p Hloop);
      [cbn; by rewrite Hz|done|done|done| |].
    { cbn. apply lookup_replicate_2. apply lookup_lt_Some in Hp. lia. }
    { intros i q _ Hqi Hor year_i time_i lon_i lat_i space_i y_q lo_q la_q
        Hy Hti Hloi Hlai Hspi Hyq Hloq Hlaq.
      destruct (lookup_lt_is_Some_2 id0 i) as [e_i He_i].
      { apply lookup_lt_Some in Hloi. lia. }
      destruct (lookup_lt_is_Some_2 id0 q) as [e_q He_q].
      { apply lookup_lt_Some in Hloq. lia. }
      assert (e_q <> e_i) as Hne.
      { intros ->. by pose proof (NoDup_lookup _ _ _ _ Hnd He_q He_i). }
      assert (outside_radius haversine catalogue config e_i e_q \/
              outside_duration decimal_year catalogue config e_i e_q) as Hpair.
      { destruct Hor as [->| ->]; simplify_eq.
        - by apply (Hiso e_i); [eapply Hrow|].
        - by apply (Hiso e_q); [eapply Hrow|]. }
      rewrite (take_lookup_total _ _ _ _ _ Hlon He_i) in Hloi.
      rewrite (take_lookup_total _ _ _ _ _ Hlat He_i) in Hlai.
      rewrite (take_lookup_total _ _ _ _ _ Hlon He_q) in Hloq.
      rewrite (take_lookup_total _ _ _ _ _ Hlat He_q) in Hlaq.
      destruct (sorted_windows _ _ _ _ _ _ _ Hsws Hswt He_i) as [Hs1 Hs2].
      rewrite Hs1 in Hspi. rewrite Hs2 in Hti. simplify_eq.
      destruct Hpair as [Hr|(y & m & d & Hcy & Hcm & Hcd & Hd)].
      + unfold outside_radius in Hr. rewrite Hr. apply andb_false_r.
      + destruct (sorted_years _ _ _ _ _ _ _ _ Hcy Hcm Hcd Hyd0 Hyd)
          as (a & -> & _ & Ha).
        cbn in Hy, Hyq. apply or_raise_Return in Hy.
        rewrite (Ha _ _ He_i) in Hy. rewrite (Ha _ _ He_q) in Hyq. simplify_eq.
        cbn zeta in Hd. by rewrite Hd. } }
  rewrite Hi, Ht. split; [done|]. rewrite Hs0. f_equal.
  eapply (gk_loop_unclustered _ _ _ _ _ _ _ _ _ _ Hloop); [done| |exact Hzero|exact Hs0].
  cbn. intros p' s' _. apply zeros_lookup.
Qed.

(** X6.  For a catalogue with year, month and day columns, every column
    having one entry per row: once the window strategy has given one radius
    and one duration per magnitude, and as long as the distance and the
    decimal-year helpers return, no step of [decluster] raises.  The sort
    terminates, every index used by the reordering, by the pass and by the
    restoring of the order is in range, and a clustering is returned. *)
Theorem decluster_returns :
  forall catalogue config y m d,
    year catalogue = Some y -> month catalogue = Some m -> day catalogue = Some d ->
    rectangular catalogue y m d ->
    exists ids types,
      decluster haversine decimal_year catalogue config = Return (ids, types).
Proof.
  intros catalogue config y m d Hcy Hcm Hcd (Hllo & Hlla & Hy & Hm & Hd).
  set (n := length (magnitude catalogue)) in *.
  destruct (sort_order_returns (magnitude catalogue)) as [id0 Hid0].
  destruct (sort_order_spec _ _ Hid0) as [Hp0 _]. fold n in Hp0.
  assert (length id0 = n) as Hn.
  { apply Permutation_length in Hp0. by rewrite length_seq in Hp0. }
  pose proof (Forall_lt_of_Permutation _ _ Hp0) as Hlt.
  assert (exists yd0, year_dec_of decimal_year catalogue = Return yd0 /\
            length (ya_values yd0) = n /\
            forall s, yd0 = PdSeries s -> pd.index s = np.arange n)
    as (yd0 & Hyd0 & Hly0 & Hidx).
  { unfold year_dec_of. rewrite Hcy, Hcm, Hcd. eexists. split; [done|]. cbn.
    split; [by apply length_decimal_year_array|]. intros s [=]. }
  destruct (year_array_ready yd0 id0 n Hp0 Hly0 Hidx) as (yd & Hyd & Hget).
  assert (length (np.zeros n) = n) as Hz by apply length_replicate.
  pose proof (take_total (longitude catalogue) id0) as Hlon.
  pose proof (take_total (latitude catalogue) id0) as Hlat.
  pose proof (take_total (calc (time_distance_window config) (magnitude catalogue)
                            (time_cutoff config)).1 id0) as Hsws.
  pose proof (take_total (calc (time_distance_window config) (magnitude catalogue)
                            (time_cutoff config)).2 id0) as Hswt.
  rewrite Hllo in Hlon. rewrite Hlla in Hlat.
  cbn [calc fst snd] in Hsws, Hswt. rewrite length_map in Hsws, Hswt.
  specialize (Hlon Hlt). specialize (Hlat Hlt).
  specialize (Hsws Hlt). specialize (Hswt Hlt).
  destruct (gk_loop_returns haversine
              ((fun i => longitude catalogue !!! i) <$> id0)
              ((fun i => latitude catalogue !!! i) <$> id0)
              ((fun i => (calc (time_distance_window config) (magnitude catalogue)
                            (time_cutoff config)).1 !!! i) <$> id0)
              ((fun i => (calc (time_distance_window config) (magnitude catalogue)
                            (time_cutoff config)).2 !!! i) <$> id0)
              yd (fs_time_prop config) n (seq 0 (n - 1))
              {| cluster_ids := np.zeros n; shock_types := np.zeros n;
                 clust_index := 0 |})
    as [st Hloop]; try done; try (by rewrite length_fmap).
  { apply Forall_forall. intros i Hi%elem_of_seq. lia. }
  destruct (gk_loop_shape _ _ _ _ _ _ _ n _ _ _ Hloop) as (Hlc & Hls & _).
  { cbn. by rewrite Hz. }
  destruct (argsort_returns intp_less id0) as [id1 Hid1].
  pose proof (argsort_Permutation _ _ _ Hid1) as Hp1. rewrite Hn in Hp1.
  pose proof (Forall_lt_of_Permutation _ _ Hp1) as Hlt1.
  eexists _, _.
  eapply (decluster_intro haversine decimal_year catalogue config
            yd0 id0 _ _ _ _ yd st id1); try done.
  - apply take_total. by rewrite Hlc.
  - apply take_total. by rewrite Hls.
Qed.

(** X7.  Restoring the catalogue order undoes the sorting: an array put in an
    order [id0] of its rows and then indexed by the heapsort argsort of
    [id0] is the array itself. *)
Theorem restore_undoes_sort :
  forall {A} (a b : list A) (id0 id1 : list nat),
    Permutation id0 (seq 0 (length a)) ->
    np.take a id0 = Return b ->
    argsort intp_less id0 = Return id1 ->
    np.take b id1 = Return a.
Proof.
  intros A a b id0 id1 Hp0 Hb Hid1.
  assert (length id0 = length a) as Hn.
  { apply Permutation_length in Hp0. by rewrite length_seq in Hp0. }
  rewrite <- Hn in Hp0.
  destruct (restore_order id0 id1 Hp0 Hid1) as [Hp1 Hinv].
  destruct (take_Return _ _ _ Hb) as [Hlb Hbk].
  unfold np.take. rewrite (mapM_Some_2 _ id1 a); [done|].
  apply Forall2_same_length_lookup_2.
  - apply Permutation_length in Hp1. rewrite length_seq in Hp1. lia.
  - intros e p x Hp Hx.
    destruct (lookup_of_Permutation_seq id0 (length id0) e Hp0) as [p' Hp'].
    { apply lookup_lt_Some in Hx. lia. }
    pose proof (Hinv _ _ Hp') as Hp''. rewrite Hp in Hp''. injection Hp'' as ->.
    destruct (Hbk _ _ Hp') as [-> _]. done.
Qed.
(** X18.  For a catalogue with year, month and day columns: when the window of
    the event visited first, the one of largest magnitude that the sort puts
    in front, holds any other event, then cluster 1 of the returned array is
    exactly the set of events that pass its window test. *)
Theorem first_cluster_is_window_of_largest_event :
  forall catalogue config ids types y m d id0 e,
    year catalogue = Some y -> month catalogue = Some m -> day catalogue = Some d ->
    decluster haversine decimal_year catalogue config = Return (ids, types) ->
    sort_order (magnitude catalogue) = Return id0 ->
    id0 !! 0 = Some e ->
    (exists e', e' < length (magnitude catalogue) /\ e' <> e /\
       inside_window haversine decimal_year catalogue config y m d e e' = true) ->
    forall e'', e'' < length (magnitude catalogue) ->
      (ids !! e'' = Some 1%Z <->
       inside_window haversine decimal_year catalogue config y m d e e'' = true).
Proof.
  intros catalogue config ids types y m d id0 e Hcy Hcm Hcd
    (yd0 & id0' & lon & lat & sws & swt & yd & st & Hyd0 & Hid0 & Hlon & Hlat & Hsws
     & Hswt & Hyd & Hloop & Hl1 & Hl2 & Hout)%decluster_run Hid0' He
    (e' & He'n & He'e & He'w) e'' He''.
  rewrite Hid0 in Hid0'. injection Hid0' as ->.
  set (n := length (magnitude catalogue)) in *.
  destruct (sort_order_spec _ _ Hid0) as [Hp0 _]. fold n in Hp0.
  assert (length id0 = n) as Hn.
  { apply Permutation_length in Hp0. by rewrite length_seq in Hp0. }
  assert (NoDup id0) as Hnd by (rewrite Hp0; apply NoDup_seq).
  assert (length (np.zeros n) = n) as Hz by apply length_replicate.
  assert (length lon = n) as Hllo by (destruct (take_Return _ _ _ Hlon); lia).
  assert (length lat = n) as Hlla by (destruct (take_Return _ _ _ Hlat); lia).
  destruct (sorted_years _ _ _ _ _ _ _ _ Hcy Hcm Hcd Hyd0 Hyd) as (a & -> & Hla & Ha).
  destruct (lookup_of_Permutation_seq id0 n e' Hp0 He'n) as [p' Hp'].
  destruct (lookup_of_Permutation_seq id0 n e'' Hp0 He'') as [p'' Hp''].
  assert (p' <> 0) as Hp'0 by (intros ->; congruence).
  assert (1 < n) as Hn2 by (apply lookup_lt_Some in Hp'; lia).
  destruct (sorted_windows _ _ _ _ _ _ _ Hsws Hswt He) as [Hsp0 Hti0].
  pose proof (take_lookup_total _ _ _ _ _ Hlon He) as Hlo0.
  pose proof (take_lookup_total _ _ _ _ _ Hlat He) as Hla0.
  set (init := {| cluster_ids := np.zeros n; shock_types := np.zeros n;
                  clust_index := 0 |}) in *.
  set (dt := time_offsets (NdArray a) (event_year decimal_year y m d e)).
  set (vsel := select haversine lon lat (fs_time_prop config) (np.zeros n) dt
                 (longitude catalogue !!! e) (latitude catalogue !!! e)
                 (space_window config catalogue e) (time_window config catalogue e)).
  assert (Hv : forall p e_p, id0 !! p = Some e_p ->
            mask_at vsel p
            = inside_window haversine decimal_year catalogue config y m d e e_p).
  { intros p e_p Hp. pose proof (lookup_lt_Some _ _ _ Hp) as Hpn. unfold vsel.
    rewrite (select_spec haversine lon lat (fs_time_prop config) (np.zeros n) dt
               _ _ _ _ p 0%Z
               (event_year decimal_year y m d e_p - event_year decimal_year y m d e)%Q
               (longitude catalogue !!! e_p) (latitude catalogue !!! e_p)).
    - done.
    - lia.
    - lia.
    - unfold dt, time_offsets. cbn [ya_values]. rewrite length_map. lia.
    - apply lookup_replicate_2. lia.
    - unfold dt, time_offsets. cbn [ya_values].
      change (map ?f ?l) with (f <$> l). by rewrite list_lookup_fmap, (Ha _ _ Hp).
    - by apply (take_lookup_total _ _ _ _ _ Hlon).
    - by apply (take_lookup_total _ _ _ _ _ Hlat). }
  assert (seq 0 (n - 1) = 0 :: seq 1 (n - 2)) as Hseq.
  { destruct n as [|[|n']]; [lia..|]. cbn. by rewrite Nat.sub_0_r. }
  rewrite Hseq in Hloop. cbn [gk_loop] in Hloop.
  apply bind_Return in Hloop as (st1 & Hb & Hrest).
  rewrite (gk_body_forms haversine lon lat sws swt (NdArray a) (fs_time_prop config)
             0 init (event_year decimal_year y m d e)
             (time_window config catalogue e)
             (longitude catalogue !!! e) (latitude catalogue !!! e)
             (space_window config catalogue e)) in Hb; try done.
  - pose proof (gk_loop_first_cluster haversine lon lat sws swt (NdArray a)
                  (fs_time_prop config) (cluster_ids st1) _ st1 st Hrest) as Hfirst.
    injection Hb as <-.
    cbn [cluster_ids clust_index init] in Hfirst.
    specialize (Hfirst ltac:(lia) (fun p => conj (fun H => H) (fun H => H)) p'').
    destruct (Hout _ _ Hp'') as (-> & _). rewrite Hfirst, set_mask_lookup.
    fold dt. fold vsel. rewrite (Hv _ _ Hp'').
    unfold np.zeros. rewrite lookup_replicate_2 by (apply lookup_lt_Some in Hp''; lia).
    cbn.
    destruct (inside_window haversine decimal_year catalogue config y m d e e'');
      split; intros Hx; first [reflexivity | discriminate Hx].
  - cbn. apply lookup_replicate_2. lia.
  - cbn. unfold np.getitem. by rewrite (Ha _ _ He).
  - cbn zeta. fold dt. fold vsel. apply any_true. exists p'.
    apply mask_at_insert_false. split; [done|].
    change (mask_at vsel p' = true). by rewrite (Hv _ _ Hp').
Qed.
End decluster_more.

Lemma decluster_output_ranges_witness :
  decluster flat_distance spec_decimal_year catalogue3 (config 1)
  = Return ([1; 1; 0]%Z, [0; 1; 0]%Z) /\
  length [1; 1; 0]%Z = length (magnitude catalogue3) /\
  length [0; 1; 0]%Z = length (magnitude catalogue3) /\
  (forall e c, [1; 1; 0]%Z !! e = Some c ->
     (0 <= c <= Z.of_nat (length (magnitude catalogue3) - 1))%Z) /\
  (forall e s, [0; 1; 0]%Z !! e = Some s -> s = (-1)%Z \/ s = 0%Z \/ s = 1%Z).
Proof.
  split; [vm_compute; reflexivity|].
  apply (decluster_output_ranges flat_distance spec_decimal_year
           catalogue3 (config 1) [1; 1; 0]%Z [0; 1; 0]%Z).
  vm_compute. reflexivity.
Defined.

Lemma clusters_numbered_without_gaps_witness :
  exists e, [1; 1; 0]%Z !! e = Some 1%Z /\
    ([0; 1; 0]%Z !! e = Some 1%Z \/ [0; 1; 0]%Z !! e = Some (-1)%Z).
Proof.
  apply (clusters_numbered_without_gaps flat_distance spec_decimal_year
           catalogue3 (config 1) [1; 1; 0]%Z [0; 1; 0]%Z 1%Z).
  - vm_compute. reflexivity.
  - by left.
  - lia.
Defined.

Lemma members_within_mainshock_radius_witness :
  ([0; 1; 0]%Z !! 1 = Some 1%Z \/ [0; 1; 0]%Z !! 1 = Some (-1)%Z) /\
  Qle_bool
    (flat_distance (longitude catalogue3 !!! 1) (latitude catalogue3 !!! 1)
       (longitude catalogue3 !!! 0) (latitude catalogue3 !!! 0))
    (space_window (config 1) catalogue3 0) = true.
Proof.
  apply (members_within_mainshock_radius flat_distance spec_decimal_year
           catalogue3 (config 1) [1; 1; 0]%Z [0; 1; 0]%Z 1 0 1%Z).
  - vm_compute. reflexivity.
  - lia.
  - lia.
  - reflexivity.
  - reflexivity.
  - reflexivity.
Defined.

Lemma members_within_mainshock_duration_witness :
  Qle_bool (- time_window (config 1) catalogue3 0 * fs_time_prop (config 1))
    (event_year spec_decimal_year [2000; 2000; 2000]%Z [1; 1; 1]%Z [1; 2; 1]%Z 1
     - event_year spec_decimal_year [2000; 2000; 2000]%Z [1; 1; 1]%Z [1; 2; 1]%Z 0)
  = true /\
  Qle_bool
    (event_year spec_decimal_year [2000; 2000; 2000]%Z [1; 1; 1]%Z [1; 2; 1]%Z 1
     - event_year spec_decimal_year [2000; 2000; 2000]%Z [1; 1; 1]%Z [1; 2; 1]%Z 0)
    (time_window (config 1) catalogue3 0) = true /\
  [0; 1; 0]%Z !! 1
  = Some (if Qle_bool 0
               (event_year spec_decimal_year [2000; 2000; 2000]%Z [1; 1; 1]%Z
                  [1; 2; 1]%Z 1
                - event_year spec_decimal_year [2000; 2000; 2000]%Z [1; 1; 1]%Z
                    [1; 2; 1]%Z 0)
          then 1%Z else (-1)%Z).
Proof.
  apply (members_within_mainshock_duration flat_distance spec_decimal_year
           catalogue3 (config 1) [1; 1; 0]%Z [0; 1; 0]%Z
           [2000; 2000; 2000]%Z [1; 1; 1]%Z [1; 2; 1]%Z 1 0 1%Z).
  - reflexivity.
  - reflexivity.
  - reflexivity.
  - vm_compute. reflexivity.
  - lia.
  - lia.
  - reflexivity.
  - reflexivity.
  - reflexivity.
Defined.

Lemma secluded_event_stays_unclustered_witness :
  [1; 1; 0]%Z !! 2 = Some 0%Z /\ [0; 1; 0]%Z !! 2 = Some 0%Z.
Proof.
  apply (secluded_event_stays_unclustered flat_distance spec_decimal_year
           catalogue3 (config 1) [1; 1; 0]%Z [0; 1; 0]%Z 2).
  - vm_compute. reflexivity.
  - cbn. lia.
  - intros [|[|[|e']]] He' Hne; [split; left; vm_compute; reflexivity..|done|].
    cbn in He'. lia.
Defined.

Lemma decluster_returns_witness :
  rectangular catalogue3 [2000; 2000; 2000]%Z [1; 1; 1]%Z [1; 2; 1]%Z /\
  exists ids types,
    decluster flat_distance spec_decimal_year catalogue3 (config 1)
    = Return (ids, types).
Proof.
  assert (rectangular catalogue3 [2000; 2000; 2000]%Z [1; 1; 1]%Z [1; 2; 1]%Z) as H
    by (repeat split; reflexivity).
  split; [exact H|].
  apply (decluster_returns flat_distance spec_decimal_year catalogue3 (config 1)
           [2000; 2000; 2000]%Z [1; 1; 1]%Z [1; 2; 1]%Z); [reflexivity..|exact H].
Defined.

Lemma restore_undoes_sort_witness :
  np.take [30; 10; 20]%Z [2; 0; 1] = Return [20; 30; 10]%Z /\
  argsort intp_less [2; 0; 1] = Return [1; 2; 0] /\
  np.take [20; 30; 10]%Z [1; 2; 0] = Return [30; 10; 20]%Z.
Proof.
  split; [reflexivity|]. split; [vm_compute; reflexivity|].
  apply (restore_undoes_sort [30; 10; 20]%Z [20; 30; 10]%Z [2; 0; 1] [1; 2; 0]).
  - cbn. apply (perm_trans (l' := [0; 2; 1])); [apply perm_swap|].
    apply perm_skip, perm_swap.
  - reflexivity.
  - vm_compute. reflexivity.
Defined.

Lemma first_cluster_is_window_of_largest_event_witness :
  inside_window flat_distance spec_decimal_year catalogue3 (config 1)
    [2000; 2000; 2000]%Z [1; 1; 1]%Z [1; 2; 1]%Z 0 1 = true /\
  ([1; 1; 0]%Z !! 2 = Some 1%Z <->
   inside_window flat_distance spec_decimal_year catalogue3 (config 1)
     [2000; 2000; 2000]%Z [1; 1; 1]%Z [1; 2; 1]%Z 0 2 = true).
Proof.
  split; [vm_compute; reflexivity|].
  apply (first_cluster_is_window_of_largest_event flat_distance spec_decimal_year
           catalogue3 (config 1) [1; 1; 0]%Z [0; 1; 0]%Z
           [2000; 2000; 2000]%Z [1; 1; 1]%Z [1; 2; 1]%Z [0; 1; 2] 0).
  - reflexivity.
  - reflexivity.
  - reflexivity.
  - vm_compute. reflexivity.
  - vm_compute. reflexivity.
  - reflexivity.
  - exists 1. split; [cbn; lia|]. split; [lia|]. vm_compute. reflexivity.
  - cbn. lia.
Defined.

(** * Properties of the window strategies *)


Module window_facts.
Import distance_time_windows.
Local Open Scope R_scope.

Lemma GardnerKnopoffWindow_calc_map magnitude :
  GardnerKnopoffWindow_calc magnitude
  = (map gk_space_radius magnitude, map gk_time_duration magnitude).
Proof.
  unfold GardnerKnopoffWindow_calc. f_equal.
  rewrite (place_compress_map (fun m => Rltb m 6.5)
             (fun m => Rpower 10 (0.5409 * m - 0.547))
             (fun m => Rpower 10 (0.032 * m + 2.7389))).
  apply map_ext; intros m. unfold gk_time_duration, Rltb.
  destruct (Rlt_dec m 6.5), (Rge_dec m 6.5); try reflexivity; lra.
Qed.

(** C9.  For every magnitude array the Gardner-Knopoff variant returns one
    space radius and one time duration per magnitude, each computed from
    that magnitude alone: the radius is [10^(0.1238 m + 0.983)], and the
    duration is [10^(0.032 m + 2.7389)] when [m >= 6.5] and
    [10^(0.5409 m - 0.547)] otherwise. *)
Theorem gardner_knopoff_window_formula :
  forall (cutoff : option R) (magnitude : list R),
    _calc {| class_of := GardnerKnopoffWindow; time_cutoff := cutoff |} magnitude
    = (map (fun m => Rpower 10 (0.1238 * m + 0.983)) magnitude,
       map (fun m => if Rge_dec m 6.5
                     then Rpower 10 (0.032 * m + 2.7389)
                     else Rpower 10 (0.5409 * m - 0.547)) magnitude).
Proof.
  intros cutoff magnitude. unfold _calc. cbn [class_of].
  apply GardnerKnopoffWindow_calc_map.
Qed.

Lemma Rpower_10_pos (x : R) : 0 < Rpower 10 x.
Proof. apply exp_pos. Qed.

Lemma gk_time_duration_pos (m : R) : 0 < gk_time_duration m.
Proof.
  unfold gk_time_duration. destruct (Rge_dec m 6.5); apply Rpower_10_pos.
Qed.

(** Every variant yields positive durations. *)
Lemma calc_time_pos self magnitude :
  Forall (fun t => 0 < t) (snd (_calc self magnitude)).
Proof.
  unfold _calc. destruct (class_of self).
  - rewrite GardnerKnopoffWindow_calc_map. cbn [snd].
    apply Forall_fmap, Forall_true. intros m. apply gk_time_duration_pos.
  - unfold GruenthalWindow_calc. cbn [snd].
    rewrite (place_compress_map (fun m => Rgeb m 6.5)
               (fun m => Rpower 10 (2.8 + 0.024 * m))
               (fun m => Rabs (exp (-3.95 + sqrt (0.62 + 17.32 * m))))).
    apply Forall_forall. intros t [m [-> _]]%list_elem_of_fmap.
    destruct (Rgeb m 6.5); [apply Rpower_10_pos|].
    apply Rabs_pos_lt, Rgt_not_eq, exp_pos.
  - cbn [UhrhammerWindow_calc snd].
    apply Forall_fmap, Forall_true. intros m. apply exp_pos.
Qed.

Lemma clip_le (x c : R) : 0 < x -> Rmin c (Rmax x 0) <= x.
Proof.
  intros Hx. rewrite (Rmax_left x 0) by lra. apply Rmin_r.
Qed.

(** C4.  For every variant, magnitude array and cutoff, each duration the
    wrapper returns is at most the unclamped duration of the variant's
    formula, and without a cutoff they are equal. *)
Theorem call_only_shortens :
  forall (self : BaseDistanceTimeWindow) (magnitude : list R),
    Forall2 (fun (d : Timedelta) (t : R) => days d <= t)
      (snd (__call__ self magnitude)) (snd (_calc self magnitude)) /\
    (time_cutoff self = None ->
     map days (snd (__call__ self magnitude)) = snd (_calc self magnitude)).
Proof.
  intros self magnitude. unfold __call__.
  pose proof (calc_time_pos self magnitude) as Hpos.
  destruct (_calc self magnitude) as [sw_space sw_time]. cbn [snd] in *.
  split.
  - destruct (truthy (time_cutoff self)).
    + unfold clip. rewrite map_map. apply Forall2_fmap_l, Forall_Forall2_diag.
      eapply Forall_impl; [exact Hpos|]. intros t Ht. cbn. by apply clip_le.
    + apply Forall2_fmap_l, Forall_Forall2_diag, Forall_true. intros t. cbn. lra.
  - intros ->. cbn. rewrite map_map. cbn. apply map_id.
Qed.

(** C10.  A window built with [time_cutoff = 0] returns what the same
    window built without a cutoff returns, and what it returns are the
    radii and the durations that [_calc] computes, unclamped: the durations
    are not clamped to zero. *)
Theorem zero_cutoff_is_no_cutoff :
  forall (cls : window_class) (magnitude : list R),
    __call__ {| class_of := cls; time_cutoff := Some 0 |} magnitude
    = __call__ {| class_of := cls; time_cutoff := None |} magnitude /\
    fst (__call__ {| class_of := cls; time_cutoff := Some 0 |} magnitude)
    = fst (_calc {| class_of := cls; time_cutoff := Some 0 |} magnitude) /\
    map days (snd (__call__ {| class_of := cls; time_cutoff := Some 0 |} magnitude))
    = snd (_calc {| class_of := cls; time_cutoff := Some 0 |} magnitude).
Proof.
  intros cls magnitude. unfold __call__. cbn [time_cutoff truthy].
  destruct (Req_dec_T 0 0) as [_|Hne]; [|by destruct Hne].
  destruct (_calc {| class_of := cls; time_cutoff := Some 0 |} magnitude)
    as [sw_space sw_time] eqn:Hc.
  assert (_calc {| class_of := cls; time_cutoff := None |} magnitude
          = (sw_space, sw_time)) as ->.
  { rewrite <- Hc. reflexivity. }
  cbn [fst snd]. split; [done|]. split; [done|].
  rewrite map_map. cbn [days]. apply map_id.
Qed.

End window_facts.

(** * Further properties of the window strategies *)

Module window_more.
Import distance_time_windows window_facts.
Local Open Scope R_scope.

(** X9.  The Gruenthal variant, for magnitudes on which both square roots are
    taken of non-negative numbers: the radius is
    [exp(1.77 + sqrt(0.037 + 1.02 m))], and the duration is
    [10^(2.8 + 0.024 m)] when [m >= 6.5] and
    [exp(-3.95 + sqrt(0.62 + 17.32 m))] otherwise; the absolute value taken
    by the code changes nothing. *)
Theorem gruenthal_window_formula :
  forall (cutoff : option R) (magnitude : list R),
    Forall (fun m => 0 <= 0.037 + 1.02 * m /\ 0 <= 0.62 + 17.32 * m) magnitude ->
    _calc {| class_of := GruenthalWindow; time_cutoff := cutoff |} magnitude
    = (map (fun m => exp (1.77 + sqrt (0.037 + 1.02 * m))) magnitude,
       map (fun m => if Rge_dec m 6.5
                     then Rpower 10 (2.8 + 0.024 * m)
                     else exp (-3.95 + sqrt (0.62 + 17.32 * m))) magnitude).
Proof.
  intros cutoff magnitude _. unfold _calc. cbn [class_of].
  unfold GruenthalWindow_calc. f_equal.
  rewrite (place_compress_map (fun m => Rgeb m 6.5)
             (fun m => Rpower 10 (2.8 + 0.024 * m))
             (fun m => Rabs (exp (-3.95 + sqrt (0.62 + 17.32 * m))))).
  apply map_ext. intros m. unfold Rgeb.
  destruct (Rge_dec m 6.5); [done|].
  apply Rabs_pos_eq. left. apply exp_pos.
Qed.

Lemma gruenthal_window_formula_witness :
  _calc {| class_of := GruenthalWindow; time_cutoff := None |} [7]
  = (map (fun m => exp (1.77 + sqrt (0.037 + 1.02 * m))) [7],
     map (fun m => if Rge_dec m 6.5
                   then Rpower 10 (2.8 + 0.024 * m)
                   else exp (-3.95 + sqrt (0.62 + 17.32 * m))) [7]).
Proof.
  apply (gruenthal_window_formula None [7]).
  constructor; [split; lra|constructor].
Defined.

(** Every variant, with or without a cutoff, returns one radius and one
    duration per magnitude. *)
Theorem call_lengths :
  forall (self : BaseDistanceTimeWindow) (magnitude : list R),
    length (fst (__call__ self magnitude)) = length magnitude /\
    length (snd (__call__ self magnitude)) = length magnitude.
Proof.
  intros self magnitude. unfold __call__.
  assert (length (fst (_calc self magnitude)) = length magnitude /\
          length (snd (_calc self magnitude)) = length magnitude) as [H1 H2].
  { unfold _calc. destruct (class_of self); cbn;
      rewrite ?length_place, !length_map; done. }
  destruct (_calc self magnitude) as [sw_space sw_time]. cbn [fst snd] in *.
  split; [done|]. rewrite length_map.
  destruct (truthy (time_cutoff self)); [|done].
  unfold clip. by rewrite length_map.
Qed.

(** X10.  Every variant computes strictly positive radii and durations; for
    the Gruenthal variant, on magnitudes for which both square roots are
    taken of non-negative numbers. *)
Theorem calc_positive :
  forall (self : BaseDistanceTimeWindow) (magnitude : list R),
    (class_of self = GruenthalWindow ->
     Forall (fun m => 0 <= 0.037 + 1.02 * m /\ 0 <= 0.62 + 17.32 * m) magnitude) ->
    Forall (fun r => 0 < r) (fst (_calc self magnitude)) /\
    Forall (fun t => 0 < t) (snd (_calc self magnitude)).
Proof.
  intros self magnitude _. split; [|apply calc_time_pos].
  unfold _calc. destruct (class_of self); cbn [fst GardnerKnopoffWindow_calc
    GruenthalWindow_calc UhrhammerWindow_calc];
    apply Forall_forall; intros r [m [-> _]]%list_elem_of_fmap; apply exp_pos.
Qed.

Lemma calc_positive_witness :
  Forall (fun r => 0 < r)
    (fst (_calc {| class_of := GruenthalWindow; time_cutoff := None |} [7])) /\
  Forall (fun t => 0 < t)
    (snd (_calc {| class_of := GruenthalWindow; time_cutoff := None |} [7])).
Proof.
  apply (calc_positive {| class_of := GruenthalWindow; time_cutoff := None |} [7]).
  intros _. constructor; [split; lra|constructor].
Defined.

(** X11.  With a cutoff other than 0, every duration returned is the smaller of
    the cutoff and the unclamped duration, so none exceeds the cutoff. *)
Theorem cutoff_is_minimum :
  forall (cls : window_class) (c : R) (magnitude : list R),
    c <> 0 ->
    let self := {| class_of := cls; time_cutoff := Some c |} in
    map days (snd (__call__ self magnitude)) = map (Rmin c) (snd (_calc self magnitude)) /\
    Forall (fun d => days d <= c) (snd (__call__ self magnitude)).
Proof.
  intros cls c magnitude Hc self. unfold __call__.
  pose proof (calc_time_pos self magnitude) as Hpos.
  destruct (_calc self magnitude) as [sw_space sw_time]. cbn [snd] in *.
  unfold self. cbn [time_cutoff truthy default].
  destruct (Req_dec_T c 0) as [|_]; [done|].
  unfold clip. rewrite !map_map. cbn [days]. split.
  - apply map_ext_Forall. eapply Forall_impl; [exact Hpos|].
    intros t Ht. cbn. by rewrite (Rmax_left t 0) by lra.
  - apply Forall_forall. intros d [t [-> _]]%list_elem_of_fmap. cbn. apply Rmin_l.
Qed.

Lemma cutoff_is_minimum_witness :
  map days (snd (__call__ {| class_of := UhrhammerWindow; time_cutoff := Some 100 |} [5]))
  = map (Rmin 100) (snd (_calc {| class_of := UhrhammerWindow; time_cutoff := Some 100 |} [5])) /\
  Forall (fun d => days d <= 100)
    (snd (__call__ {| class_of := UhrhammerWindow; time_cutoff := Some 100 |} [5])).
Proof.
  apply (cutoff_is_minimum UhrhammerWindow 100 [5]). lra.
Defined.

(** X12.  In the Gardner-Knopoff variant the radius never decreases with the
    magnitude, and neither does the duration as long as both magnitudes lie
    on the same side of 6.5. *)
Theorem gardner_knopoff_window_monotone :
  forall (cutoff : option R) (m1 m2 : R),
    m1 <= m2 ->
    exists r1 r2 t1 t2,
      _calc {| class_of := GardnerKnopoffWindow; time_cutoff := cutoff |} [m1; m2]
      = ([r1; r2], [t1; t2]) /\
      r1 <= r2 /\ (m2 < 6.5 \/ 6.5 <= m1 -> t1 <= t2).
Proof.
  intros cutoff m1 m2 Hm. unfold _calc. cbn [class_of].
  rewrite GardnerKnopoffWindow_calc_map. cbn [map].
  eexists _, _, _, _. split; [reflexivity|]. split.
  - unfold gk_space_radius. apply Rle_Rpower; lra.
  - unfold gk_time_duration. intros Hside.
    destruct (Rge_dec m1 6.5), (Rge_dec m2 6.5); try lra; apply Rle_Rpower; lra.
Qed.

Lemma gardner_knopoff_window_monotone_witness :
  exists r1 r2 t1 t2,
    _calc {| class_of := GardnerKnopoffWindow; time_cutoff := None |} [5; 6]
    = ([r1; r2], [t1; t2]) /\
    r1 <= r2 /\ (6 < 6.5 \/ 6.5 <= 5 -> t1 <= t2).
Proof.
  apply (gardner_knopoff_window_monotone None 5 6). lra.
Defined.

(** X13.  Across 6.5 the Gardner-Knopoff duration drops: every magnitude from
    6.47 up to, but not including, 6.5 gets a longer duration than every
    magnitude from 6.5 to 6.6. *)
Theorem gardner_knopoff_duration_drops_at_6_5 :
  forall (cutoff : option R) (m1 m2 : R),
    6.47 <= m1 -> m1 < 6.5 -> 6.5 <= m2 -> m2 <= 6.6 ->
    exists t1 t2,
      snd (_calc {| class_of := GardnerKnopoffWindow; time_cutoff := cutoff |} [m1; m2])
      = [t1; t2] /\ t2 < t1.
Proof.
  intros cutoff m1 m2 H1 H2 H3 H4. unfold _calc. cbn [class_of].
  rewrite GardnerKnopoffWindow_calc_map. cbn [map snd].
  eexists _, _. split; [reflexivity|]. unfold gk_time_duration.
  destruct (Rge_dec m1 6.5), (Rge_dec m2 6.5); try lra.
  apply Rpower_lt; lra.
Qed.

Lemma gardner_knopoff_duration_drops_at_6_5_witness :
  exists t1 t2,
    snd (_calc {| class_of := GardnerKnopoffWindow; time_cutoff := None |} [6.49; 6.5])
    = [t1; t2] /\ t2 < t1.
Proof.
  apply (gardner_knopoff_duration_drops_at_6_5 None 6.49 6.5); lra.
Defined.

End window_more.
(** * Properties of the option store *)

Module config_facts.
Import _config.

Lemma set_option_dom key value (options : gmap string Any) :
  dom (set_option key value options).1 = dom options.
Proof.
  unfold set_option.
  destruct (decide (is_Some (options !! key))) as [Hk|Hk]; cbn; [|done].
  rewrite dom_insert_L. apply subseteq_union_1_L, singleton_subseteq_l.
  by apply elem_of_dom.
Qed.

Lemma get_set_option_eq key value (options : gmap string Any) :
  is_Some (options !! key) ->
  get_option key (set_option key value options).1 = Return value.
Proof.
  intros Hk. unfold set_option, get_option.
  rewrite decide_True by done. cbn. by rewrite lookup_insert_eq.
Qed.

Lemma get_set_option_ne key key' value (options : gmap string Any) :
  key' <> key ->
  get_option key' (set_option key value options).1 = get_option key' options.
Proof.
  intros Hne. unfold set_option, get_option.
  destruct (decide (is_Some (options !! key))) as [Hk|Hk]; cbn; [|done].
  by rewrite lookup_insert_ne.
Qed.

Lemma set_options_snoc calls call (options : gmap string Any) :
  set_options (calls ++ [call]) options
  = (set_option call.1 call.2 (set_options calls options)).1.
Proof. unfold set_options. by rewrite fold_left_app. Qed.

Lemma set_options_dom (calls : list (string * Any)) :
  dom (set_options calls __options) = {[ "warnings"%string ]}.
Proof.
  induction calls as [|call calls IH] using rev_ind.
  - cbn. unfold __options. by rewrite dom_singleton_L.
  - by rewrite set_options_snoc, set_option_dom.
Qed.

Lemma set_options_warnings (calls : list (string * Any)) :
  is_Some (set_options calls __options !! "warnings"%string).
Proof. apply elem_of_dom. rewrite set_options_dom. by apply elem_of_singleton. Qed.

(** X14.  [set_option] never adds or removes a key, whether it raises or
    not, and it raises exactly on a key the store does not have, leaving the
    store as it was. *)
Theorem set_option_keeps_keys :
  forall key value (options : gmap string Any),
    dom (set_option key value options).1 = dom options /\
    ((set_option key value options).2 = Raise KeyError <-> options !! key = None) /\
    ((set_option key value options).2 = Raise KeyError ->
     (set_option key value options).1 = options).
Proof.
  intros key value options. split; [apply set_option_dom|].
  unfold set_option.
  destruct (decide (is_Some (options !! key))) as [Hk|Hk]; cbn.
  - split; [|done]. split; [done|]. intros Hn. rewrite Hn in Hk. by destruct Hk.
  - split; [|done]. split; [|done]. intros _. by apply eq_None_not_Some.
Qed.

(** X15.  Reading back an option that was set gives the value set, and
    setting one key changes no other key. *)
Theorem get_option_after_set_option :
  forall key value (options : gmap string Any),
    (is_Some (options !! key) ->
     get_option key (set_option key value options).1 = Return value) /\
    (forall key', key' <> key ->
       get_option key' (set_option key value options).1 = get_option key' options).
Proof.
  intros key value options. split.
  - apply get_set_option_eq.
  - intros key'. apply get_set_option_ne.
Qed.

(** X16.  Starting from the initial store, after any sequence of
    [set_option] calls ["warnings"] is the only key: reading it succeeds and
    reading any other key raises [KeyError]. *)
Theorem warnings_is_the_only_option :
  forall (calls : list (string * Any)),
    dom (set_options calls __options) = {[ "warnings"%string ]} /\
    (exists value, get_option "warnings" (set_options calls __options) = Return value) /\
    (forall key, key <> "warnings"%string ->
       get_option key (set_options calls __options) = Raise KeyError).
Proof.
  intros calls. split; [apply set_options_dom|]. unfold get_option. split.
  - destruct (set_options_warnings calls) as [v Hv]. exists v. by rewrite Hv.
  - intros key Hne.
    assert (set_options calls __options !! key = None) as ->; [|done].
    apply not_elem_of_dom. rewrite set_options_dom. by apply not_elem_of_singleton.
Qed.

(** X17.  The value of ["warnings"] after a sequence of calls is the one of
    the last call that named it, and [True] when none did. *)
Theorem last_set_option_wins :
  forall (calls : list (string * Any)),
    get_option "warnings" (set_options calls __options)
    = Return (default (PyBool true)
                (last (snd <$> filter (fun call => call.1 = "warnings"%string) calls))).
Proof.
  intros calls. induction calls as [|[key value] calls IH] using rev_ind.
  - reflexivity.
  - rewrite set_options_snoc, filter_app, fmap_app. cbn [fst snd].
    destruct (decide (key = "warnings"%string)) as [->|Hne].
    + rewrite filter_cons_True by done. rewrite filter_nil. cbn.
      rewrite last_snoc. cbn.
      apply get_set_option_eq, set_options_warnings.
    + rewrite filter_cons_False by done. rewrite filter_nil, app_nil_r.
      rewrite <- IH. by apply get_set_option_ne.
Qed.

End config_facts.
